(** * Storefront catalog store and cart cookie protocol

    A shallow embedding of [src/data/store.ts] (the in-memory [DataStore]) and
    of the cart part of [src/server.ts] ([parseCartItems], [writeCartItems],
    the [/cart] and [/cart/add] handlers), with the properties of the
    specification stated and proved over it.

    JavaScript numbers are IEEE 754 binary64 values, modelled by the kernel's
    primitive floats.  JavaScript strings are modelled by [string]; a
    character stands for a code unit below 256. *)

From Stdlib Require Import ZArith Bool List Ascii String DecimalString Floats Lia.
From stdpp Require Import base option list strings gmap.

Local Open Scope string_scope.
Local Open Scope list_scope.

(** ** JavaScript values and conversions *)

#[local] Set Warnings "-register-all".

Module JS.

(** The Number type. *)
Definition number : Type := float.

Definition NaN : number := PrimFloat.nan.

(** [Number.isFinite] on a number. *)
Definition isFinite (x : number) : bool := PrimFloat.is_finite x.

(** [x > 0] *)
Definition gt0 (x : number) : bool := PrimFloat.ltb 0%float x.

(** ToBoolean on a number: [NaN], [+0] and [-0] are falsy. *)
Definition truthy_number (x : number) : bool :=
  negb (PrimFloat.is_nan x || PrimFloat.is_zero x).

(** ToBoolean on a string or [undefined]: the empty string is falsy. *)
Definition truthy_string (s : string) : bool :=
  negb (String.eqb s "").

Definition truthy_opt_string (s : option string) : bool :=
  match s with
  | Some s => truthy_string s
  | None => false
  end.

(** [Math.max(a, b)]: [NaN] if either is [NaN], and [+0] above [-0]. *)
Definition Math_max (a b : number) : number :=
  if PrimFloat.is_nan a || PrimFloat.is_nan b then NaN
  else if PrimFloat.ltb a b then b
  else if PrimFloat.ltb b a then a
  else if PrimFloat.is_zero a && PrimFloat.get_sign a then b
  else a.

(** Abrupt completions: the errors the modelled code can raise. *)
Inductive Error : Type := TypeError | SyntaxError.

Inductive Completion (A : Type) : Type :=
| Normal (a : A)
| Throw (e : Error).
Global Arguments Normal {A} a.
Global Arguments Throw {A} e.

Definition bind {A B : Type} (c : Completion A) (k : A -> Completion B)
  : Completion B :=
  match c with
  | Normal a => k a
  | Throw e => Throw e
  end.

(** [Number.isInteger]: a finite number with no fractional part. *)
Definition isInteger (x : number) : bool :=
  match Prim2SF x with
  | S754_zero _ => true
  | S754_finite _ m e => (0 <=? e)%Z || (Zpos m mod 2 ^ (- e) =? 0)%Z
  | _ => false
  end.

(** Plain data: what [JSON.parse] returns and what [JSON.stringify] is
    given.  [undefined] is not a member; where a property read may give
    [undefined] the result is an [option]. *)
Inductive Value : Type :=
| JNull
| JBool (b : bool)
| JNum (n : number)
| JStr (s : string)
| JArr (items : list Value)
| JObj (fields : list (string * Value)).

Definition isArray (v : Value) : bool :=
  match v with
  | JArr _ => true
  | _ => false
  end.

End JS.

(** ** The host's built-in functions

    [JSON.parse], [JSON.stringify], the string-to-number and number-to-string
    conversions and [Number.parseInt] belong to the JavaScript engine, not to
    the repository.  The embedding of the repository's code is parameterised
    by them, and the general theorems hold for every host. *)

Class Host : Type := {
  (** [JSON.parse(text)]; [Throw SyntaxError] when the text is not JSON. *)
  JSON_parse : string -> JS.Completion JS.Value;
  (** [JSON.stringify(value)] on plain data. *)
  JSON_stringify : JS.Value -> string;
  (** ToNumber applied to a string. *)
  StringToNumber : string -> JS.number;
  (** ToString applied to a number. *)
  NumberToString : JS.number -> string;
  (** [Number.parseInt(string, 10)]. *)
  parseInt10 : string -> JS.number
}.

(** ** A reference host

    Executable definitions of the built-ins, following ECMA-262, used to
    evaluate the embedding on concrete cookie texts.  Strings are limited to
    code units below 256: a [\uXXXX] escape above [00FF] denotes a string
    outside the model and the reference parser rejects it. *)

Module Ecma.
Import JS.

Definition dquote : ascii := "034"%char.

(** The value of a hexadecimal digit. *)
Definition hex_val (c : ascii) : option Z :=
  let n := nat_of_ascii c in
  if Nat.leb 48 n && Nat.leb n 57 then Some (Z.of_nat n - 48)%Z
  else if Nat.leb 97 n && Nat.leb n 102 then Some (Z.of_nat n - 87)%Z
  else if Nat.leb 65 n && Nat.leb n 70 then Some (Z.of_nat n - 55)%Z
  else None.

(** WhiteSpace and LineTerminator code units below 256. *)
Definition is_space (c : ascii) : bool :=
  let n := nat_of_ascii c in
  (Nat.leb 9 n && Nat.leb n 13) || Nat.eqb n 32 || Nat.eqb n 160.

(** JSON white space. *)
Definition is_json_ws (c : ascii) : bool :=
  let n := nat_of_ascii c in
  Nat.eqb n 9 || Nat.eqb n 10 || Nat.eqb n 13 || Nat.eqb n 32.

Fixpoint skip (p : ascii -> bool) (s : string) : string :=
  match s with
  | String c rest => if p c then skip p rest else s
  | EmptyString => s
  end.

(** Drops the characters satisfying [p] at the end of [s]. *)
Fixpoint skip_end (p : ascii -> bool) (s : string) : string :=
  match s with
  | String c rest =>
      match skip_end p rest with
      | EmptyString => if p c then EmptyString else String c EmptyString
      | rest' => String c rest'
      end
  | EmptyString => s
  end.

(** Reads a maximal run of digits in base [base]: the value continued from
    [acc], the number of digits read, and the rest of the text. *)
Fixpoint read_digits (base : Z) (s : string) (acc count : Z) : Z * Z * string :=
  match s with
  | String c rest =>
      match hex_val c with
      | Some d =>
          if (d <? base)%Z
          then read_digits base rest (base * acc + d)%Z (count + 1)%Z
          else (acc, count, s)
      | None => (acc, count, s)
      end
  | EmptyString => (acc, count, s)
  end.

Definition decimal_string (z : Z) : string :=
  DecimalString.NilZero.string_of_uint (N.to_uint (Z.to_N z)).

(** Number of decimal digits of a positive integer. *)
Definition digits10 (z : Z) : Z := Z.of_nat (String.length (decimal_string z)).

Definition signed_zero (neg : bool) : number :=
  if neg then PrimFloat.neg_zero else PrimFloat.zero.

Definition signed_infinity (neg : bool) : number :=
  if neg then PrimFloat.neg_infinity else PrimFloat.infinity.

(** The binary64 value nearest to [num / den] (ties to even), for
    [0 <= num] and [0 < den], with the sign [neg]. *)
Definition ratio_to_number (neg : bool) (num den : Z) : number :=
  match num with
  | Zpos _ =>
      let '(q, e, l) := SFdiv_core_binary prec emax num 0 den 0 in
      SF2Prim (binary_round_aux prec emax neg q e l)
  | _ => signed_zero neg
  end.

(** The binary64 value nearest to [m * 10 ^ e], for [0 <= m]. *)
Definition decimal_to_number (neg : bool) (m e : Z) : number :=
  if (m =? 0)%Z then signed_zero neg
  else
    let d := digits10 m in
    if (400 <? d + e)%Z then signed_infinity neg
    else if (d + e <? -400)%Z then signed_zero neg
    else if (0 <=? e)%Z then ratio_to_number neg (m * 10 ^ e) 1
    else ratio_to_number neg m (10 ^ (- e)).

(** *** Number.parseInt(string, 10) *)

Definition read_sign (s : string) : bool * string :=
  match s with
  | String "-" rest => (true, rest)
  | String "+" rest => (false, rest)
  | _ => (false, s)
  end.

Definition parseInt10 (s : string) : number :=
  let '(neg, s1) := read_sign (skip is_space s) in
  let '(v, n, _) := read_digits 10 s1 0 0 in
  if (n =? 0)%Z then NaN else decimal_to_number neg v 0.

(** *** ToNumber on strings (StringToNumber) *)

(** An unsigned literal in base [base] that must span the whole text. *)
Definition radix_literal (base : Z) (s : string) : number :=
  let '(v, n, rest) := read_digits base s 0 0 in
  if (0 <? n)%Z && String.eqb rest "" then decimal_to_number false v 0 else NaN.

(** The exponent part, if any; the text must end after it. *)
Definition read_exponent (s : string) : option Z :=
  match s with
  | EmptyString => Some 0%Z
  | String c rest =>
      if Ascii.eqb c "e" || Ascii.eqb c "E" then
        let '(eneg, s1) := read_sign rest in
        let '(ev, en, s2) := read_digits 10 s1 0 0 in
        if (0 <? en)%Z && String.eqb s2 ""
        then Some (if eneg then - ev else ev)%Z
        else None
      else None
  end.

Definition decimal_literal (s : string) : number :=
  let '(neg, s1) := read_sign s in
  if String.eqb s1 "Infinity" then signed_infinity neg
  else
    let '(ip, n, s2) := read_digits 10 s1 0 0 in
    let '(m, k, s3) :=
      match s2 with
      | String "." rest => read_digits 10 rest ip 0
      | _ => (ip, 0%Z, s2)
      end in
    if (n + k =? 0)%Z then NaN
    else
      match read_exponent s3 with
      | Some e => decimal_to_number neg m (e - k)
      | None => NaN
      end.

Definition StringToNumber (s : string) : number :=
  match skip_end is_space (skip is_space s) with
  | EmptyString => PrimFloat.zero
  | String "0" (String "x" rest) | String "0" (String "X" rest) =>
      radix_literal 16 rest
  | String "0" (String "o" rest) | String "0" (String "O" rest) =>
      radix_literal 8 rest
  | String "0" (String "b" rest) | String "0" (String "B" rest) =>
      radix_literal 2 rest
  | t => decimal_literal t
  end.

(** *** ToString on numbers (Number::toString, radix 10) *)

(** The exact value of a finite positive number, as a fraction. *)
Definition exact_ratio (x : number) : option (Z * Z) :=
  match Prim2SF x with
  | S754_finite false m e =>
      Some (if (0 <=? e)%Z then (Zpos m * 2 ^ e, 1) else (Zpos m, 2 ^ (- e)))%Z
  | _ => None
  end.

(** [num / den] divided by [10 ^ p], as a fraction. *)
Definition scale10 (num den p : Z) : Z * Z :=
  if (0 <=? p)%Z then (num, den * 10 ^ p)%Z else (num * 10 ^ (- p), den)%Z.

(** The [n] with [10 ^ (n - 1) <= num / den < 10 ^ n]. *)
Definition decimal_exponent (num den : Z) : Z :=
  let n := (digits10 num - digits10 den)%Z in
  let '(a, b) := scale10 num den n in
  if (b <=? a)%Z then (n + 1)%Z else n.

(** The shortest decimal [s * 10 ^ (n - k)], [s] of [k] digits, that
    converts back to [x]; among two of the same length the closer one, and
    the even one on a tie.  Returns [(s, k, n)]. *)
Fixpoint shortest_decimal (x : number) (num den n0 k : Z) (fuel : nat)
  : Z * Z * Z :=
  let p := (n0 - k)%Z in
  let '(a, b) := scale10 num den p in
  let lo := (a / b)%Z in
  let r := (a mod b)%Z in
  let hi := (lo + 1)%Z in
  let ok_lo := PrimFloat.eqb (decimal_to_number false lo p) x in
  let ok_hi := PrimFloat.eqb (decimal_to_number false hi p) x in
  let pick_hi :=
    ok_hi && (negb ok_lo || (b <? 2 * r)%Z || ((2 * r =? b)%Z && Z.odd lo)) in
  if pick_hi then
    if (hi =? 10 ^ k)%Z then (10 ^ (k - 1), k, n0 + 1)%Z else (hi, k, n0)
  else if ok_lo then (lo, k, n0)
  else
    match fuel with
    | O => (lo, k, n0)
    | S fuel => shortest_decimal x num den n0 (k + 1)%Z fuel
    end.

Fixpoint zeros (n : nat) : string :=
  match n with
  | O => ""
  | S n => String "0" (zeros n)
  end.

Definition str_take (n : Z) (s : string) : string :=
  String.substring 0 (Z.to_nat n) s.

Definition str_drop (n : Z) (s : string) : string :=
  String.substring (Z.to_nat n) (String.length s - Z.to_nat n) s.

Definition format_decimal (s k n : Z) : string :=
  let ds := decimal_string s in
  if (k <=? n)%Z && (n <=? 21)%Z then ds +:+ zeros (Z.to_nat (n - k))
  else if (0 <? n)%Z && (n <=? 21)%Z then str_take n ds +:+ "." +:+ str_drop n ds
  else if (-6 <? n)%Z && (n <=? 0)%Z then "0." +:+ zeros (Z.to_nat (- n)) +:+ ds
  else
    let e := (n - 1)%Z in
    let es := (if (e <? 0)%Z then "-" else "+") +:+ decimal_string (Z.abs e) in
    if (k =? 1)%Z then ds +:+ "e" +:+ es
    else str_take 1 ds +:+ "." +:+ str_drop 1 ds +:+ "e" +:+ es.

Definition NumberToString (x : number) : string :=
  if PrimFloat.is_nan x then "NaN"
  else if PrimFloat.is_zero x then "0"
  else if PrimFloat.is_infinity x
  then (if PrimFloat.ltb x 0%float then "-Infinity" else "Infinity")
  else
    let neg := PrimFloat.ltb x 0%float in
    let y := PrimFloat.abs x in
    match exact_ratio y with
    | Some (num, den) =>
        let '(s, k, n) :=
          shortest_decimal y num den (decimal_exponent num den) 1 16 in
        (if neg then "-" else "") +:+ format_decimal s k n
    | None => "NaN"
    end.

(** *** JSON.stringify on plain data *)

Definition hex_digit (n : nat) : ascii :=
  if Nat.ltb n 10 then ascii_of_nat (48 + n) else ascii_of_nat (87 + n).

(** QuoteJSONString, one code unit. *)
Definition escape (c : ascii) : string :=
  let n := nat_of_ascii c in
  if Nat.eqb n 34 then String "\" (String dquote "")
  else if Nat.eqb n 92 then "\\"
  else if Nat.eqb n 8 then "\b"
  else if Nat.eqb n 12 then "\f"
  else if Nat.eqb n 10 then "\n"
  else if Nat.eqb n 13 then "\r"
  else if Nat.eqb n 9 then "\t"
  else if Nat.ltb n 32
  then "\u00" +:+ String (hex_digit (n / 16)) (String (hex_digit (n mod 16)) "")
  else String c "".

Fixpoint quote_body (s : string) : string :=
  match s with
  | String c rest => escape c +:+ quote_body rest
  | EmptyString => String dquote ""
  end.

Definition quote (s : string) : string := String dquote (quote_body s).

(** The fields of an object are listed in property order. *)
Fixpoint JSON_stringify (v : Value) : string :=
  match v with
  | JNull => "null"
  | JBool b => if b then "true" else "false"
  | JNum n => if isFinite n then NumberToString n else "null"
  | JStr s => quote s
  | JArr items => "[" +:+ String.concat "," (map JSON_stringify items) +:+ "]"
  | JObj fields =>
      "{" +:+ String.concat ","
               (map (fun kv : string * Value =>
                       let (k, x) := kv in quote k +:+ ":" +:+ JSON_stringify x)
                    fields)
          +:+ "}"
  end.

(** *** JSON.parse *)

Fixpoint strip_prefix (p s : string) : option string :=
  match p, s with
  | EmptyString, _ => Some s
  | String a p', String b s' => if Ascii.eqb a b then strip_prefix p' s' else None
  | String _ _, EmptyString => None
  end.

(** The four hexadecimal digits of a [\u] escape. *)
Definition hex4 (a b c d : ascii) : option Z :=
  match hex_val a, hex_val b, hex_val c, hex_val d with
  | Some x, Some y, Some z, Some w => Some (((x * 16 + y) * 16 + z) * 16 + w)%Z
  | _, _, _, _ => None
  end.

(** The characters of a string literal after its opening quote, and the text
    after its closing quote. *)
Fixpoint parse_string_body (s : string) : option (string * string) :=
  match s with
  | EmptyString => None
  | String c rest =>
      if Ascii.eqb c dquote then Some ("", rest)
      else if Ascii.eqb c "\" then
        match rest with
        | String "u" (String h1 (String h2 (String h3 (String h4 rest')))) =>
            match hex4 h1 h2 h3 h4 with
            | Some code =>
                if (code <? 256)%Z then
                  match parse_string_body rest' with
                  | Some (str, r) =>
                      Some (String (ascii_of_nat (Z.to_nat code)) str, r)
                  | None => None
                  end
                else None
            | None => None
            end
        | String e rest' =>
            let unescaped :=
              if Ascii.eqb e dquote then Some dquote
              else if Ascii.eqb e "\" then Some "\"%char
              else if Ascii.eqb e "/" then Some "/"%char
              else if Ascii.eqb e "b" then Some "008"%char
              else if Ascii.eqb e "f" then Some "012"%char
              else if Ascii.eqb e "n" then Some "010"%char
              else if Ascii.eqb e "r" then Some "013"%char
              else if Ascii.eqb e "t" then Some "009"%char
              else None in
            match unescaped, parse_string_body rest' with
            | Some u, Some (str, r) => Some (String u str, r)
            | _, _ => None
            end
        | EmptyString => None
        end
      else if Nat.ltb (nat_of_ascii c) 32 then None
      else
        match parse_string_body rest with
        | Some (str, r) => Some (String c str, r)
        | None => None
        end
  end.

(** A JSON number: no leading zeros, digits on both sides of the point. *)
Definition parse_number (s : string) : option (number * string) :=
  let '(neg, s1) :=
    match s with
    | String "-" rest => (true, rest)
    | _ => (false, s)
    end in
  let '(ip, n, s2) := read_digits 10 s1 0 0 in
  let leading_zero :=
    match s1 with
    | String "0" _ => (1 <? n)%Z
    | _ => false
    end in
  if (n =? 0)%Z || leading_zero then None
  else
    let frac :=
      match s2 with
      | String "." rest =>
          let '(m, k, s3) := read_digits 10 rest ip 0 in
          if (k =? 0)%Z then None else Some (m, k, s3)
      | _ => Some (ip, 0%Z, s2)
      end in
    match frac with
    | None => None
    | Some (m, k, s3) =>
        match s3 with
        | String c rest =>
            if Ascii.eqb c "e" || Ascii.eqb c "E" then
              let '(eneg, s4) := read_sign rest in
              let '(ev, en, s5) := read_digits 10 s4 0 0 in
              if (en =? 0)%Z then None
              else Some (decimal_to_number neg m ((if eneg then - ev else ev) - k), s5)
            else Some (decimal_to_number neg m (- k), s3)
        | EmptyString => Some (decimal_to_number neg m (- k), s3)
        end
    end.

(** CreateDataProperty: a repeated key overwrites the earlier value. *)
Fixpoint set_field (k : string) (v : Value) (fields : list (string * Value))
  : list (string * Value) :=
  match fields with
  | [] => [(k, v)]
  | (k', v') :: rest =>
      if String.eqb k k' then (k', v) :: rest else (k', v') :: set_field k v rest
  end.

Fixpoint parse_value (fuel : nat) (s : string) {struct fuel}
  : option (Value * string) :=
  match fuel with
  | O => None
  | S fuel =>
      match skip is_json_ws s with
      | EmptyString => None
      | String c rest as t =>
          if Ascii.eqb c "[" then
            match skip is_json_ws rest with
            | String "]" rest' => Some (JArr [], rest')
            | _ => parse_elements fuel rest []
            end
          else if Ascii.eqb c "{" then
            match skip is_json_ws rest with
            | String "}" rest' => Some (JObj [], rest')
            | _ => parse_members fuel rest []
            end
          else if Ascii.eqb c dquote then
            match parse_string_body rest with
            | Some (str, r) => Some (JStr str, r)
            | None => None
            end
          else if Ascii.eqb c "n" then
            match strip_prefix "null" t with
            | Some r => Some (JNull, r)
            | None => None
            end
          else if Ascii.eqb c "t" then
            match strip_prefix "true" t with
            | Some r => Some (JBool true, r)
            | None => None
            end
          else if Ascii.eqb c "f" then
            match strip_prefix "false" t with
            | Some r => Some (JBool false, r)
            | None => None
            end
          else
            match parse_number t with
            | Some (n, r) => Some (JNum n, r)
            | None => None
            end
      end
  end
with parse_elements (fuel : nat) (s : string) (acc : list Value) {struct fuel}
  : option (Value * string) :=
  match fuel with
  | O => None
  | S fuel =>
      match parse_value fuel s with
      | Some (v, rest) =>
          match skip is_json_ws rest with
          | String "," rest' => parse_elements fuel rest' (acc ++ [v])
          | String "]" rest' => Some (JArr (acc ++ [v]), rest')
          | _ => None
          end
      | None => None
      end
  end
with parse_members (fuel : nat) (s : string) (acc : list (string * Value))
                   {struct fuel} : option (Value * string) :=
  match fuel with
  | O => None
  | S fuel =>
      match skip is_json_ws s with
      | String c rest =>
          if Ascii.eqb c dquote then
            match parse_string_body rest with
            | Some (key, r) =>
                match skip is_json_ws r with
                | String ":" r' =>
                    match parse_value fuel r' with
                    | Some (v, r'') =>
                        match skip is_json_ws r'' with
                        | String "," r3 => parse_members fuel r3 (set_field key v acc)
                        | String "}" r3 => Some (JObj (set_field key v acc), r3)
                        | _ => None
                        end
                    | None => None
                    end
                | _ => None
                end
            | None => None
            end
          else None
      | EmptyString => None
      end
  end.

Definition JSON_parse (text : string) : Completion Value :=
  match parse_value (2 * String.length text + 4) text with
  | Some (v, rest) =>
      match skip is_json_ws rest with
      | EmptyString => Normal v
      | String _ _ => Throw SyntaxError
      end
  | None => Throw SyntaxError
  end.

(** Replaces every single quote by a double quote: a way to write texts
    that contain double quotes as string literals. *)
Fixpoint js (s : string) : string :=
  match s with
  | String c rest => String (if Ascii.eqb c "'" then dquote else c) (js rest)
  | EmptyString => EmptyString
  end.

Definition host : Host :=
  Build_Host JSON_parse JSON_stringify StringToNumber NumberToString parseInt10.

End Ecma.

(** ** Slug generator ([slugify] of [src/data/store.ts]) *)

(** [String.prototype.toLowerCase] on a code unit below 256. *)
Definition toLowerCase_char (c : ascii) : ascii :=
  let n := nat_of_ascii c in
  if Nat.leb 65 n && Nat.leb n 90 then ascii_of_nat (n + 32)
  else if Nat.leb 192 n && Nat.leb n 222 && negb (Nat.eqb n 215)
  then ascii_of_nat (n + 32)
  else c.

Fixpoint toLowerCase (s : string) : string :=
  match s with
  | String c rest => String (toLowerCase_char c) (toLowerCase rest)
  | EmptyString => EmptyString
  end.

(** The class [[a-z0-9]]. *)
Definition is_slug_char (c : ascii) : bool :=
  let n := nat_of_ascii c in
  (Nat.leb 97 n && Nat.leb n 122) || (Nat.leb 48 n && Nat.leb n 57).

(** [.replace(/[^a-z0-9]+/g, '-')]: every maximal run of other characters
    becomes one hyphen.  [in_run] tells that the run has been replaced. *)
Fixpoint replace_runs (in_run : bool) (s : string) : string :=
  match s with
  | String c rest =>
      if is_slug_char c then String c (replace_runs false rest)
      else if in_run then replace_runs true rest
      else String "-" (replace_runs true rest)
  | EmptyString => EmptyString
  end.

Definition drop_first_hyphen (s : string) : string :=
  match s with
  | String "-" rest => rest
  | _ => s
  end.

Fixpoint drop_last_hyphen (s : string) : string :=
  match s with
  | String c rest =>
      match rest with
      | EmptyString => if Ascii.eqb c "-" then EmptyString else s
      | String _ _ => String c (drop_last_hyphen rest)
      end
  | EmptyString => EmptyString
  end.

(** [.replace(/(^-|-$)+/g, '')]: the pattern matches a hyphen at the start
    of the text and a hyphen at its end, and nothing else. *)
Definition strip_hyphens (s : string) : string :=
  drop_last_hyphen (drop_first_hyphen s).

Definition slugify (value : string) : string :=
  strip_hyphens (replace_runs false (toLowerCase value)).

(** ** Data model ([src/data/models.ts])

    A property of an object may hold [undefined] whatever its declared
    type: a field is an [option], [None] standing for [undefined]. *)

(** References into a heap of objects. *)
Abbreviation ref := nat (only parsing).

Module ProductMedia.
Record t : Type := mk { id : string; url : string; altText : string }.
End ProductMedia.

Module Product.
Record t : Type := mk {
  id : string;
  name : option string;
  slug : option string;
  description : option string;
  price : option JS.number;
  currency : option string;
  media : option (list ProductMedia.t);
  additionalInfo : option (list (string * string));
  categoryIds : option (list string);
  customTemplate : option string
}.

Definition set_slug (v : option string) (p : t) : t :=
  mk (id p) (name p) v (description p) (price p) (currency p) (media p)
     (additionalInfo p) (categoryIds p) (customTemplate p).

Definition set_categoryIds (v : option (list string)) (p : t) : t :=
  mk (id p) (name p) (slug p) (description p) (price p) (currency p) (media p)
     (additionalInfo p) v (customTemplate p).
End Product.

Module Category.
Record t : Type := mk {
  id : string;
  name : option string;
  slug : option string;
  description : option string;
  parentId : option string
}.

Definition set_slug (v : option string) (c : t) : t :=
  mk (id c) (name c) v (description c) (parentId c).
End Category.

Module CustomPage.
Record t : Type := mk {
  id : string;
  title : option string;
  slug : option string;
  content : option string;
  template : option string
}.

Definition set_slug (v : option string) (p : t) : t :=
  mk (id p) (title p) v (content p) (template p).
End CustomPage.

Module PaymentGatewayConfig.
Record t : Type := mk {
  provider : string;
  enabled : bool;
  publicKey : option string;
  secretKey : option string;
  metadata : option (list (string * string))
}.
End PaymentGatewayConfig.

Module SiteSettings.
Record t : Type := mk {
  headerHtml : option string;
  footerHtml : option string;
  paymentGateways : option (list PaymentGatewayConfig.t)
}.
End SiteSettings.

(** *** Partial objects

    In a [Partial<T>] each key is absent, or present with a value that may
    be [undefined]: [None] is an absent key, [Some None] a key bound to
    [undefined]. *)

Definition partial (A : Type) : Type := option (option A).

(** Reading a property of a partial object. *)
Definition prop {A : Type} (u : partial A) : option A :=
  match u with
  | Some v => v
  | None => None
  end.

(** One field of the object spread [{ ...old, ...update }]. *)
Definition spread {A : Type} (old : option A) (u : partial A) : option A :=
  match u with
  | Some v => v
  | None => old
  end.

Module ProductUpdate.
Record t : Type := mk {
  name : partial string;
  slug : partial string;
  description : partial string;
  price : partial JS.number;
  currency : partial string;
  media : partial (list ProductMedia.t);
  additionalInfo : partial (list (string * string));
  categoryIds : partial (list string);
  customTemplate : partial string
}.
Definition empty : t := mk None None None None None None None None None.
End ProductUpdate.

Module CategoryUpdate.
Record t : Type := mk {
  name : partial string;
  slug : partial string;
  description : partial string;
  parentId : partial string
}.
Definition empty : t := mk None None None None.
End CategoryUpdate.

Module PageUpdate.
Record t : Type := mk {
  title : partial string;
  slug : partial string;
  content : partial string;
  template : partial string
}.
Definition empty : t := mk None None None None.
End PageUpdate.

Module SettingsUpdate.
Record t : Type := mk {
  headerHtml : partial string;
  footerHtml : partial string;
  paymentGateways : partial (list PaymentGatewayConfig.t)
}.
Definition empty : t := mk None None None.
End SettingsUpdate.

(** The inputs of [createProduct] and [createPage]:
    [Omit<T, 'id' | 'slug'> & { slug?: string }]. *)
Module ProductInput.
Record t : Type := mk {
  name : string;
  slug : option string;
  description : string;
  price : JS.number;
  currency : string;
  media : list ProductMedia.t;
  additionalInfo : list (string * string);
  categoryIds : list string;
  customTemplate : option string
}.
End ProductInput.

Module PageInput.
Record t : Type := mk {
  title : string;
  slug : option string;
  content : string;
  template : string
}.
End PageInput.

(** ** [Map<string, V>]: the entries in insertion order *)

Section JSMap.
Context {V : Type}.

Fixpoint Map_get (k : string) (m : list (string * V)) : option V :=
  match m with
  | [] => None
  | (k', v) :: rest => if String.eqb k' k then Some v else Map_get k rest
  end.

(** [set] keeps the position of a key that is present and appends a new one. *)
Fixpoint Map_set (k : string) (v : V) (m : list (string * V))
  : list (string * V) :=
  match m with
  | [] => [(k, v)]
  | (k', v') :: rest =>
      if String.eqb k' k then (k', v) :: rest else (k', v') :: Map_set k v rest
  end.

Fixpoint Map_delete (k : string) (m : list (string * V)) : list (string * V) :=
  match m with
  | [] => []
  | (k', v) :: rest =>
      if String.eqb k' k then Map_delete k rest else (k', v) :: Map_delete k rest
  end.

Definition Map_values (m : list (string * V)) : list V := map snd m.

End JSMap.

(** ** The data store ([DataStore] of [src/data/store.ts])

    Product objects are mutated in place by [removeCategory] and handed out
    by reference, so they live in a heap ([objects]) and the [products] map
    holds references.  Categories, pages and the settings are never mutated
    in place: their maps hold the records. *)

Record DataStore : Type := mkStore {
  objects : list Product.t;
  products : list (string * ref);
  categories : list (string * Category.t);
  pages : list (string * CustomPage.t);
  settings : SiteSettings.t
}.

Definition set_objects (h : list Product.t) (s : DataStore) : DataStore :=
  mkStore h (products s) (categories s) (pages s) (settings s).

Definition set_products (m : list (string * ref)) (s : DataStore) : DataStore :=
  mkStore (objects s) m (categories s) (pages s) (settings s).

Definition set_categories (m : list (string * Category.t)) (s : DataStore)
  : DataStore :=
  mkStore (objects s) (products s) m (pages s) (settings s).

Definition set_pages (m : list (string * CustomPage.t)) (s : DataStore)
  : DataStore :=
  mkStore (objects s) (products s) (categories s) m (settings s).

Definition set_settings (v : SiteSettings.t) (s : DataStore) : DataStore :=
  mkStore (objects s) (products s) (categories s) (pages s) v.

(** The store of a new process; [year] is [new Date().getFullYear()] as a
    string. *)
Definition new_DataStore (year : string) : DataStore :=
  mkStore [] [] [] []
    (SiteSettings.mk
       (Some (Ecma.js "<h1 class='site-title'>My Storefront</h1>"))
       (Some ("<p>" +:+ String "169"%char (" " +:+ year +:+ " My Storefront</p>")))
       (Some [PaymentGatewayConfig.mk "stripe" false None None
                (Some [("instructions",
                        "Configure Stripe keys in the payment settings.")])])).

(** The identifiers returned by [randomUUID()] are arguments of the
    operations that draw them. *)

Definition createCategory (uuid : string) (name : string)
    (description parentId : option string) (s : DataStore)
  : Category.t * DataStore :=
  let category :=
    Category.mk uuid (Some name) (Some (slugify name)) description parentId in
  (category, set_categories (Map_set uuid category (categories s)) s).

Definition listCategories (s : DataStore) : list Category.t :=
  Map_values (categories s).

Definition getCategory (id : string) (s : DataStore) : option Category.t :=
  Map_get id (categories s).

Definition updateCategory (id : string) (update : CategoryUpdate.t)
    (s : DataStore) : option Category.t * DataStore :=
  match Map_get id (categories s) with
  | None => (None, s)
  | Some category =>
      let updated :=
        Category.mk (Category.id category)
          (spread (Category.name category) (CategoryUpdate.name update))
          (spread (Category.slug category) (CategoryUpdate.slug update))
          (spread (Category.description category)
                  (CategoryUpdate.description update))
          (spread (Category.parentId category)
                  (CategoryUpdate.parentId update)) in
      let updated :=
        if JS.truthy_opt_string (prop (CategoryUpdate.name update))
        then Category.set_slug
               (Some (slugify (default "" (prop (CategoryUpdate.name update)))))
               updated
        else updated in
      (Some updated, set_categories (Map_set id updated (categories s)) s)
  end.

(** The callback of [this.products.forEach] in [removeCategory], applied to
    the entries in order.  [product.categoryIds.filter] raises a [TypeError]
    when [categoryIds] holds [undefined]; the store is then left as the
    callbacks before it made it.  A reference always designates an object:
    the [None] branch of the lookup is never taken. *)
Fixpoint removeCategory_forEach (id : string) (entries : list (string * ref))
    (s : DataStore) : JS.Completion unit * DataStore :=
  match entries with
  | [] => (JS.Normal tt, s)
  | (_, r) :: rest =>
      match objects s !! r with
      | Some product =>
          match Product.categoryIds product with
          | Some ids =>
              let ids' :=
                List.filter (fun categoryId => negb (String.eqb categoryId id))
                            ids in
              let product' := Product.set_categoryIds (Some ids') product in
              let s1 := set_objects (<[r := product']> (objects s)) s in
              let s2 :=
                set_products (Map_set (Product.id product') r (products s1)) s1 in
              removeCategory_forEach id rest s2
          | None => (JS.Throw JS.TypeError, s)
          end
      | None => removeCategory_forEach id rest s
      end
  end.

(** [Map.prototype.forEach] visits the entries of the live map.  Every key
    of [products] is the [id] of its object ([keys_are_ids] below, kept by
    all operations), so the [set] of the callback rebinds a key that is
    present to the reference it has and the entries visited are those the
    map has when the loop starts. *)
Definition removeCategory (id : string) (s : DataStore)
  : JS.Completion unit * DataStore :=
  let s1 := set_categories (Map_delete id (categories s)) s in
  removeCategory_forEach id (products s1) s1.

Definition createProduct (uuid : string) (productInput : ProductInput.t)
    (s : DataStore) : ref * DataStore :=
  let slug :=
    if JS.truthy_opt_string (ProductInput.slug productInput)
    then slugify (default "" (ProductInput.slug productInput))
    else slugify (ProductInput.name productInput) in
  let product :=
    Product.mk uuid
      (Some (ProductInput.name productInput))
      (Some slug)
      (Some (ProductInput.description productInput))
      (Some (ProductInput.price productInput))
      (Some (ProductInput.currency productInput))
      (Some (ProductInput.media productInput))
      (Some (ProductInput.additionalInfo productInput))
      (Some (ProductInput.categoryIds productInput))
      (ProductInput.customTemplate productInput) in
  let r := length (objects s) in
  (r, set_products (Map_set uuid r (products s))
        (set_objects (objects s ++ [product]) s)).

(** The references [listProducts()] returns, and the objects behind them. *)
Definition listProducts (s : DataStore) : list ref := Map_values (products s).

Definition deref_all {A : Type} (h : list A) (rs : list ref) : list A :=
  omap (fun r => h !! r) rs.

Definition listProducts_objects (s : DataStore) : list Product.t :=
  deref_all (objects s) (listProducts s).

Definition getProduct (id : string) (s : DataStore) : option ref :=
  Map_get id (products s).

Definition getProduct_object (id : string) (s : DataStore) : option Product.t :=
  match getProduct id s with
  | Some r => objects s !! r
  | None => None
  end.

Definition updateProduct (id : string) (update : ProductUpdate.t)
    (s : DataStore) : option ref * DataStore :=
  match getProduct_object id s with
  | None => (None, s)
  | Some product =>
      let updated :=
        Product.mk (Product.id product)
          (spread (Product.name product) (ProductUpdate.name update))
          (spread (Product.slug product) (ProductUpdate.slug update))
          (spread (Product.description product)
                  (ProductUpdate.description update))
          (spread (Product.price product) (ProductUpdate.price update))
          (spread (Product.currency product) (ProductUpdate.currency update))
          (spread (Product.media product) (ProductUpdate.media update))
          (spread (Product.additionalInfo product)
                  (ProductUpdate.additionalInfo update))
          (spread (Product.categoryIds product)
                  (ProductUpdate.categoryIds update))
          (spread (Product.customTemplate product)
                  (ProductUpdate.customTemplate update)) in
      let name_truthy := JS.truthy_opt_string (prop (ProductUpdate.name update)) in
      let slug_truthy := JS.truthy_opt_string (prop (ProductUpdate.slug update)) in
      let updated :=
        if name_truthy && negb slug_truthy
        then Product.set_slug
               (Some (slugify (default "" (prop (ProductUpdate.name update)))))
               updated
        else updated in
      let updated :=
        if slug_truthy
        then Product.set_slug
               (Some (slugify (default "" (prop (ProductUpdate.slug update)))))
               updated
        else updated in
      let r := length (objects s) in
      (Some r, set_products (Map_set id r (products s))
                 (set_objects (objects s ++ [updated]) s))
  end.

Definition removeProduct (id : string) (s : DataStore) : DataStore :=
  set_products (Map_delete id (products s)) s.

Definition createPage (uuid : string) (pageInput : PageInput.t) (s : DataStore)
  : CustomPage.t * DataStore :=
  let slug :=
    if JS.truthy_opt_string (PageInput.slug pageInput)
    then slugify (default "" (PageInput.slug pageInput))
    else slugify (PageInput.title pageInput) in
  let page :=
    CustomPage.mk uuid (Some (PageInput.title pageInput)) (Some slug)
      (Some (PageInput.content pageInput)) (Some (PageInput.template pageInput)) in
  (page, set_pages (Map_set uuid page (pages s)) s).

Definition listPages (s : DataStore) : list CustomPage.t := Map_values (pages s).

Definition getPageBySlug (slug : string) (s : DataStore) : option CustomPage.t :=
  List.find (fun page => bool_decide (CustomPage.slug page = Some slug))
            (Map_values (pages s)).

Definition updatePage (id : string) (update : PageUpdate.t) (s : DataStore)
  : option CustomPage.t * DataStore :=
  match Map_get id (pages s) with
  | None => (None, s)
  | Some page =>
      let updated :=
        CustomPage.mk (CustomPage.id page)
          (spread (CustomPage.title page) (PageUpdate.title update))
          (spread (CustomPage.slug page) (PageUpdate.slug update))
          (spread (CustomPage.content page) (PageUpdate.content update))
          (spread (CustomPage.template page) (PageUpdate.template update)) in
      let title_truthy := JS.truthy_opt_string (prop (PageUpdate.title update)) in
      let slug_truthy := JS.truthy_opt_string (prop (PageUpdate.slug update)) in
      let updated :=
        if title_truthy && negb slug_truthy
        then CustomPage.set_slug
               (Some (slugify (default "" (prop (PageUpdate.title update)))))
               updated
        else updated in
      let updated :=
        if slug_truthy
        then CustomPage.set_slug
               (Some (slugify (default "" (prop (PageUpdate.slug update)))))
               updated
        else updated in
      (Some updated, set_pages (Map_set id updated (pages s)) s)
  end.

Definition removePage (id : string) (s : DataStore) : DataStore :=
  set_pages (Map_delete id (pages s)) s.

Definition getSettings (s : DataStore) : SiteSettings.t := settings s.

Definition updateSettings (update : SettingsUpdate.t) (s : DataStore)
  : SiteSettings.t * DataStore :=
  let merged :=
    SiteSettings.mk
      (spread (SiteSettings.headerHtml (settings s))
              (SettingsUpdate.headerHtml update))
      (spread (SiteSettings.footerHtml (settings s))
              (SettingsUpdate.footerHtml update))
      (spread (SiteSettings.paymentGateways (settings s))
              (SettingsUpdate.paymentGateways update)) in
  (merged, set_settings merged s).

(** Every key of the [products] map is the [id] of the object it is bound
    to, and every reference designates an object. *)
Definition keys_are_ids (s : DataStore) : Prop :=
  forall k r, (k, r) ∈ products s ->
    exists p, objects s !! r = Some p /\ Product.id p = k.

(** ** The cart: cookie codec and handlers ([src/server.ts]) *)

Module CartItem.
Record t : Type := mk { productId : string; quantity : JS.number }.

Definition set_quantity (q : JS.number) (item : t) : t := mk (productId item) q.
End CartItem.

(** A field of [req.body] as the urlencoded body parser leaves it: absent, a
    string, an array or an object. *)
Inductive BodyValue : Type :=
| BUndefined
| BString (s : string)
| BArray (items : list BodyValue)
| BObject.

(** The request.  [cart_cookie] is what [getCookieValue(req, 'cart')]
    evaluates to: the URI-decoded value of the cookie, [None] for
    [undefined].  [__cartItems] is the array cached on the request.

    The last two fields are what
    [new URL(text, `${req.protocol}://${req.get('host')}`)] does on this
    request, [true] when it returns and [false] when it throws its
    [TypeError]: [redirect_parses] for [text] the [redirect] field of the
    body, and [path_parses] for [text] a path [/products/...], which parses
    against every base that parses. *)
Record Request : Type := mkRequest {
  cart_cookie : option string;
  __cartItems : option (list ref);
  body_productId : BodyValue;
  body_quantity : BodyValue;
  body_redirect : BodyValue;
  redirect_parses : bool;
  path_parses : bool
}.

Definition set___cartItems (items : list ref) (r : Request) : Request :=
  mkRequest (cart_cookie r) (Some items) (body_productId r) (body_quantity r)
            (body_redirect r) (redirect_parses r) (path_parses r).

(** A line of the cart page. *)
Module Line.
Record t : Type := mk {
  product : ref;
  quantity : JS.number;
  lineTotal : JS.number
}.
End Line.

(** What the handler sent: a redirect (its target is not modelled) or the
    cart page with its lines and total. *)
Inductive Sent : Type :=
| Redirect
| Render (items : list Line.t) (total : JS.number).

(** The response: the value given to [res.cookie('cart', ...)], the counter
    in [res.locals], and what was sent. *)
Record Response : Type := mkResponse {
  set_cookie : option string;
  cartItemCount : option JS.number;
  sent : option Sent
}.

Definition new_Response : Response := mkResponse None None None.

(** The state a handler runs in.  The cart items are objects shared between
    arrays: [cart_objects] is their heap. *)
Record World : Type := mkWorld {
  store : DataStore;
  cart_objects : list CartItem.t;
  req : Request;
  res : Response
}.

Definition set_cart_objects (h : list CartItem.t) (w : World) : World :=
  mkWorld (store w) h (req w) (res w).

Definition set_req (r : Request) (w : World) : World :=
  mkWorld (store w) (cart_objects w) r (res w).

Definition set_res (r : Response) (w : World) : World :=
  mkWorld (store w) (cart_objects w) (req w) r.

(** Computations on the world that return or throw. *)
Definition M (A : Type) : Type := World -> JS.Completion A * World.

Definition ret {A : Type} (a : A) : M A := fun w => (JS.Normal a, w).

Definition bindM {A B : Type} (m : M A) (k : A -> M B) : M B :=
  fun w =>
    match m w with
    | (JS.Normal a, w') => k a w'
    | (JS.Throw e, w') => (JS.Throw e, w')
    end.

Notation "'let*' x ':=' m 'in' k" := (bindM m (fun x => k))
  (at level 10, x name, m at level 100, k at level 200).

Definition lift {A : Type} (c : JS.Completion A) : M A := fun w => (c, w).

(** [try { body } catch { handler }] *)
Definition try_catch {A : Type} (body handler : M A) : M A :=
  fun w =>
    match body w with
    | (JS.Normal a, w') => (JS.Normal a, w')
    | (JS.Throw _, w') => handler w'
    end.

Definition get_world : M World := fun w => (JS.Normal w, w).

Definition modify (f : World -> World) : M unit := fun w => (JS.Normal tt, f w).

(** Creates the objects and returns their references. *)
Definition alloc (items : list CartItem.t) : M (list ref) :=
  fun w =>
    (JS.Normal (seq (length (cart_objects w)) (length items)),
     set_cart_objects (cart_objects w ++ items) w).

Definition CART_COOKIE_NAME : string := "cart".

(** [Completion] computations in sequence, as [Array.prototype.map] runs
    its callback. *)
Fixpoint mapC {A B : Type} (f : A -> JS.Completion B) (l : list A)
  : JS.Completion (list B) :=
  match l with
  | [] => JS.Normal []
  | x :: rest =>
      JS.bind (f x) (fun y => JS.bind (mapC f rest) (fun ys => JS.Normal (y :: ys)))
  end.

(** The own property [key] of an object made by [JSON.parse]. *)
Fixpoint own_property (key : string) (fields : list (string * JS.Value))
  : option JS.Value :=
  match fields with
  | [] => None
  | (k, v) :: rest => if String.eqb k key then Some v else own_property key rest
  end.

(** [item.key] for a value made by [JSON.parse] and a key that no built-in
    prototype defines ([productId], [quantity]): reading a property of
    [null] raises a [TypeError]; numbers, strings, booleans and arrays give
    [undefined]. *)
Definition Get (item : JS.Value) (key : string)
  : JS.Completion (option JS.Value) :=
  match item with
  | JS.JNull => JS.Throw JS.TypeError
  | JS.JObj fields => JS.Normal (own_property key fields)
  | _ => JS.Normal None
  end.

Section WithHost.
Context {host : Host}.

(** ToString on a value made by [JSON.parse].  An array is joined with
    commas, [null] elements giving the empty string.  An object gives
    ["[object Object]"] through [Object.prototype.toString], unless an own
    property [toString] hides it: that property is data, not a function,
    the inherited [valueOf] returns the object, and the conversion raises a
    [TypeError]. *)
Fixpoint ToString (v : JS.Value) : JS.Completion string :=
  match v with
  | JS.JNull => JS.Normal "null"
  | JS.JBool b => JS.Normal (if b then "true" else "false")
  | JS.JNum n => JS.Normal (NumberToString n)
  | JS.JStr s => JS.Normal s
  | JS.JArr items =>
      (fix join (l : list JS.Value) : JS.Completion string :=
         match l with
         | [] => JS.Normal ""
         | x :: rest =>
             JS.bind
               (match x with
                | JS.JNull => JS.Normal ""
                | _ => ToString x
                end)
               (fun sx =>
                  match rest with
                  | [] => JS.Normal sx
                  | _ :: _ =>
                      JS.bind (join rest) (fun sr => JS.Normal (sx +:+ "," +:+ sr))
                  end)
         end) items
  | JS.JObj fields =>
      match own_property "toString" fields with
      | Some _ => JS.Throw JS.TypeError
      | None => JS.Normal "[object Object]"
      end
  end.

(** [Number(v)] for [v] a property read from a value made by [JSON.parse]. *)
Definition ToNumber (v : option JS.Value) : JS.Completion JS.number :=
  match v with
  | None => JS.Normal JS.NaN
  | Some JS.JNull => JS.Normal 0%float
  | Some (JS.JBool b) => JS.Normal (if b then 1%float else 0%float)
  | Some (JS.JNum n) => JS.Normal n
  | Some (JS.JStr s) => JS.Normal (StringToNumber s)
  | Some x => JS.bind (ToString x) (fun s => JS.Normal (StringToNumber s))
  end.

(** The callback of [parsed.map] in [parseCartItems]. *)
Definition sanitize (item : JS.Value) : JS.Completion CartItem.t :=
  JS.bind (Get item "productId") (fun productId =>
  JS.bind (Get item "quantity") (fun quantity =>
  JS.bind (ToNumber quantity) (fun n =>
  JS.Normal
    (CartItem.mk
       match productId with
       | Some (JS.JStr s) => s
       | _ => ""
       end
       (if JS.isFinite n then n else 0%float))))).

(** The callback of [.filter] in [parseCartItems]:
    [item.productId && item.quantity > 0]. *)
Definition valid_item (item : CartItem.t) : bool :=
  JS.truthy_string (CartItem.productId item) && JS.gt0 (CartItem.quantity item).

(** [refs.filter(p)] on an array of cart items. *)
Definition filter_items (p : CartItem.t -> bool) (h : list CartItem.t)
    (refs : list ref) : list ref :=
  List.filter (fun r => match h !! r with
                        | Some item => p item
                        | None => false
                        end) refs.

(** [req.__cartItems = items; return req.__cartItems;] *)
Definition cache_and_return (items : list ref) : M (list ref) :=
  let* _ := modify (fun w => set_req (set___cartItems items (req w)) w) in
  ret items.

Definition parseCartItems : M (list ref) :=
  let* w := get_world in
  match __cartItems (req w) with
  | Some items => ret items
  | None =>
      let raw := cart_cookie (req w) in
      if negb (JS.truthy_opt_string raw) then cache_and_return []
      else
        try_catch
          (let* parsed := lift (JSON_parse (default "" raw)) in
           match parsed with
           | JS.JArr elements =>
               let* mapped := lift (mapC sanitize elements) in
               let* refs := alloc mapped in
               let* w' := get_world in
               cache_and_return (filter_items valid_item (cart_objects w') refs)
           | _ => cache_and_return []
           end)
          (cache_and_return [])
  end.

(** The value [JSON.stringify] is given: an array of
    [{ productId, quantity }] objects. *)
Definition cart_value (items : list CartItem.t) : JS.Value :=
  JS.JArr
    (map (fun item =>
            JS.JObj [("productId", JS.JStr (CartItem.productId item));
                     ("quantity", JS.JNum (CartItem.quantity item))])
         items).

Definition writeCartItems (items : list ref) : M unit :=
  let* w := get_world in
  let sanitized :=
    filter_items (fun item => JS.gt0 (CartItem.quantity item))
                 (cart_objects w) items in
  modify (fun w =>
            set_res
              (mkResponse
                 (Some (JSON_stringify
                          (cart_value (deref_all (cart_objects w) sanitized))))
                 (cartItemCount (res w)) (sent (res w)))
              w).

(** The middleware that counts the items of the cart before every handler. *)
Definition cart_count_middleware : M unit :=
  let* cartItems := parseCartItems in
  modify (fun w =>
            set_res
              (mkResponse
                 (set_cookie (res w))
                 (Some (fold_left
                          (fun total item => PrimFloat.add total (CartItem.quantity item))
                          (deref_all (cart_objects w) cartItems) 0%float))
                 (sent (res w)))
              w).

Definition send (s : Sent) : M unit :=
  modify (fun w =>
            set_res (mkResponse (set_cookie (res w)) (cartItemCount (res w)) (Some s))
                    w).

(** A number read from a property that may hold [undefined]. *)
Definition number_of (v : option JS.number) : JS.number := default JS.NaN v.

(** The callback of [cartItems.map] in the handler of [GET /cart]; [None]
    is the [undefined] that [.filter(Boolean)] removes. *)
Definition price_line (s : DataStore) (item : CartItem.t) : option Line.t :=
  match getProduct (CartItem.productId item) s with
  | Some r =>
      match objects s !! r with
      | Some product =>
          Some (Line.mk r (CartItem.quantity item)
                  (PrimFloat.mul (number_of (Product.price product))
                                 (CartItem.quantity item)))
      | None => None
      end
  | None => None
  end.

(** [app.get('/cart', ...)] *)
Definition get_cart : M unit :=
  let* cartItems := parseCartItems in
  let* w := get_world in
  let items :=
    omap (price_line (store w)) (deref_all (cart_objects w) cartItems) in
  let total :=
    fold_left (fun sum item => PrimFloat.add sum (Line.lineTotal item))
              items 0%float in
  send (Render items total).

(** [Array.isArray(v) ? v[0] : v] *)
Definition first_if_array (v : BodyValue) : BodyValue :=
  match v with
  | BArray [] => BUndefined
  | BArray (x :: _) => x
  | _ => v
  end.

(** ToString on a field of the body. *)
Fixpoint body_ToString (v : BodyValue) : string :=
  match v with
  | BUndefined => "undefined"
  | BString s => s
  | BArray items =>
      String.concat ","
        (map (fun x => match x with
                       | BUndefined => ""
                       | _ => body_ToString x
                       end) items)
  | BObject => "[object Object]"
  end.

(** The text [Number.parseInt] reads: ToString of [quantityRaw ?? '1']. *)
Definition quantity_text (quantityRaw : BodyValue) : string :=
  match quantityRaw with
  | BUndefined => "1"
  | v => body_ToString v
  end.

(** [Math.max(1, Number.parseInt(quantityRaw ?? '1', 10) || 1)] *)
Definition requested_quantity (quantityRaw : BodyValue) : JS.number :=
  let parsed := parseInt10 (quantity_text quantityRaw) in
  JS.Math_max 1%float (if JS.truthy_number parsed then parsed else 1%float).

(** [existingItem.quantity += quantity] *)
Definition add_quantity (n : JS.number) (item : CartItem.t) : CartItem.t :=
  CartItem.set_quantity (PrimFloat.add (CartItem.quantity item) n) item.

(** [items.find((item) => item.productId === id)] *)
Definition find_item (h : list CartItem.t) (id : string) (items : list ref)
  : option ref :=
  List.find (fun r => match h !! r with
                      | Some item => String.eqb (CartItem.productId item) id
                      | None => false
                      end) items.

(** [redirectRaw && typeof redirectRaw === 'string'] *)
Definition redirect_given (redirectRaw : BodyValue) : bool :=
  match redirectRaw with
  | BString text => JS.truthy_string text
  | _ => false
  end.

(** [new URL(redirectUrl, `${req.protocol}://${req.get('host')}`)], where
    [redirectUrl] is [redirectRaw] when that is given and
    [`/products/${product.slug}`] otherwise.  The call returns or throws a
    [TypeError]; the URL it makes is only the target of the redirect. *)
Definition new_URL (redirectRaw : BodyValue) : M unit :=
  fun w =>
    let parses :=
      if redirect_given redirectRaw then redirect_parses (req w)
      else path_parses (req w) in
    (if parses then JS.Normal tt else JS.Throw JS.TypeError, w).

(** [app.post('/cart/add', ...)]; the target of a redirect is not
    modelled.  The spread [[...parseCartItems(request)]] makes a new array
    of the same references: [items] is the list [parseCartItems] returned,
    and the objects behind it are shared with the cached array.  When
    [new URL] throws, the cart has been changed and the cookie written, and
    no redirect is sent. *)
Definition post_cart_add : M unit :=
  let* parsed := parseCartItems in
  let items := parsed in
  let* w := get_world in
  let productIdRaw := first_if_array (body_productId (req w)) in
  let quantityRaw := first_if_array (body_quantity (req w)) in
  let redirectRaw := first_if_array (body_redirect (req w)) in
  match productIdRaw with
  | BString productIdRaw =>
      match getProduct_object productIdRaw (store w) with
      | None => send Redirect
      | Some product =>
          let quantity := requested_quantity quantityRaw in
          let* items :=
            match find_item (cart_objects w) (Product.id product) items with
            | Some existingItem =>
                let* _ :=
                  modify (fun w =>
                    set_cart_objects
                      (alter (add_quantity quantity) existingItem
                             (cart_objects w)) w) in
                ret items
            | None =>
                let* fresh := alloc [CartItem.mk (Product.id product) quantity] in
                ret (items ++ fresh)
            end in
          let* _ := modify (fun w => set_req (set___cartItems items (req w)) w) in
          let* _ := writeCartItems items in
          let* _ := new_URL redirectRaw in
          send Redirect
      end
  | _ => send Redirect
  end.

End WithHost.

(** ** Notions used in the statements *)

(** The items an array of references shows in a heap. *)
Definition cart_view (h : list CartItem.t) (refs : list ref) : list CartItem.t :=
  deref_all h refs.

(** The cart cached on the request, as items. *)
Definition cached_cart (w : World) : option (list CartItem.t) :=
  cart_view (cart_objects w) <$> __cartItems (req w).

(** The array cached on a request holds distinct, allocated references, as
    every array made by [parseCartItems] and [post_cart_add] does. *)
Definition cache_ok (w : World) : Prop :=
  match __cartItems (req w) with
  | Some refs => NoDup refs /\ forall r, r ∈ refs -> r < length (cart_objects w)
  | None => True
  end.

(** The world after [req.__cartItems = items]. *)
Definition with_cache (items : list ref) (w : World) : World :=
  set_req (set___cartItems items (req w)) w.

(** A request as it arrives: nothing cached yet.  It has no [redirect]
    field, and a [Host] header against which a path parses. *)
Definition new_Request (raw : option string) (productId quantity : BodyValue)
  : Request :=
  mkRequest raw None productId quantity BUndefined true true.

Section Codec.
Context {host : Host}.

(** What [parseCartItems] returns in a world, as items. *)
Definition decoded (w : World) : JS.Completion (list CartItem.t) :=
  match parseCartItems w with
  | (JS.Normal refs, w') => JS.Normal (cart_view (cart_objects w') refs)
  | (JS.Throw e, _) => JS.Throw e
  end.

(** [decode]: [parseCartItems] on a new request whose cart cookie is [raw]. *)
Definition decode (raw : option string) : JS.Completion (list CartItem.t) :=
  decoded (mkWorld (new_DataStore "") []
                   (new_Request raw BUndefined BUndefined) new_Response).

(** [encode]: the cookie value [writeCartItems] gives to the response for
    an array holding [items]. *)
Definition encode (items : list CartItem.t) : option string :=
  set_cookie
    (res (snd (writeCartItems (seq 0 (length items))
                 (mkWorld (new_DataStore "") items
                          (new_Request None BUndefined BUndefined)
                          new_Response)))).

End Codec.

(** A store with one product, [p1], priced [10]. *)
Definition demo_store : DataStore :=
  snd (createProduct "p1"
         (ProductInput.mk "Organic Cotton T-Shirt" None
            "Soft and sustainable t-shirt." 10%float "USD" [] [] [] (Some ""))
         (new_DataStore "2024")).

(** The product object [demo_store] holds. *)
Definition demo_product : Product.t :=
  Product.mk "p1" (Some "Organic Cotton T-Shirt") (Some "organic-cotton-t-shirt")
    (Some "Soft and sustainable t-shirt.") (Some 10%float) (Some "USD")
    (Some []) (Some []) (Some []) (Some "").

(** A new request to [demo_store]. *)
Definition demo_world (raw : option string) (productId quantity : BodyValue)
  : World :=
  mkWorld demo_store [] (new_Request raw productId quantity) new_Response.

(** The raw input is absent or empty, is not JSON, or is JSON for something
    that is not an array. *)
Definition undecodable {host : Host} (raw : option string) : Prop :=
  raw = None \/ raw = Some "" \/
  exists text, raw = Some text /\
    ((exists e, JSON_parse text = JS.Throw e) \/
     (exists v, JSON_parse text = JS.Normal v /\ JS.isArray v = false)).

(** The value a JSON text written by [JSON.stringify] denotes: a number
    that is not finite is written [null], and [-0] is written [0]. *)
Fixpoint json_image (v : JS.Value) : JS.Value :=
  match v with
  | JS.JNum n =>
      if JS.isFinite n
      then (if PrimFloat.is_zero n then JS.JNum 0%float else JS.JNum n)
      else JS.JNull
  | JS.JArr items => JS.JArr (map json_image items)
  | JS.JObj fields =>
      JS.JObj (map (fun kv : string * JS.Value =>
                      let (k, x) := kv in (k, json_image x)) fields)
  | _ => v
  end.

(** [JSON.parse] reads back what [JSON.stringify] writes for [v]. *)
Definition json_round_trip {host : Host} (v : JS.Value) : Prop :=
  JSON_stringify v <> "" /\
  JSON_parse (JSON_stringify v) = JS.Normal (json_image v).

(** The items that survive [encode] then [decode]. *)
Definition survives (item : CartItem.t) : bool :=
  negb (String.eqb (CartItem.productId item) "")
  && JS.gt0 (CartItem.quantity item)
  && JS.isFinite (CartItem.quantity item).

(** An item as it is read back from the JSON text: a quantity that is not
    finite was written [null] and reads as zero. *)
Definition read_back (item : CartItem.t) : CartItem.t :=
  CartItem.mk (CartItem.productId item)
    (if JS.isFinite (CartItem.quantity item)
     then CartItem.quantity item else 0%float).

(** The property [key] of an element of the parsed array, [undefined] when
    the element is not an object or has no such property. *)
Definition field (item : JS.Value) (key : string) : option JS.Value :=
  match item with
  | JS.JObj fields => own_property key fields
  | _ => None
  end.

(** An element of the parsed array can be read: it is not [null] and the
    conversion of its quantity to a number does not throw. *)
Definition readable {host : Host} (item : JS.Value) : Prop :=
  item <> JS.JNull /\ exists n, ToNumber (field item "quantity") = JS.Normal n.

(** The coercion of an element: the [productId] if it is a string and the
    empty string otherwise, the quantity as a number if that is finite and
    zero otherwise. *)
Definition coerce {host : Host} (item : JS.Value) : CartItem.t :=
  CartItem.mk
    match field item "productId" with
    | Some (JS.JStr s) => s
    | _ => ""
    end
    match ToNumber (field item "quantity") with
    | JS.Normal n => if JS.isFinite n then n else 0%float
    | JS.Throw _ => 0%float
    end.

(** The rule of the specification for what [decode] keeps: the [productId]
    is not empty and the quantity is not [<= 0]. *)
Definition kept_by_decode (item : CartItem.t) : bool :=
  negb (String.eqb (CartItem.productId item) "")
  && negb (PrimFloat.leb (CartItem.quantity item) 0%float).


(** The sum of the line totals, from [0], left to right. *)
Definition sum_lineTotals (lines : list Line.t) : JS.number :=
  fold_left PrimFloat.add (map Line.lineTotal lines) 0%float.

(** The product an item refers to exists in the store. *)
Definition resolves (s : DataStore) (item : CartItem.t) : bool :=
  bool_decide (is_Some (getProduct_object (CartItem.productId item) s)).

(** A line prices an item: same quantity, the product the item refers to,
    and the product of price and quantity as line total. *)
Definition prices (s : DataStore) (item : CartItem.t) (line : Line.t) : Prop :=
  exists product,
    getProduct (CartItem.productId item) s = Some (Line.product line) /\
    objects s !! Line.product line = Some product /\
    Line.quantity line = CartItem.quantity item /\
    Line.lineTotal line =
      PrimFloat.mul (number_of (Product.price product)) (CartItem.quantity item).

(** A product refers to the category [c]. *)
Definition references (c : string) (p : Product.t) : Prop :=
  match Product.categoryIds p with
  | Some ids => c ∈ ids
  | None => False
  end.

(** No product of the store refers to [c]. *)
Definition unreferenced (c : string) (s : DataStore) : Prop :=
  forall k r p, (k, r) ∈ products s -> objects s !! r = Some p ->
    ~ references c p.

(** The operations of the store, and a run of them. *)
Inductive Op : Type :=
| OpCreateCategory (uuid name : string) (description parentId : option string)
| OpUpdateCategory (id : string) (update : CategoryUpdate.t)
| OpRemoveCategory (id : string)
| OpCreateProduct (uuid : string) (input : ProductInput.t)
| OpUpdateProduct (id : string) (update : ProductUpdate.t)
| OpRemoveProduct (id : string)
| OpCreatePage (uuid : string) (input : PageInput.t)
| OpUpdatePage (id : string) (update : PageUpdate.t)
| OpRemovePage (id : string)
| OpUpdateSettings (update : SettingsUpdate.t).

Definition exec (op : Op) (s : DataStore) : DataStore :=
  match op with
  | OpCreateCategory uuid name description parentId =>
      snd (createCategory uuid name description parentId s)
  | OpUpdateCategory id update => snd (updateCategory id update s)
  | OpRemoveCategory id => snd (removeCategory id s)
  | OpCreateProduct uuid input => snd (createProduct uuid input s)
  | OpUpdateProduct id update => snd (updateProduct id update s)
  | OpRemoveProduct id => removeProduct id s
  | OpCreatePage uuid input => snd (createPage uuid input s)
  | OpUpdatePage id update => snd (updatePage id update s)
  | OpRemovePage id => removePage id s
  | OpUpdateSettings update => snd (updateSettings update s)
  end.

Definition exec_all (ops : list Op) (s : DataStore) : DataStore :=
  fold_left (fun s op => exec op s) ops s.

(** The operation gives no product the category [c]. *)
Definition assigns (c : string) (op : Op) : Prop :=
  match op with
  | OpCreateProduct _ input => c ∈ ProductInput.categoryIds input
  | OpUpdateProduct _ update =>
      match ProductUpdate.categoryIds update with
      | Some (Some ids) => c ∈ ids
      | _ => False
      end
  | _ => False
  end.

(** How a field of the stored record relates to the partial, in the two
    cases of the claim: a key bound to [undefined] clears the field, and an
    absent key leaves the field as it was. *)
Definition patched {A : Type} (old : option A) (u : partial A) (new : option A)
  : Prop :=
  (u = Some None -> new = None) /\ (u = None -> new = old).

(** The store keeps its [products] map well formed: the keys are distinct
    and each is the [id] of its object. *)
Definition store_ok (s : DataStore) : Prop :=
  NoDup (map fst (products s)) /\ keys_are_ids s.

(** A store with a category [c1] and a child category [c2] of it. *)
Definition demo_categories : DataStore :=
  snd (createCategory "c2" "Shirts" None (Some "c1")
         (snd (createCategory "c1" "Apparel" (Some "Clothing") None
                 (new_DataStore "2024")))).

(** A store with one page. *)
Definition demo_pages : DataStore :=
  snd (createPage "g1" (PageInput.mk "About Us" None "<p>Hello</p>" "custom-page.njk")
         (new_DataStore "2024")).

(** [ids.filter((categoryId) => categoryId !== d)] *)
Definition without (d : string) (ids : list string) : list string :=
  List.filter (fun categoryId => negb (String.eqb categoryId d)) ids.

(** One step of the loop of [removeCategory], on an object that has its
    [categoryIds]. *)
Definition forEach_step (d : string) (r : ref) (product : Product.t)
    (ids : list string) (s : DataStore) : DataStore :=
  let product' := Product.set_categoryIds (Some (without d ids)) product in
  let s1 := set_objects (<[r := product']> (objects s)) s in
  set_products (Map_set (Product.id product') r (products s1)) s1.

(** A store with the two categories and a product in both. *)
Definition demo_catalog : DataStore :=
  snd (createProduct "p1"
         (ProductInput.mk "Organic Cotton T-Shirt" None
            "Soft and sustainable t-shirt." 10%float "USD" [] []
            ["c1"; "c2"] (Some ""))
         demo_categories).

(** ** Notions used in the further properties *)

(** A slug, read from [prev_alnum], which tells that the character before is
    a letter or a digit: lowercase letters, digits and hyphens, each hyphen
    between two letters or digits. *)
Fixpoint slug_from (prev_alnum : bool) (t : string) : bool :=
  match t with
  | EmptyString => prev_alnum
  | String c rest =>
      if is_slug_char c then slug_from true rest
      else Ascii.eqb c "-" && prev_alnum && slug_from false rest
  end.

(** The empty string, or lowercase letters and digits joined by single
    hyphens, with no hyphen at either end. *)
Definition is_slug (t : string) : bool :=
  String.eqb t "" || slug_from false t.

(** The run of letters and digits a text starts with, and the maximal runs
    of letters and digits after it. *)
Fixpoint split_words (t : string) : string * list string :=
  match t with
  | EmptyString => (EmptyString, [])
  | String c rest =>
      let (w, ws) := split_words rest in
      if is_slug_char c then (String c w, ws)
      else (EmptyString, if String.eqb w "" then ws else w :: ws)
  end.

(** The words of a text: its maximal runs of the characters [[a-z0-9]]. *)
Definition words (t : string) : list string :=
  let (w, ws) := split_words t in
  if String.eqb w "" then ws else w :: ws.

(** What the loop of [removeCategory] makes of a product that has its
    [categoryIds]: the same product without the category. *)
Definition strip_category (d : string) (p : Product.t) : Product.t :=
  match Product.categoryIds p with
  | Some ids => Product.set_categoryIds (Some (without d ids)) p
  | None => p
  end.

(** A map of entities is well formed: the keys are distinct and each is the
    [id] of its entity. *)
Definition entities_ok {V : Type} (id_of : V -> string) (m : list (string * V))
  : Prop :=
  NoDup (map fst m) /\ forall k v, (k, v) ∈ m -> id_of v = k.

(** The store keeps its three maps well formed. *)
Definition ids_ok (s : DataStore) : Prop :=
  store_ok s /\
  entities_ok Category.id (categories s) /\
  entities_ok CustomPage.id (pages s).

(** The product of [demo_catalog]. *)
Definition demo_catalog_product : Product.t :=
  Product.mk "p1" (Some "Organic Cotton T-Shirt") (Some "organic-cotton-t-shirt")
    (Some "Soft and sustainable t-shirt.") (Some 10%float) (Some "USD")
    (Some []) (Some []) (Some ["c1"; "c2"]) (Some "").

(** ** The pages of the shop, by slug ([src/server.ts]) *)

(** [store.listProducts().find((item) => item.slug === slug)] *)
Definition find_product_by_slug (slug : string) (s : DataStore) : option ref :=
  List.find (fun r => match objects s !! r with
                      | Some product =>
                          bool_decide (Product.slug product = Some slug)
                      | None => false
                      end)
            (listProducts s).

(** What a handler renders: the error page with status 404, or a template
    with the product or page it shows. *)
Inductive View : Type :=
| NotFound
| ProductView (template : string) (product : ref)
| PageView (template : string) (page : CustomPage.t).

(** [product.customTemplate ? `products/custom/${product.customTemplate}`
    : 'products/detail.njk'] *)
Definition product_template (product : Product.t) : string :=
  if JS.truthy_opt_string (Product.customTemplate product)
  then "products/custom/" +:+ default "" (Product.customTemplate product)
  else "products/detail.njk".

(** [app.get('/products/:slug', ...)] *)
Definition get_product_page (slug : string) (s : DataStore) : View :=
  match find_product_by_slug slug s with
  | Some r =>
      match objects s !! r with
      | Some product => ProductView (product_template product) r
      | None => NotFound
      end
  | None => NotFound
  end.


(** ** Reading a cookie ([getCookieValue], [src/server.ts]) *)

(** [text.split(sep)] for a separator of one character. *)
Fixpoint split_on (sep : ascii) (text : string) : list string :=
  match text with
  | EmptyString => [EmptyString]
  | String c rest =>
      if Ascii.eqb c sep then EmptyString :: split_on sep rest
      else match split_on sep rest with
           | piece :: pieces => String c piece :: pieces
           | [] => [String c EmptyString]
           end
  end.

(** [text.trim()] *)
Definition trim (text : string) : string :=
  Ecma.skip_end Ecma.is_space (Ecma.skip Ecma.is_space text).

(** [text.slice(n)] *)
Fixpoint slice (n : nat) (text : string) : string :=
  match n, text with
  | S n', String _ rest => slice n' rest
  | _, _ => text
  end.

Section Cookie.

(** [decodeURIComponent], which throws on a malformed escape sequence. *)
Variable decodeURIComponent : string -> JS.Completion string.

(** [getCookieValue(req, name)], from [req.headers.cookie]. *)
Definition getCookieValue (cookieHeader : option string) (name : string)
  : option string :=
  if negb (JS.truthy_opt_string cookieHeader) then None
  else
    let cookies := map trim (split_on ";" (default "" cookieHeader)) in
    match List.find (fun cookie => String.prefix (name +:+ "=") cookie) cookies with
    | None => None
    | Some matched =>
        match decodeURIComponent (slice (String.length name + 1) matched) with
        | JS.Normal value => Some value
        | JS.Throw _ => None
        end
    end.

End Cookie.

(** The text of one cookie in the header. *)
Definition cookie_text (pair : string * string) : string :=
  fst pair +:+ "=" +:+ snd pair.

(** The header a client sends for its cookies: [n1=v1; n2=v2; ...]. *)
Definition cookie_header (pairs : list (string * string)) : string :=
  String.concat "; " (map cookie_text pairs).

(** The character occurs in the text. *)
Fixpoint has_char (c : ascii) (text : string) : bool :=
  match text with
  | EmptyString => false
  | String c' rest => Ascii.eqb c' c || has_char c rest
  end.

(** A cookie as a client writes it: no [;] in the name or the value, no [=]
    in the name, and no white space around the pair. *)
Definition cookie_ok (pair : string * string) : bool :=
  negb (has_char ";" (fst pair)) && negb (has_char "=" (fst pair))
  && negb (has_char ";" (snd pair))
  && String.eqb (trim (cookie_text pair)) (cookie_text pair).

(** ** The fields of a product form ([ensureArray], [parseAdditionalInfo],
    [src/server.ts]) *)

(** [ensureArray(value)] *)
Definition ensureArray (value : BodyValue) : list BodyValue :=
  match value with
  | BArray items => items
  | BUndefined => []
  | _ => [value]
  end.

(** [valueList[index] ?? ''] *)
Definition value_at (valueList : list BodyValue) (index : nat) : BodyValue :=
  match valueList !! index with
  | Some BUndefined | None => BString ""
  | Some value => value
  end.

(** The callback of [keyList.forEach] in [parseAdditionalInfo], on the own
    properties of [info].  A key that is not a string has no method [trim]
    and the call throws a [TypeError].  The key [__proto__] reaches the
    setter of [Object.prototype] and gives [info] no own property. *)
Definition parseAdditionalInfo_callback (valueList : list BodyValue)
    (info : gmap string BodyValue) (key : BodyValue) (index : nat)
  : JS.Completion (gmap string BodyValue) :=
  match key with
  | BString key =>
      let trimmedKey := trim key in
      if negb (JS.truthy_string trimmedKey) then JS.Normal info
      else if String.eqb trimmedKey "__proto__" then JS.Normal info
      else JS.Normal (<[trimmedKey := value_at valueList index]> info)
  | _ => JS.Throw JS.TypeError
  end.

(** [keyList.forEach((key, index) => ...)], from [index] on. *)
Fixpoint parseAdditionalInfo_forEach (valueList : list BodyValue)
    (index : nat) (keyList : list BodyValue) (info : gmap string BodyValue)
  : JS.Completion (gmap string BodyValue) :=
  match keyList with
  | [] => JS.Normal info
  | key :: rest =>
      match parseAdditionalInfo_callback valueList info key index with
      | JS.Normal info' =>
          parseAdditionalInfo_forEach valueList (S index) rest info'
      | JS.Throw e => JS.Throw e
      end
  end.

(** [parseAdditionalInfo(keys, values)]: the own properties of the object
    it returns. *)
Definition parseAdditionalInfo (keys values : BodyValue)
  : JS.Completion (gmap string BodyValue) :=
  parseAdditionalInfo_forEach (ensureArray values) 0 (ensureArray keys) ∅.

(** The value is a string. *)
Definition is_string (value : BodyValue) : bool :=
  match value with
  | BString _ => true
  | _ => false
  end.

(** * Properties *)

(** ** Numbers *)

Lemma SFcompare_antisym (a b : spec_float) :
  SFcompare b a = CompOpp <$> SFcompare a b.
Proof.
  destruct a as [sa | sa | | sa ma ea], b as [sb | sb | | sb mb eb];
    try (destruct sa); try (destruct sb); simpl; try reflexivity.
  - rewrite (Z.compare_antisym eb ea).
    destruct (eb ?= ea)%Z eqn:E; simpl; try reflexivity.
    rewrite CompOpp_involutive. f_equal.
    apply (Pos.compare_cont_antisym mb ma Eq).
  - rewrite (Z.compare_antisym eb ea).
    destruct (eb ?= ea)%Z eqn:E; simpl; try reflexivity.
    f_equal. symmetry. apply (Pos.compare_cont_antisym ma mb Eq).
Qed.



Lemma is_nan_spec (x : float) :
  PrimFloat.is_nan x = true <-> Prim2SF x = S754_nan.
Proof.
  unfold PrimFloat.is_nan. rewrite FloatAxioms.eqb_spec. unfold SFeqb.
  destruct (Prim2SF x) as [s | s | | s m e]; simpl.
  - split; discriminate.
  - destruct s; split; discriminate.
  - split; reflexivity.
  - destruct s; rewrite Z.compare_refl, Pos.compare_cont_refl;
      split; discriminate.
Qed.


Lemma isFinite_not_nan (x : float) :
  JS.isFinite x = true -> PrimFloat.is_nan x = false.
Proof.
  unfold JS.isFinite, PrimFloat.is_finite.
  destruct (PrimFloat.is_nan x); [discriminate | reflexivity].
Qed.

(** For a number that is not [NaN], [x > 0] fails exactly when [x <= 0]. *)
Lemma gt0_negb_le0 (x : float) :
  PrimFloat.is_nan x = false -> JS.gt0 x = negb (PrimFloat.leb x 0%float).
Proof.
  intros Hn. unfold JS.gt0. rewrite ltb_spec, leb_spec. unfold SFltb, SFleb.
  rewrite (SFcompare_antisym (Prim2SF 0%float) (Prim2SF x)).
  destruct (SFcompare (Prim2SF 0%float) (Prim2SF x)) as [[]|] eqn:E;
    try reflexivity.
  exfalso. assert (Prim2SF x <> S754_nan) as Hx.
  { intros Hx. apply is_nan_spec in Hx. congruence. }
  change (Prim2SF 0%float) with (S754_zero false) in E.
  destruct (Prim2SF x); simpl in E; congruence.
Qed.



(** ** Heaps of objects *)

Lemma deref_all_cons {A : Type} (h : list A) (r : ref) (refs : list ref) :
  deref_all h (r :: refs) =
    match h !! r with
    | Some x => x :: deref_all h refs
    | None => deref_all h refs
    end.
Proof. reflexivity. Qed.

Lemma deref_all_app {A : Type} (h : list A) (r1 r2 : list ref) :
  deref_all h (r1 ++ r2) = deref_all h r1 ++ deref_all h r2.
Proof. unfold deref_all. apply omap_app. Qed.

(** References below the end of the heap see no allocation. *)
Lemma deref_all_alloc {A : Type} (h extra : list A) (refs : list ref) :
  (forall r, r ∈ refs -> r < length h) ->
  deref_all (h ++ extra) refs = deref_all h refs.
Proof.
  induction refs as [|r refs IH]; intros Hr; [reflexivity|].
  rewrite !deref_all_cons, lookup_app_l by (apply Hr; left).
  rewrite IH; [reflexivity|]. intros r' Hr'. apply Hr. now right.
Qed.

(** The new references show the new objects. *)
Lemma deref_all_fresh {A : Type} (h extra : list A) :
  deref_all (h ++ extra) (seq (length h) (length extra)) = extra.
Proof.
  revert h. induction extra as [|x extra IH]; intros h; [reflexivity|].
  simpl seq. rewrite deref_all_cons, lookup_app_r by lia.
  rewrite Nat.sub_diag. simpl. f_equal. specialize (IH (h ++ [x])).
  rewrite <- app_assoc, length_app in IH. simpl in IH.
  now rewrite Nat.add_1_r in IH.
Qed.

Lemma filter_items_cons (p : CartItem.t -> bool) (h : list CartItem.t)
    (r : ref) (refs : list ref) :
  filter_items p h (r :: refs) =
    if match h !! r with
       | Some item => p item
       | None => false
       end
    then r :: filter_items p h refs
    else filter_items p h refs.
Proof. reflexivity. Qed.

(** Filtering the new references filters the new objects. *)
Lemma deref_filter_fresh (p : CartItem.t -> bool) (h extra : list CartItem.t) :
  deref_all (h ++ extra)
    (filter_items p (h ++ extra) (seq (length h) (length extra)))
  = List.filter p extra.
Proof.
  revert h. induction extra as [|x extra IH]; intros h; [reflexivity|].
  simpl seq. rewrite filter_items_cons, lookup_app_r by lia.
  rewrite Nat.sub_diag. simpl.
  specialize (IH (h ++ [x])).
  rewrite <- app_assoc, length_app in IH. simpl in IH.
  rewrite Nat.add_1_r in IH.
  destruct (p x).
  - rewrite deref_all_cons, lookup_app_r by lia.
    rewrite Nat.sub_diag. simpl. now f_equal.
  - exact IH.
Qed.

Lemma filter_items_sub (p : CartItem.t -> bool) (h : list CartItem.t)
    (refs : list ref) (r : ref) :
  r ∈ filter_items p h refs -> r ∈ refs.
Proof.
  unfold filter_items. rewrite !list_elem_of_In, filter_In. tauto.
Qed.

Lemma filter_items_NoDup (p : CartItem.t -> bool) (h : list CartItem.t)
    (refs : list ref) :
  NoDup refs -> NoDup (filter_items p h refs).
Proof.
  unfold filter_items. rewrite !NoDup_ListNoDup. apply List.NoDup_filter.
Qed.

(** ** [parseCartItems] case by case *)

Section Decode.
Context {host : Host}.

Lemma parseCartItems_cached (w : World) (items : list ref) :
  __cartItems (req w) = Some items ->
  parseCartItems w = (JS.Normal items, w).
Proof.
  intros H. unfold parseCartItems, bindM, get_world. now rewrite H.
Qed.

Lemma parseCartItems_empty (w : World) :
  __cartItems (req w) = None ->
  JS.truthy_opt_string (cart_cookie (req w)) = false ->
  parseCartItems w = (JS.Normal [], with_cache [] w).
Proof.
  intros Hc Hraw. unfold parseCartItems, bindM, get_world.
  now rewrite Hc, Hraw.
Qed.

Lemma parseCartItems_throw (w : World) (text : string) (e : JS.Error) :
  __cartItems (req w) = None ->
  cart_cookie (req w) = Some text -> text <> "" ->
  JSON_parse text = JS.Throw e ->
  parseCartItems w = (JS.Normal [], with_cache [] w).
Proof.
  intros Hc Hraw Hne Hp. unfold parseCartItems, bindM, get_world.
  rewrite Hc, Hraw. simpl. unfold JS.truthy_string.
  destruct (String.eqb_spec text "") as [->|_]; [congruence|]. simpl.
  unfold try_catch, lift. now rewrite Hp.
Qed.

Lemma parseCartItems_not_array (w : World) (text : string) (v : JS.Value) :
  __cartItems (req w) = None ->
  cart_cookie (req w) = Some text -> text <> "" ->
  JSON_parse text = JS.Normal v -> JS.isArray v = false ->
  parseCartItems w = (JS.Normal [], with_cache [] w).
Proof.
  intros Hc Hraw Hne Hp Hv. unfold parseCartItems, bindM, get_world.
  rewrite Hc, Hraw. simpl. unfold JS.truthy_string.
  destruct (String.eqb_spec text "") as [->|_]; [congruence|]. simpl.
  unfold try_catch, lift. rewrite Hp. now destruct v.
Qed.

Lemma parseCartItems_unreadable (w : World) (text : string)
    (elements : list JS.Value) (e : JS.Error) :
  __cartItems (req w) = None ->
  cart_cookie (req w) = Some text -> text <> "" ->
  JSON_parse text = JS.Normal (JS.JArr elements) ->
  mapC sanitize elements = JS.Throw e ->
  parseCartItems w = (JS.Normal [], with_cache [] w).
Proof.
  intros Hc Hraw Hne Hp Hm. unfold parseCartItems, bindM, get_world.
  rewrite Hc, Hraw. simpl. unfold JS.truthy_string.
  destruct (String.eqb_spec text "") as [->|_]; [congruence|]. simpl.
  unfold try_catch, lift. rewrite Hp. unfold bindM. now rewrite Hm.
Qed.

Lemma parseCartItems_array (w : World) (text : string)
    (elements : list JS.Value) (mapped : list CartItem.t) :
  __cartItems (req w) = None ->
  cart_cookie (req w) = Some text -> text <> "" ->
  JSON_parse text = JS.Normal (JS.JArr elements) ->
  mapC sanitize elements = JS.Normal mapped ->
  let h := cart_objects w ++ mapped in
  let kept :=
    filter_items valid_item h (seq (length (cart_objects w)) (length mapped)) in
  parseCartItems w = (JS.Normal kept, with_cache kept (set_cart_objects h w)).
Proof.
  intros Hc Hraw Hne Hp Hm. unfold parseCartItems, bindM, get_world.
  rewrite Hc, Hraw. simpl. unfold JS.truthy_string.
  destruct (String.eqb_spec text "") as [->|_]; [congruence|]. simpl.
  unfold try_catch, lift. rewrite Hp. unfold bindM. now rewrite Hm.
Qed.

(** [parseCartItems] returns: the catch-all handler leaves no error to the
    caller.  It keeps the store and the response, caches what it returns,
    and only adds objects to the heap. *)
Lemma parseCartItems_returns (w : World) :
  exists refs extra,
    parseCartItems w =
      (JS.Normal refs,
       with_cache refs (set_cart_objects (cart_objects w ++ extra) w))
    \/ (parseCartItems w = (JS.Normal refs, w)
        /\ __cartItems (req w) = Some refs /\ extra = []).
Proof.
  destruct (__cartItems (req w)) as [items|] eqn:Hc.
  { exists items, []. right. now rewrite (parseCartItems_cached w items Hc). }
  assert (set_cart_objects (cart_objects w ++ []) w = w) as Hid.
  { rewrite app_nil_r. now destruct w. }
  destruct (JS.truthy_opt_string (cart_cookie (req w))) eqn:Ht.
  2:{ exists [], []. left. rewrite Hid. now apply parseCartItems_empty. }
  destruct (cart_cookie (req w)) as [text|] eqn:Hraw; [|discriminate].
  assert (text <> "") as Hne.
  { intros ->. discriminate. }
  destruct (JSON_parse text) as [v|e] eqn:Hp.
  2:{ exists [], []. left. rewrite Hid. eapply parseCartItems_throw; eauto. }
  destruct (JS.isArray v) eqn:Hv.
  2:{ exists [], []. left. rewrite Hid. eapply parseCartItems_not_array; eauto. }
  destruct v as [| | | |elements|]; try discriminate.
  destruct (mapC sanitize elements) as [mapped|e] eqn:Hm.
  - eexists _, mapped. left. eapply parseCartItems_array; eauto.
  - exists [], []. left. rewrite Hid. eapply parseCartItems_unreadable; eauto.
Qed.

End Decode.

(** ** The cart codec *)

(** C4.  Decoding is fail-soft.  [parseCartItems] always returns and never
    throws, whatever the request holds.  On a request with nothing cached it
    returns the empty cart when the raw input is absent or empty, when
    [JSON.parse] throws on it, and when the parsed value is not an array.
    With the reference host, [decode] of the empty string, of [undefined],
    of [not json] and of [[1,2,3]] are all the empty cart. *)
Theorem decode_fail_soft :
  forall (host : Host) (w : World),
    (exists refs w', parseCartItems w = (JS.Normal refs, w')) /\
    (__cartItems (req w) = None -> undecodable (cart_cookie (req w)) ->
     parseCartItems w = (JS.Normal [], with_cache [] w) /\
     decoded w = JS.Normal []) /\
    decode (host := Ecma.host) (Some "") = JS.Normal [] /\
    decode (host := Ecma.host) None = JS.Normal [] /\
    decode (host := Ecma.host) (Some "not json") = JS.Normal [] /\
    decode (host := Ecma.host) (Some "[1,2,3]") = JS.Normal [].
Proof.
  intros host w. split; [|split].
  - destruct (parseCartItems_returns w) as (refs & extra & [H | [H _]]);
      rewrite H; eauto.
  - intros Hc Hu.
    assert (parseCartItems w = (JS.Normal [], with_cache [] w)) as H.
    { destruct Hu as [Hu | [Hu | (text & Hu & Hp)]].
      - apply parseCartItems_empty; [exact Hc | now rewrite Hu].
      - apply parseCartItems_empty; [exact Hc | now rewrite Hu].
      - destruct (String.eqb_spec text "") as [->|Hne].
        { apply parseCartItems_empty; [exact Hc | now rewrite Hu]. }
        destruct Hp as [[e Hp] | (v & Hp & Hv)].
        + eapply parseCartItems_throw; eauto.
        + eapply parseCartItems_not_array; eauto. }
    split; [exact H|]. unfold decoded. now rewrite H.
  - repeat split; vm_compute; reflexivity.
Qed.

Lemma decode_fail_soft_witness :
  let w := mkWorld (new_DataStore "2024") []
             (new_Request (Some "not json") BUndefined BUndefined)
             new_Response in
  parseCartItems (host := Ecma.host) w = (JS.Normal [], with_cache [] w) /\
  decoded (host := Ecma.host) w = JS.Normal [].
Proof.
  intros w. apply (decode_fail_soft Ecma.host w).
  - reflexivity.
  - right. right. exists "not json". split; [reflexivity|].
    left. exists JS.SyntaxError. vm_compute. reflexivity.
Defined.

Section DecodeElements.
Context {host : Host}.

Lemma sanitize_spec (item : JS.Value) :
  match sanitize item with
  | JS.Normal x => readable item /\ x = coerce item
  | JS.Throw _ => ~ readable item
  end.
Proof.
  unfold sanitize, readable, coerce.
  destruct item as [| b | n | s | items | fields]; simpl;
    try (intros [H _]; congruence);
    try (split; [split; [discriminate | eauto] | reflexivity]).
  - destruct (ToNumber (own_property "quantity" fields)) as [n|e] eqn:E; simpl.
    + split; [split; [discriminate | eauto] | reflexivity].
    + intros [_ [n Hn]]. discriminate.
Qed.

Lemma mapC_sanitize_spec (elements : list JS.Value) :
  match mapC sanitize elements with
  | JS.Normal xs => Forall readable elements /\ xs = map coerce elements
  | JS.Throw _ => ~ Forall readable elements
  end.
Proof.
  induction elements as [|item rest IH]; simpl; [now split|].
  pose proof (sanitize_spec item) as Hi.
  destruct (sanitize item) as [x|e]; simpl.
  - destruct (mapC sanitize rest) as [xs|e]; simpl.
    + destruct Hi as [Hr ->], IH as [Hrs ->]. now split; [constructor|].
    + intros H. apply IH. now inversion H.
  - intros H. apply Hi. now inversion H.
Qed.

(** A coerced quantity is a finite number. *)
Lemma coerce_finite (item : JS.Value) :
  JS.isFinite (CartItem.quantity (coerce item)) = true.
Proof.
  unfold coerce. simpl.
  destruct (ToNumber (field item "quantity")) as [n|e]; [|reflexivity].
  destruct (JS.isFinite n) eqn:E; [exact E | reflexivity].
Qed.

(** On finite quantities the filter of [parseCartItems] is the rule of the
    specification. *)
Lemma valid_item_kept (item : CartItem.t) :
  JS.isFinite (CartItem.quantity item) = true ->
  valid_item item = kept_by_decode item.
Proof.
  intros Hf. unfold valid_item, kept_by_decode, JS.truthy_string.
  now rewrite (gt0_negb_le0 _ (isFinite_not_nan _ Hf)).
Qed.

Lemma decoded_array (w : World) (text : string) (elements : list JS.Value)
    (mapped : list CartItem.t) :
  __cartItems (req w) = None ->
  cart_cookie (req w) = Some text -> text <> "" ->
  JSON_parse text = JS.Normal (JS.JArr elements) ->
  mapC sanitize elements = JS.Normal mapped ->
  decoded w = JS.Normal (List.filter valid_item mapped).
Proof.
  intros Hc Hraw Hne Hp Hm. unfold decoded.
  rewrite (parseCartItems_array w text elements mapped Hc Hraw Hne Hp Hm).
  simpl. unfold cart_view. now rewrite deref_filter_fresh.
Qed.

Lemma decoded_unreadable (w : World) (text : string) (elements : list JS.Value)
    (e : JS.Error) :
  __cartItems (req w) = None ->
  cart_cookie (req w) = Some text -> text <> "" ->
  JSON_parse text = JS.Normal (JS.JArr elements) ->
  mapC sanitize elements = JS.Throw e ->
  decoded w = JS.Normal [].
Proof.
  intros Hc Hraw Hne Hp Hm. unfold decoded.
  now rewrite (parseCartItems_unreadable w text elements e Hc Hraw Hne Hp Hm).
Qed.

End DecodeElements.

(** C5, as the code has it.  When the raw input parses to an array and every
    element can be read, [decode] coerces each element (the [productId] to
    the string it is, or to the empty string; the quantity to the number it
    converts to if that is finite, or to zero, without rounding it to an
    integer) and drops exactly the coerced elements whose [productId] is
    empty or whose quantity is [<= 0].  When an element cannot be read
    ([null], or a quantity whose conversion throws) the whole cart is
    empty.  Every decoded item has a non-empty [productId] and a finite
    quantity greater than zero. *)
Theorem decode_sanitizes_elements :
  forall (host : Host) (w : World) (text : string) (elements : list JS.Value),
    __cartItems (req w) = None ->
    cart_cookie (req w) = Some text -> text <> "" ->
    JSON_parse text = JS.Normal (JS.JArr elements) ->
    (Forall readable elements ->
     decoded w = JS.Normal (List.filter kept_by_decode (map coerce elements))) /\
    (~ Forall readable elements -> decoded w = JS.Normal []) /\
    (forall items, decoded w = JS.Normal items ->
       forall item, item ∈ items ->
         CartItem.productId item <> "" /\
         JS.isFinite (CartItem.quantity item) = true /\
         JS.gt0 (CartItem.quantity item) = true).
Proof.
  intros host w text elements Hc Hraw Hne Hp.
  pose proof (mapC_sanitize_spec elements) as Hm.
  destruct (mapC sanitize elements) as [mapped|e] eqn:E.
  - destruct Hm as [Hr ->].
    rewrite (decoded_array w text elements _ Hc Hraw Hne Hp E).
    assert (List.filter valid_item (map coerce elements)
            = List.filter kept_by_decode (map coerce elements)) as Hf.
    { apply List.filter_ext_in. intros item Hin.
      apply in_map_iff in Hin as (x & <- & _).
      apply valid_item_kept, coerce_finite. }
    split; [intros _; now rewrite Hf|]. split; [tauto|].
    intros items [= <-] item Hin.
    apply list_elem_of_In, filter_In in Hin as [Hin Hv].
    apply in_map_iff in Hin as (x & <- & _).
    unfold valid_item, JS.truthy_string in Hv.
    apply andb_true_iff in Hv as [Hpid Hq].
    split; [|split; [apply coerce_finite | exact Hq]].
    intros Heq. rewrite Heq in Hpid. discriminate.
  - rewrite (decoded_unreadable w text elements e Hc Hraw Hne Hp E).
    split; [tauto|]. split; [reflexivity|].
    intros items [= <-] item Hin. now apply elem_of_nil in Hin.
Qed.

Lemma decode_sanitizes_elements_witness :
  let world text :=
    mkWorld (new_DataStore "2024") []
            (new_Request (Some (Ecma.js text)) BUndefined BUndefined)
            new_Response in
  let w1 :=
    world "[{'productId':'a','quantity':'3'},{'productId':7,'quantity':2},{'productId':'b','quantity':-1},{'productId':'c'}]" in
  let w2 := world "[{'productId':'a','quantity':1},null]" in
  decoded (host := Ecma.host) w1 = JS.Normal [CartItem.mk "a" 3%float] /\
  decoded (host := Ecma.host) w2 = JS.Normal [] /\
  ("a" <> "" /\ JS.isFinite 3%float = true /\ JS.gt0 3%float = true).
Proof.
  intros world w1 w2. split; [|split].
  - refine (proj1 (decode_sanitizes_elements Ecma.host w1 _
                     [JS.JObj [("productId", JS.JStr "a"); ("quantity", JS.JStr "3")];
                      JS.JObj [("productId", JS.JNum 7%float); ("quantity", JS.JNum 2%float)];
                      JS.JObj [("productId", JS.JStr "b"); ("quantity", JS.JNum (-1)%float)];
                      JS.JObj [("productId", JS.JStr "c")]]
                     _ _ _ _) _).
    + reflexivity.
    + reflexivity.
    + vm_compute. discriminate.
    + vm_compute. reflexivity.
    + repeat constructor; try discriminate; eexists; vm_compute; reflexivity.
  - refine (proj1 (proj2 (decode_sanitizes_elements Ecma.host w2 _
                     [JS.JObj [("productId", JS.JStr "a"); ("quantity", JS.JNum 1%float)];
                      JS.JNull]
                     _ _ _ _)) _).
    + reflexivity.
    + reflexivity.
    + vm_compute. discriminate.
    + vm_compute. reflexivity.
    + intros H. apply Forall_cons in H as [_ H].
      apply Forall_cons in H as [[Hn _] _]. now apply Hn.
  - refine (proj2 (proj2 (decode_sanitizes_elements Ecma.host w1 _
                     [JS.JObj [("productId", JS.JStr "a"); ("quantity", JS.JStr "3")];
                      JS.JObj [("productId", JS.JNum 7%float); ("quantity", JS.JNum 2%float)];
                      JS.JObj [("productId", JS.JStr "b"); ("quantity", JS.JNum (-1)%float)];
                      JS.JObj [("productId", JS.JStr "c")]]
                     _ _ _ _))
                  [CartItem.mk "a" 3%float] _ (CartItem.mk "a" 3%float) _).
    + reflexivity.
    + reflexivity.
    + vm_compute. discriminate.
    + vm_compute. reflexivity.
    + vm_compute. reflexivity.
    + left.
Defined.

(** C5 as stated fails: a quantity of [0.5] is kept, although it is neither
    an integer nor at least [1]; and one [null] element empties the cart,
    dropping an element whose [productId] is not empty and whose quantity
    is [1]. *)
Lemma decode_sanitizes_elements_counterexample :
  decode (host := Ecma.host)
    (Some (Ecma.js "[{'productId':'a','quantity':0.5}]"))
  = JS.Normal [CartItem.mk "a" 0.5%float] /\
  JS.isInteger 0.5%float = false /\
  PrimFloat.leb 1%float 0.5%float = false /\
  decode (host := Ecma.host)
    (Some (Ecma.js "[{'productId':'a','quantity':1},null]"))
  = JS.Normal [].
Proof. repeat split; vm_compute; reflexivity. Qed.

Lemma gt0_not_zero (x : float) :
  JS.gt0 x = true -> PrimFloat.is_zero x = false.
Proof.
  unfold JS.gt0, PrimFloat.is_zero. change PrimFloat.zero with 0%float.
  rewrite ltb_spec, FloatAxioms.eqb_spec. unfold SFltb, SFeqb.
  rewrite (SFcompare_antisym (Prim2SF 0%float) (Prim2SF x)).
  now destruct (SFcompare (Prim2SF 0%float) (Prim2SF x)) as [[]|].
Qed.

Section RoundTrip.
Context {host : Host}.

Lemma encode_eq (items : list CartItem.t) :
  encode items =
    Some (JSON_stringify
            (cart_value
               (List.filter (fun item => JS.gt0 (CartItem.quantity item)) items))).
Proof.
  unfold encode, writeCartItems, bindM, get_world, modify. simpl.
  do 3 f_equal.
  exact (deref_filter_fresh (fun item => JS.gt0 (CartItem.quantity item)) [] items).
Qed.

Lemma sanitize_written (kept : list CartItem.t) :
  Forall (fun item => JS.gt0 (CartItem.quantity item) = true) kept ->
  forall elements, json_image (cart_value kept) = JS.JArr elements ->
  mapC sanitize elements = JS.Normal (map read_back kept).
Proof.
  intros Hk elements [= <-].
  induction Hk as [|item kept Hq _ IH]; [reflexivity|].
  simpl. rewrite IH. unfold sanitize, read_back. simpl.
  destruct (JS.isFinite (CartItem.quantity item)) eqn:Hf; simpl.
  - rewrite (gt0_not_zero _ Hq). simpl. now rewrite Hf.
  - reflexivity.
Qed.

Lemma filter_read_back (items : list CartItem.t) :
  List.filter valid_item
    (map read_back
       (List.filter (fun item => JS.gt0 (CartItem.quantity item)) items))
  = List.filter survives items.
Proof.
  induction items as [|item items IH]; [reflexivity|].
  simpl. unfold survives at 1.
  destruct (JS.gt0 (CartItem.quantity item)) eqn:Hq; simpl.
  - unfold valid_item at 1, read_back at 1, JS.truthy_string. simpl.
    destruct (JS.isFinite (CartItem.quantity item)) eqn:Hf; simpl.
    + rewrite Hq, andb_true_r.
      destruct (negb (CartItem.productId item =? "")%string); simpl.
      * rewrite IH. f_equal. unfold read_back. rewrite Hf. now destruct item.
      * exact IH.
    + change (JS.gt0 0%float) with false. rewrite !andb_false_r. exact IH.
  - rewrite andb_false_r. exact IH.
Qed.

End RoundTrip.

(** C1, as the code has it.  Whenever the host's [JSON.parse] reads back
    what its [JSON.stringify] writes for the encoded cart, as ECMAScript
    requires, [decode(encode(items))] is the list of the items with a
    non-empty [productId] and a finite quantity greater than zero, each
    unchanged and in the order of the input: exactly the items with an empty
    [productId], a quantity that is not greater than zero, or an infinite
    quantity are dropped. *)
Theorem decode_encode_round_trip :
  forall (host : Host) (items : list CartItem.t),
    json_round_trip
      (cart_value
         (List.filter (fun item => JS.gt0 (CartItem.quantity item)) items)) ->
    decode (encode items) = JS.Normal (List.filter survives items) /\
    (forall item,
       item ∈ List.filter survives items <->
       item ∈ items /\ CartItem.productId item <> "" /\
       JS.gt0 (CartItem.quantity item) = true /\
       JS.isFinite (CartItem.quantity item) = true).
Proof.
  intros host items [Hne Hrt]. split.
  - rewrite encode_eq. unfold decode.
    set (kept := List.filter _ items) in *.
    assert (Forall (fun item => JS.gt0 (CartItem.quantity item) = true) kept) as Hk.
    { apply List.Forall_forall. intros item Hin.
      now apply filter_In in Hin as [_ Hq]. }
    rewrite (decoded_array _ (JSON_stringify (cart_value kept))
               (map json_image
                    (map (fun item =>
                            JS.JObj [("productId", JS.JStr (CartItem.productId item));
                                     ("quantity", JS.JNum (CartItem.quantity item))])
                         kept))
               (map read_back kept));
      try reflexivity; try assumption.
    + subst kept. now rewrite filter_read_back.
    + now apply sanitize_written.
  - intros item. rewrite !list_elem_of_In, filter_In. unfold survives.
    rewrite !andb_true_iff, negb_true_iff.
    destruct (String.eqb_spec (CartItem.productId item) ""); intuition congruence.
Qed.

Lemma decode_encode_round_trip_witness :
  decode (host := Ecma.host)
    (encode (host := Ecma.host)
       [CartItem.mk "p1" 2%float; CartItem.mk "p2" 0%float;
        CartItem.mk "p3" (-1)%float; CartItem.mk "p4" 0.5%float;
        CartItem.mk "p5" PrimFloat.nan])
  = JS.Normal [CartItem.mk "p1" 2%float; CartItem.mk "p4" 0.5%float].
Proof.
  refine (proj1 (decode_encode_round_trip Ecma.host _ _)).
  split; vm_compute; [discriminate | reflexivity].
Defined.

(** C1 as stated fails: an item with an empty [productId] and quantity [1],
    and an item with an infinite quantity, have a quantity greater than
    zero and are dropped by [decode(encode(items))]. *)
Lemma decode_encode_round_trip_counterexample :
  JS.gt0 1%float = true /\
  decode (host := Ecma.host) (encode (host := Ecma.host) [CartItem.mk "" 1%float])
  = JS.Normal [] /\
  JS.gt0 PrimFloat.infinity = true /\
  decode (host := Ecma.host)
    (encode (host := Ecma.host) [CartItem.mk "p1" PrimFloat.infinity])
  = JS.Normal [].
Proof. repeat split; vm_compute; reflexivity. Qed.

(** ** The cart handlers *)


Section Handlers.
Context {host : Host}.

(** What a handler gets from [parseCartItems]: the array is cached, its
    references are distinct and allocated, the objects the heap had are
    unchanged, and nothing else of the world moves. *)
Lemma parseCartItems_ok (w : World) :
  cache_ok w ->
  exists refs extra,
    let w1 := with_cache refs (set_cart_objects (cart_objects w ++ extra) w) in
    parseCartItems w = (JS.Normal refs, w1) /\
    NoDup refs /\
    (forall r, r ∈ refs -> r < length (cart_objects w1)).
Proof.
  intros Hok. unfold cache_ok in Hok.
  destruct (__cartItems (req w)) as [items|] eqn:Hc.
  { exists items, []. simpl. rewrite app_nil_r.
    rewrite (parseCartItems_cached w items Hc).
    destruct Hok as [Hnd Hal]. split; [|now split].
    f_equal. unfold with_cache, set_req, set_cart_objects, set___cartItems.
    simpl. destruct w as [st h rq rs]. simpl in *. f_equal.
    destruct rq. simpl in *. now subst. }
  assert (forall w0 : World, set_cart_objects (cart_objects w0 ++ []) w0 = w0)
    as Hid.
  { intros w0. rewrite app_nil_r. now destruct w0. }
  assert (forall n : nat, NoDup (@nil ref) /\ forall r : ref, r ∈ @nil ref -> r < n)
    as Hnil.
  { intros n. split; [constructor | intros r Hr; now apply elem_of_nil in Hr]. }
  destruct (JS.truthy_opt_string (cart_cookie (req w))) eqn:Ht.
  2:{ exists [], []. simpl. rewrite Hid.
      split; [now apply parseCartItems_empty | apply Hnil]. }
  destruct (cart_cookie (req w)) as [text|] eqn:Hraw; [|discriminate].
  assert (text <> "") as Hne by (intros ->; discriminate).
  destruct (JSON_parse text) as [v|e] eqn:Hp.
  2:{ exists [], []. simpl. rewrite Hid.
      split; [eapply parseCartItems_throw; eauto | apply Hnil]. }
  destruct (JS.isArray v) eqn:Hv.
  2:{ exists [], []. simpl. rewrite Hid.
      split; [eapply parseCartItems_not_array; eauto | apply Hnil]. }
  destruct v as [| | | |elements|]; try discriminate.
  destruct (mapC sanitize elements) as [mapped|e] eqn:Hm.
  - eexists _, mapped. simpl.
    split; [eapply parseCartItems_array; eauto|]. split.
    + apply filter_items_NoDup, NoDup_seq.
    + intros r Hr. apply filter_items_sub in Hr.
      apply elem_of_seq in Hr. rewrite length_app. lia.
  - exists [], []. simpl. rewrite Hid.
    split; [eapply parseCartItems_unreadable; eauto | apply Hnil].
Qed.

Lemma fold_left_lineTotals (lines : list Line.t) (acc : float) :
  fold_left (fun sum item => PrimFloat.add sum (Line.lineTotal item)) lines acc
  = fold_left PrimFloat.add (map Line.lineTotal lines) acc.
Proof.
  revert acc. induction lines as [|l lines IH]; intros acc; [reflexivity|].
  simpl. apply IH.
Qed.

Lemma price_lines_spec (s : DataStore) (cart : list CartItem.t) :
  Forall2 (prices s) (List.filter (resolves s) cart) (omap (price_line s) cart).
Proof.
  induction cart as [|item cart IH]; [constructor|].
  simpl. unfold resolves at 1, price_line at 1, getProduct_object.
  destruct (getProduct (CartItem.productId item) s) as [r|] eqn:Hg.
  2:{ rewrite bool_decide_false by (intros [? ?]; discriminate). exact IH. }
  destruct (objects s !! r) as [product|] eqn:Ho.
  2:{ rewrite bool_decide_false by (intros [? ?]; discriminate). exact IH. }
  rewrite bool_decide_true by eauto.
  constructor; [|exact IH]. exists product. simpl. auto.
Qed.

End Handlers.

(** C9.  Pricing the cart.  The handler of [GET /cart] always renders; its
    lines are, in order, those of the items of the decoded cart whose
    product exists in the store, the others being dropped without error;
    each line has the quantity of its item and [price * quantity] as line
    total; the total is the sum of the line totals.  With a product priced
    [10] and an item of quantity [2] there is one line, of total [20], and
    the total is [20]; once the product is removed the same cart has no
    line and total [0]. *)
Theorem priceCart_correct :
  forall (host : Host) (w : World),
    (exists w' cart lines,
       decoded w = JS.Normal cart /\
       get_cart w = (JS.Normal tt, w') /\
       sent (res w') = Some (Render lines (sum_lineTotals lines)) /\
       Forall2 (prices (store w)) (List.filter (resolves (store w)) cart) lines /\
       store w' = store w) /\
    (let w := demo_world (Some (Ecma.js "[{'productId':'p1','quantity':2}]"))
                BUndefined BUndefined in
     sent (res (snd (get_cart (host := Ecma.host) w)))
     = Some (Render [Line.mk 0 2%float 20%float] 20%float) /\
     sent (res (snd (get_cart (host := Ecma.host)
                       (mkWorld (removeProduct "p1" (store w)) (cart_objects w)
                                (req w) (res w)))))
     = Some (Render [] 0%float)).
Proof.
  intros host w. split; [|split; vm_compute; reflexivity].
  destruct (parseCartItems_returns w) as (refs & extra & [H | [H _]]).
  - eexists _, _, _. unfold decoded, get_cart, bindM, get_world, send, modify.
    rewrite H. simpl. split; [reflexivity|]. split; [reflexivity|].
    split; [|split; [apply price_lines_spec | reflexivity]].
    unfold sum_lineTotals. now rewrite fold_left_lineTotals.
  - eexists _, _, _. unfold decoded, get_cart, bindM, get_world, send, modify.
    rewrite H. simpl. split; [reflexivity|]. split; [reflexivity|].
    split; [|split; [apply price_lines_spec | reflexivity]].
    unfold sum_lineTotals. now rewrite fold_left_lineTotals.
Qed.

(** *** Adding to the cart *)





Section AddItem.
Context {host : Host}.





End AddItem.

Lemma Map_get_elem {V : Type} (k : string) (v : V) (m : list (string * V)) :
  Map_get k m = Some v -> (k, v) ∈ m.
Proof.
  induction m as [|[k' v'] m IH]; simpl; [discriminate|].
  destruct (String.eqb_spec k' k) as [->|Hne].
  - intros [= ->]. left.
  - intros H. right. now apply IH.
Qed.

Lemma getProduct_object_id (s : DataStore) (id : string) (product : Product.t) :
  keys_are_ids s -> getProduct_object id s = Some product ->
  Product.id product = id.
Proof.
  intros Hk. unfold getProduct_object, getProduct.
  destruct (Map_get id (products s)) as [r|] eqn:Hg; [|discriminate].
  intros Ho. destruct (Hk id r (Map_get_elem _ _ _ Hg)) as (p & Hp & Hid).
  congruence.
Qed.






(** C7.  A [productId] that is not a string or does not resolve to a
    product is rejected silently: the handler returns and redirects, writes
    no cookie, leaves the store as it is, and the cart on the request is the
    decoded cart, item for item. *)
Theorem addItem_rejects_unknown_product :
  forall (host : Host) (w : World),
    cache_ok w ->
    (forall pid, first_if_array (body_productId (req w)) = BString pid ->
                 getProduct_object pid (store w) = None) ->
    exists w' cart,
      post_cart_add w = (JS.Normal tt, w') /\
      decoded w = JS.Normal cart /\
      cached_cart w' = Some cart /\
      decoded w' = JS.Normal cart /\
      set_cookie (res w') = set_cookie (res w) /\
      store w' = store w /\
      sent (res w') = Some Redirect.
Proof.
  intros host w Hok Hrej.
  destruct (parseCartItems_ok w Hok) as (refs & extra & Hp & Hnd & Hal).
  simpl in Hp, Hal.
  assert (post_cart_add w =
          (JS.Normal tt,
           set_res (mkResponse (set_cookie (res w)) (cartItemCount (res w))
                               (Some Redirect))
                   (with_cache refs
                      (set_cart_objects (cart_objects w ++ extra) w)))) as Hpost.
  { unfold post_cart_add, bindM, get_world. rewrite Hp. simpl.
    destruct (first_if_array (body_productId (req w))) as [|pid| |] eqn:Hb;
      try reflexivity.
    now rewrite (Hrej pid eq_refl). }
  eexists _, _. split; [exact Hpost|].
  unfold decoded, cached_cart. rewrite Hp. simpl.
  repeat split; reflexivity.
Qed.

Lemma addItem_rejects_unknown_product_witness :
  let w := demo_world (Some (Ecma.js "[{'productId':'p1','quantity':2}]"))
             (BString "missing-id") (BString "1") in
  exists w' cart,
    post_cart_add (host := Ecma.host) w = (JS.Normal tt, w') /\
    decoded (host := Ecma.host) w = JS.Normal cart /\
    cached_cart w' = Some cart /\
    decoded (host := Ecma.host) w' = JS.Normal cart /\
    set_cookie (res w') = set_cookie (res w) /\
    store w' = store w /\
    sent (res w') = Some Redirect.
Proof.
  intros w. apply (addItem_rejects_unknown_product Ecma.host w).
  - exact I.
  - intros pid [= <-]. vm_compute. reflexivity.
Defined.

(** C8 at the failing input.  The cart cookie holds one item, [p1] with
    quantity [2], and the request adds quantity [3] of [p1].  The array
    [parseCartItems] returns before the handler runs holds one reference;
    the handler copies the array, so it still holds that reference
    afterwards, but the record behind it has been changed in place: its
    quantity was [2] and is [5]. *)
Theorem addItem_mutates_cached_record :
  let w0 := demo_world (Some (Ecma.js "[{'productId':'p1','quantity':2}]"))
              (BString "p1") (BString "3") in
  let w1 := snd (parseCartItems (host := Ecma.host) w0) in
  let w2 := snd (post_cart_add (host := Ecma.host) w1) in
  fst (parseCartItems (host := Ecma.host) w0) = JS.Normal [0] /\
  fst (post_cart_add (host := Ecma.host) w1) = JS.Normal tt /\
  cart_view (cart_objects w1) [0] = [CartItem.mk "p1" 2%float] /\
  cart_view (cart_objects w2) [0] = [CartItem.mk "p1" 5%float].
Proof. repeat split; vm_compute; reflexivity. Qed.

(** ** The store *)

Section MapFacts.
Context {V : Type}.
Implicit Types (m : list (string * V)) (k : string) (v : V).

Lemma Map_get_set_eq k v m : Map_get k (Map_set k v m) = Some v.
Proof.
  induction m as [|[k' v'] m IH]; simpl.
  - now rewrite String.eqb_refl.
  - destruct (String.eqb k' k) eqn:E; simpl; now rewrite E.
Qed.

Lemma Map_get_set_ne k k' v m :
  k <> k' -> Map_get k' (Map_set k v m) = Map_get k' m.
Proof.
  intros Hne. induction m as [|[k0 v0] m IH]; simpl.
  - destruct (String.eqb_spec k k'); [contradiction | reflexivity].
  - destruct (String.eqb_spec k0 k) as [->|Hk]; simpl.
    + destruct (String.eqb_spec k k'); [contradiction | reflexivity].
    + now rewrite IH.
Qed.

Lemma Map_set_elem k v m k' v' :
  (k', v') ∈ Map_set k v m -> (k', v') ∈ m \/ (k' = k /\ v' = v).
Proof.
  induction m as [|[k0 v0] m IH]; simpl.
  - intros H. apply list_elem_of_singleton in H as [= -> ->]. now right.
  - destruct (String.eqb_spec k0 k) as [->|Hk]; intros H;
      apply elem_of_cons in H as [[= -> ->] | H].
    + now right.
    + left. now right.
    + left. left.
    + destruct (IH H) as [H' | H']; [left; now right | now right].
Qed.

Lemma Map_set_keys k v m :
  map fst (Map_set k v m) =
    if bool_decide (k ∈ map fst m) then map fst m else map fst m ++ [k].
Proof.
  induction m as [|[k0 v0] m IH].
  - rewrite bool_decide_eq_false_2 by apply not_elem_of_nil. reflexivity.
  - cbn [Map_set]. destruct (String.eqb_spec k0 k) as [->|Hk].
    + rewrite bool_decide_eq_true_2 by (cbn; left). reflexivity.
    + cbn [map fst]. rewrite IH.
      destruct (decide (k ∈ map fst m)) as [Hin|Hin].
      * rewrite !bool_decide_eq_true_2; [reflexivity | now right | assumption].
      * rewrite !bool_decide_eq_false_2; [reflexivity | | assumption].
        intros H. apply elem_of_cons in H as [-> | H]; [now apply Hk | contradiction].
Qed.

Lemma Map_delete_elem k m k' v' :
  (k', v') ∈ Map_delete k m -> (k', v') ∈ m /\ k' <> k.
Proof.
  induction m as [|[k0 v0] m IH]; simpl.
  - intros H. now apply elem_of_nil in H.
  - destruct (String.eqb_spec k0 k) as [->|Hk]; intros H.
    + destruct (IH H). split; [now right | assumption].
    + apply elem_of_cons in H as [[= -> ->] | H].
      * split; [left | assumption].
      * destruct (IH H). split; [now right | assumption].
Qed.

Lemma Map_get_delete k m : Map_get k (Map_delete k m) = None.
Proof.
  induction m as [|[k0 v0] m IH]; simpl; [reflexivity|].
  destruct (String.eqb k0 k) eqn:E; simpl; [exact IH | now rewrite E].
Qed.

Lemma Map_delete_keys k m :
  map fst (Map_delete k m) = List.filter (fun k' => negb (String.eqb k' k)) (map fst m).
Proof.
  induction m as [|[k0 v0] m IH]; simpl; [reflexivity|].
  destruct (String.eqb k0 k); simpl; now rewrite IH.
Qed.

(** Binding a key to the value it has changes nothing, when the keys are
    distinct. *)
Lemma Map_set_same k v m :
  NoDup (map fst m) -> (k, v) ∈ m -> Map_set k v m = m.
Proof.
  induction m as [|[k0 v0] m IH]; simpl; intros Hnd Hin.
  - now apply elem_of_nil in Hin.
  - apply NoDup_cons in Hnd as [Hk0 Hnd].
    destruct (String.eqb_spec k0 k) as [->|Hk].
    + apply elem_of_cons in Hin as [[= ->] | Hin]; [reflexivity|].
      exfalso. apply Hk0. apply list_elem_of_fmap. now exists (k, v).
    + apply elem_of_cons in Hin as [[= -> ->] | Hin]; [contradiction|].
      now rewrite IH.
Qed.

End MapFacts.

Lemma patched_spread {A : Type} (old : option A) (u : partial A) :
  patched old u (spread old u).
Proof. split; intros ->; reflexivity. Qed.

Lemma truthy_opt_string_Some (v : option string) (text : string) :
  v = Some text -> text <> "" -> JS.truthy_opt_string v = true.
Proof.
  intros -> Hne. simpl. unfold JS.truthy_string.
  now destruct (String.eqb_spec text "").
Qed.

(** What [updateProduct] does to a product that exists: the updated object
    is a new one, bound to the same key. *)
Lemma updateProduct_found (s : DataStore) (id : string) (u : ProductUpdate.t)
    (p : Product.t) :
  getProduct_object id s = Some p ->
  exists p',
    updateProduct id u s =
      (Some (length (objects s)),
       set_products (Map_set id (length (objects s)) (products s))
                    (set_objects (objects s ++ [p']) s)) /\
    getProduct_object id (snd (updateProduct id u s)) = Some p' /\
    objects (snd (updateProduct id u s)) !! length (objects s) = Some p' /\
    p' = (let spreaded :=
            Product.mk (Product.id p)
              (spread (Product.name p) (ProductUpdate.name u))
              (spread (Product.slug p) (ProductUpdate.slug u))
              (spread (Product.description p) (ProductUpdate.description u))
              (spread (Product.price p) (ProductUpdate.price u))
              (spread (Product.currency p) (ProductUpdate.currency u))
              (spread (Product.media p) (ProductUpdate.media u))
              (spread (Product.additionalInfo p) (ProductUpdate.additionalInfo u))
              (spread (Product.categoryIds p) (ProductUpdate.categoryIds u))
              (spread (Product.customTemplate p) (ProductUpdate.customTemplate u)) in
          let named :=
            if JS.truthy_opt_string (prop (ProductUpdate.name u))
               && negb (JS.truthy_opt_string (prop (ProductUpdate.slug u)))
            then Product.set_slug
                   (Some (slugify (default "" (prop (ProductUpdate.name u)))))
                   spreaded
            else spreaded in
          if JS.truthy_opt_string (prop (ProductUpdate.slug u))
          then Product.set_slug
                 (Some (slugify (default "" (prop (ProductUpdate.slug u)))))
                 named
          else named).
Proof.
  intros H. unfold updateProduct. rewrite H. eexists.
  split; [reflexivity|]. simpl.
  split; [|split; [|reflexivity]].
  - unfold getProduct_object, getProduct. simpl.
    rewrite Map_get_set_eq, lookup_app_r by lia.
    now rewrite Nat.sub_diag.
  - rewrite lookup_app_r by lia. now rewrite Nat.sub_diag.
Qed.

(** C3, as the code has it.  For a product and for a page, an update whose
    partial supplies a slug that is a non-empty string gives the stored
    entity the slug [slugify] of that string, whatever name or title the
    same update supplies. *)
Theorem explicit_slug_wins :
  (forall (s : DataStore) (id : string) (u : ProductUpdate.t) (p : Product.t)
          (text : string),
     getProduct_object id s = Some p ->
     prop (ProductUpdate.slug u) = Some text -> text <> "" ->
     exists r p',
       fst (updateProduct id u s) = Some r /\
       objects (snd (updateProduct id u s)) !! r = Some p' /\
       getProduct_object id (snd (updateProduct id u s)) = Some p' /\
       Product.slug p' = Some (slugify text)) /\
  (forall (s : DataStore) (id : string) (u : PageUpdate.t) (p : CustomPage.t)
          (text : string),
     Map_get id (pages s) = Some p ->
     prop (PageUpdate.slug u) = Some text -> text <> "" ->
     exists p',
       fst (updatePage id u s) = Some p' /\
       Map_get id (pages (snd (updatePage id u s))) = Some p' /\
       CustomPage.slug p' = Some (slugify text)).
Proof.
  split.
  - intros s id u p text Hp Hs Hne.
    destruct (updateProduct_found s id u p Hp) as (p' & Hu & Hg & Ho & ->).
    eexists _, _. rewrite Hu at 1. split; [reflexivity|].
    split; [exact Ho|]. split; [exact Hg|].
    rewrite (truthy_opt_string_Some _ text Hs Hne), Hs. reflexivity.
  - intros s id u p text Hp Hs Hne. unfold updatePage. rewrite Hp.
    eexists. split; [reflexivity|]. simpl.
    split; [apply Map_get_set_eq|].
    rewrite (truthy_opt_string_Some _ text Hs Hne), Hs. reflexivity.
Qed.

Lemma explicit_slug_wins_witness :
  (let u := ProductUpdate.mk (Some (Some "New Name")) (Some (Some "My Slug!"))
              None None None None None None None in
   exists r p',
     fst (updateProduct "p1" u demo_store) = Some r /\
     objects (snd (updateProduct "p1" u demo_store)) !! r = Some p' /\
     getProduct_object "p1" (snd (updateProduct "p1" u demo_store)) = Some p' /\
     Product.slug p' = Some (slugify "My Slug!")) /\
  (let u := PageUpdate.mk (Some (Some "Contact")) (Some (Some "About The Team"))
              None None in
   exists p',
     fst (updatePage "g1" u demo_pages) = Some p' /\
     Map_get "g1" (pages (snd (updatePage "g1" u demo_pages))) = Some p' /\
     CustomPage.slug p' = Some (slugify "About The Team")).
Proof.
  split.
  - apply (proj1 explicit_slug_wins demo_store "p1" _ demo_product "My Slug!").
    + vm_compute. reflexivity.
    + reflexivity.
    + discriminate.
  - apply (proj2 explicit_slug_wins demo_pages "g1" _
             (CustomPage.mk "g1" (Some "About Us") (Some "about-us")
                (Some "<p>Hello</p>") (Some "custom-page.njk"))
             "About The Team").
    + vm_compute. reflexivity.
    + reflexivity.
    + discriminate.
Defined.

(** C3 as stated fails.  [updateCategory] stores an explicit slug as it is
    given, and derives the slug from the name when the update has both; and
    [updateProduct] derives the slug from the name when the explicit slug is
    the empty string. *)
Lemma explicit_slug_wins_counterexample :
  (* updateCategory("c1", { slug: "My Slug!" }) *)
  Category.slug <$>
    fst (updateCategory "c1"
           (CategoryUpdate.mk None (Some (Some "My Slug!")) None None)
           demo_categories)
  = Some (Some "My Slug!") /\
  slugify "My Slug!" = "my-slug" /\
  (* updateCategory("c1", { name: "Menswear", slug: "custom" }) *)
  Category.slug <$>
    fst (updateCategory "c1"
           (CategoryUpdate.mk (Some (Some "Menswear")) (Some (Some "custom"))
              None None)
           demo_categories)
  = Some (Some "menswear") /\
  (* updateProduct("p1", { name: "New Name", slug: "" }) *)
  Product.slug <$>
    getProduct_object "p1"
      (snd (updateProduct "p1"
              (ProductUpdate.mk (Some (Some "New Name")) (Some (Some ""))
                 None None None None None None None)
              demo_store))
  = Some (Some "new-name") /\
  slugify "" = "".
Proof. repeat split; vm_compute; reflexivity. Qed.

(** C10, as the code has it.  In every partial update a key bound to
    [undefined] clears the stored field and an absent key leaves it as it
    was, for every field but [slug]; for [slug] the same holds when the
    update supplies no non-empty name (for a page, title), and otherwise the
    slug is derived again.  So [updateCategory(id, { parentId: undefined })]
    detaches the category from its parent. *)
Theorem undefined_clears_field :
  (forall (s : DataStore) (id : string) (u : CategoryUpdate.t) (c : Category.t),
     getCategory id s = Some c ->
     exists c',
       fst (updateCategory id u s) = Some c' /\
       getCategory id (snd (updateCategory id u s)) = Some c' /\
       patched (Category.name c) (CategoryUpdate.name u) (Category.name c') /\
       patched (Category.description c) (CategoryUpdate.description u)
               (Category.description c') /\
       patched (Category.parentId c) (CategoryUpdate.parentId u)
               (Category.parentId c') /\
       (JS.truthy_opt_string (prop (CategoryUpdate.name u)) = false ->
        patched (Category.slug c) (CategoryUpdate.slug u) (Category.slug c')) /\
       (forall name,
          prop (CategoryUpdate.name u) = Some name -> name <> "" ->
          Category.slug c' = Some (slugify name))) /\
  (forall (s : DataStore) (id : string) (u : ProductUpdate.t) (p : Product.t),
     getProduct_object id s = Some p ->
     exists p',
       getProduct_object id (snd (updateProduct id u s)) = Some p' /\
       patched (Product.name p) (ProductUpdate.name u) (Product.name p') /\
       patched (Product.description p) (ProductUpdate.description u)
               (Product.description p') /\
       patched (Product.price p) (ProductUpdate.price u) (Product.price p') /\
       patched (Product.currency p) (ProductUpdate.currency u)
               (Product.currency p') /\
       patched (Product.media p) (ProductUpdate.media u) (Product.media p') /\
       patched (Product.additionalInfo p) (ProductUpdate.additionalInfo u)
               (Product.additionalInfo p') /\
       patched (Product.categoryIds p) (ProductUpdate.categoryIds u)
               (Product.categoryIds p') /\
       patched (Product.customTemplate p) (ProductUpdate.customTemplate u)
               (Product.customTemplate p') /\
       (JS.truthy_opt_string (prop (ProductUpdate.name u)) = false ->
        patched (Product.slug p) (ProductUpdate.slug u) (Product.slug p')) /\
       (forall name,
          prop (ProductUpdate.name u) = Some name -> name <> "" ->
          Product.slug p' =
            Some (slugify match prop (ProductUpdate.slug u) with
                          | Some text => if String.eqb text "" then name else text
                          | None => name
                          end))) /\
  (forall (s : DataStore) (id : string) (u : PageUpdate.t) (p : CustomPage.t),
     Map_get id (pages s) = Some p ->
     exists p',
       fst (updatePage id u s) = Some p' /\
       Map_get id (pages (snd (updatePage id u s))) = Some p' /\
       patched (CustomPage.title p) (PageUpdate.title u) (CustomPage.title p') /\
       patched (CustomPage.content p) (PageUpdate.content u)
               (CustomPage.content p') /\
       patched (CustomPage.template p) (PageUpdate.template u)
               (CustomPage.template p') /\
       (JS.truthy_opt_string (prop (PageUpdate.title u)) = false ->
        patched (CustomPage.slug p) (PageUpdate.slug u) (CustomPage.slug p')) /\
       (forall title,
          prop (PageUpdate.title u) = Some title -> title <> "" ->
          CustomPage.slug p' =
            Some (slugify match prop (PageUpdate.slug u) with
                          | Some text => if String.eqb text "" then title else text
                          | None => title
                          end))) /\
  (forall (s : DataStore) (u : SettingsUpdate.t),
     let old := getSettings s in
     let new := getSettings (snd (updateSettings u s)) in
     fst (updateSettings u s) = new /\
     patched (SiteSettings.headerHtml old) (SettingsUpdate.headerHtml u)
             (SiteSettings.headerHtml new) /\
     patched (SiteSettings.footerHtml old) (SettingsUpdate.footerHtml u)
             (SiteSettings.footerHtml new) /\
     patched (SiteSettings.paymentGateways old)
             (SettingsUpdate.paymentGateways u)
             (SiteSettings.paymentGateways new)) /\
  (Category.parentId <$> getCategory "c2" demo_categories = Some (Some "c1") /\
   Category.parentId <$>
     getCategory "c2"
       (snd (updateCategory "c2"
               (CategoryUpdate.mk None None None (Some None)) demo_categories))
   = Some None).
Proof.
  split; [|split; [|split; [|split]]].
  - intros s id u c Hc. unfold getCategory in *. unfold updateCategory.
    rewrite Hc. eexists. split; [reflexivity|]. simpl.
    split; [apply Map_get_set_eq|].
    destruct (JS.truthy_opt_string (prop (CategoryUpdate.name u))) eqn:Hn;
      simpl;
      repeat split; try apply patched_spread; try discriminate;
      try (intros _; apply patched_spread);
      intros name Hname Hne;
      [ now rewrite Hname
      | now rewrite (truthy_opt_string_Some _ name Hname Hne) in Hn ].
  - intros s id u p Hp.
    destruct (updateProduct_found s id u p Hp) as (p' & _ & Hg & _ & ->).
    eexists. split; [exact Hg|].
    destruct u as [un us ud upr uc um ua uci uct]. simpl.
    destruct (JS.truthy_opt_string (prop un)) eqn:Hn,
             (JS.truthy_opt_string (prop us)) eqn:Hs; simpl;
      repeat split; try apply patched_spread; try discriminate;
      try (intros ->; (discriminate || reflexivity));
      intros name Hname Hne;
      try (now rewrite (truthy_opt_string_Some _ name Hname Hne) in Hn);
      rewrite ?Hname; unfold JS.truthy_opt_string, JS.truthy_string in Hs;
      destruct (prop us) as [text|]; try discriminate; try reflexivity;
      destruct (String.eqb text "") eqn:E; simpl in *; congruence.
  - intros s id u p Hp. unfold updatePage. rewrite Hp.
    eexists. split; [reflexivity|]. simpl.
    split; [apply Map_get_set_eq|].
    destruct u as [ut us uc utp]. simpl.
    destruct (JS.truthy_opt_string (prop ut)) eqn:Hn,
             (JS.truthy_opt_string (prop us)) eqn:Hs; simpl;
      repeat split; try apply patched_spread; try discriminate;
      try (intros ->; (discriminate || reflexivity));
      intros title Htitle Hne;
      try (now rewrite (truthy_opt_string_Some _ title Htitle Hne) in Hn);
      rewrite ?Htitle; unfold JS.truthy_opt_string, JS.truthy_string in Hs;
      destruct (prop us) as [text|]; try discriminate; try reflexivity;
      destruct (String.eqb text "") eqn:E; simpl in *; congruence.
  - intros s u. simpl. repeat split; apply patched_spread.
  - split; vm_compute; reflexivity.
Qed.

Lemma undefined_clears_field_witness :
  (let u := CategoryUpdate.mk None None None (Some None) in
   exists c',
     fst (updateCategory "c2" u demo_categories) = Some c' /\
     getCategory "c2" (snd (updateCategory "c2" u demo_categories)) = Some c' /\
     patched (Some "Shirts") None (Category.name c') /\
     patched None None (Category.description c') /\
     patched (Some "c1") (Some None) (Category.parentId c') /\
     (JS.truthy_opt_string None = false ->
      patched (Some "shirts") None (Category.slug c'))) /\
  (let u := ProductUpdate.mk None (Some None) None None None None None None
              (Some None) in
   exists p',
     getProduct_object "p1" (snd (updateProduct "p1" u demo_store)) = Some p' /\
     Product.customTemplate p' = None /\
     Product.slug p' = None /\
     Product.name p' = Some "Organic Cotton T-Shirt") /\
  (let u := PageUpdate.mk None None (Some None) None in
   exists p',
     fst (updatePage "g1" u demo_pages) = Some p' /\
     CustomPage.content p' = None /\
     CustomPage.slug p' = Some "about-us") /\
  (let u := CategoryUpdate.mk (Some (Some "Tops")) (Some None) None None in
   exists c',
     fst (updateCategory "c2" u demo_categories) = Some c' /\
     Category.slug c' = Some (slugify "Tops")).
Proof.
  destruct undefined_clears_field as (Hc & Hp & Hg & _).
  split; [|split; [|split]].
  - destruct (Hc demo_categories "c2"
                (CategoryUpdate.mk None None None (Some None))
                (Category.mk "c2" (Some "Shirts") (Some "shirts") None
                   (Some "c1")))
      as (c' & H1 & H2 & H3 & H4 & H5 & H6 & _).
    { vm_compute. reflexivity. }
    exists c'. repeat (split; [assumption|]). exact H6.
  - destruct (Hp demo_store "p1"
                (ProductUpdate.mk None (Some None) None None None None None None
                   (Some None))
                demo_product)
      as (p' & Hget & Hn & _ & _ & _ & _ & _ & _ & Hct & Hs & _).
    { vm_compute. reflexivity. }
    exists p'. split; [exact Hget|].
    split; [exact (proj1 Hct eq_refl)|].
    split; [exact (proj1 (Hs eq_refl) eq_refl) | exact (proj2 Hn eq_refl)].
  - destruct (Hg demo_pages "g1" (PageUpdate.mk None None (Some None) None)
                (CustomPage.mk "g1" (Some "About Us") (Some "about-us")
                   (Some "<p>Hello</p>") (Some "custom-page.njk")))
      as (p' & Hfst & _ & _ & Hcontent & _ & Hs & _).
    { vm_compute. reflexivity. }
    exists p'. split; [exact Hfst|].
    split; [exact (proj1 Hcontent eq_refl) | exact (proj2 (Hs eq_refl) eq_refl)].
  - destruct (Hc demo_categories "c2"
                (CategoryUpdate.mk (Some (Some "Tops")) (Some None) None None)
                (Category.mk "c2" (Some "Shirts") (Some "shirts") None
                   (Some "c1")))
      as (c' & H1 & _ & _ & _ & _ & _ & Hslug).
    { vm_compute. reflexivity. }
    exists c'. split; [exact H1|]. apply Hslug; [reflexivity | discriminate].
Defined.

(** C10 as stated fails on the [slug] field: with a name in the same update,
    a [slug] key bound to [undefined] does not clear the stored slug, and an
    absent [slug] key does not keep it. *)
Lemma undefined_clears_field_counterexample :
  Product.slug <$> getProduct_object "p1" demo_store
  = Some (Some "organic-cotton-t-shirt") /\
  (* updateProduct("p1", { name: "New Name", slug: undefined }) *)
  Product.slug <$>
    getProduct_object "p1"
      (snd (updateProduct "p1"
              (ProductUpdate.mk (Some (Some "New Name")) (Some None)
                 None None None None None None None)
              demo_store))
  = Some (Some "new-name") /\
  (* updateProduct("p1", { name: "New Name" }) *)
  Product.slug <$>
    getProduct_object "p1"
      (snd (updateProduct "p1"
              (ProductUpdate.mk (Some (Some "New Name")) None
                 None None None None None None None)
              demo_store))
  = Some (Some "new-name").
Proof. repeat split; vm_compute; reflexivity. Qed.

(** *** Removing a category *)

Lemma references_without (c d : string) (p : Product.t) (ids : list string) :
  Product.categoryIds p = Some ids ->
  references c (Product.set_categoryIds (Some (without d ids)) p) ->
  references c p.
Proof.
  unfold references. simpl. intros ->.
  rewrite !list_elem_of_In. unfold without. rewrite filter_In. tauto.
Qed.

Lemma not_references_without (c : string) (p : Product.t) (ids : list string) :
  ~ references c (Product.set_categoryIds (Some (without c ids)) p).
Proof.
  unfold references. simpl. rewrite list_elem_of_In. unfold without.
  rewrite filter_In, String.eqb_refl. intros [_ H]. discriminate.
Qed.

Lemma forEach_cons (d : string) (k : string) (r : ref)
    (rest : list (string * ref)) (s : DataStore) :
  removeCategory_forEach d ((k, r) :: rest) s =
    match objects s !! r with
    | Some product =>
        match Product.categoryIds product with
        | Some ids => removeCategory_forEach d rest (forEach_step d r product ids s)
        | None => (JS.Throw JS.TypeError, s)
        end
    | None => removeCategory_forEach d rest s
    end.
Proof. reflexivity. Qed.

(** What a step keeps of the objects: each object of the new heap stands
    where an object of the old heap stood, with the same [id] and no
    category it did not have. *)
Lemma forEach_step_objects (d : string) (r0 : ref) (product : Product.t)
    (ids : list string) (s : DataStore) (r : ref) (p2 : Product.t) :
  objects s !! r0 = Some product ->
  Product.categoryIds product = Some ids ->
  objects (forEach_step d r0 product ids s) !! r = Some p2 ->
  exists p, objects s !! r = Some p /\ Product.id p2 = Product.id p /\
            forall c, references c p2 -> references c p.
Proof.
  intros Ho Hc. unfold forEach_step. simpl.
  rewrite list_lookup_insert_Some.
  intros [(<- & <- & _) | (_ & H)].
  - exists product. split; [exact Ho|]. split; [reflexivity|].
    intros c. now apply references_without.
  - exists p2. auto.
Qed.

(** Whatever the outcome of the loop: the heap keeps its size, each object
    keeps its [id] and gains no category, a binding of the map is one it had
    or binds the [id] of a visited object to it, and the rest of the store
    is untouched. *)
Lemma forEach_general (d : string) (entries : list (string * ref))
    (s s' : DataStore) (comp : JS.Completion unit) :
  removeCategory_forEach d entries s = (comp, s') ->
  length (objects s') = length (objects s) /\
  (forall r p', objects s' !! r = Some p' ->
     exists p, objects s !! r = Some p /\ Product.id p' = Product.id p /\
               forall c, references c p' -> references c p) /\
  (forall k r, (k, r) ∈ products s' ->
     (k, r) ∈ products s \/
     exists k0 p, (k0, r) ∈ entries /\ objects s !! r = Some p /\ Product.id p = k) /\
  categories s' = categories s /\ pages s' = pages s /\ settings s' = settings s.
Proof.
  revert s. induction entries as [|[k0 r0] rest IH]; intros s H.
  { injection H as <- <-. repeat split; eauto. }
  rewrite forEach_cons in H.
  destruct (objects s !! r0) as [product|] eqn:Ho.
  2:{ destruct (IH s H) as (Hl & Hobj & Hpr & Hrest).
      split; [exact Hl|]. split; [exact Hobj|]. split; [|exact Hrest].
      intros k r Hin. destruct (Hpr k r Hin) as [?|(k1 & p & Hk1 & ?)];
        [now left|]. right. exists k1, p. split; [now right | assumption]. }
  destruct (Product.categoryIds product) as [ids|] eqn:Hc.
  2:{ injection H as <- <-. repeat split; eauto. }
  destruct (IH _ H) as (Hl & Hobj & Hpr & Hcat & Hpg & Hset).
  split; [|split; [|split; [|now repeat split]]].
  - rewrite Hl. unfold forEach_step. simpl. apply length_insert.
  - intros r p' Hp'. destruct (Hobj r p' Hp') as (p2 & Hp2 & Hid2 & Href2).
    destruct (forEach_step_objects d r0 product ids s r p2 Ho Hc Hp2)
      as (p & Hp & Hid & Href).
    exists p. split; [exact Hp|]. split; [congruence|]. auto.
  - intros k r Hin. destruct (Hpr k r Hin) as [Hin2 | (k1 & p2 & Hk1 & Hp2 & Hid2)].
    + unfold forEach_step in Hin2. simpl in Hin2.
      apply Map_set_elem in Hin2 as [? | [-> ->]]; [now left|].
      right. exists k0, product. split; [left|]. now split.
    + destruct (forEach_step_objects d r0 product ids s r p2 Ho Hc Hp2)
        as (p & Hp & Hid & _).
      right. exists k1, p. split; [now right|]. split; [exact Hp | congruence].
Qed.

(** When the loop returns, no visited object refers to the category. *)
Lemma forEach_normal (c : string) (entries : list (string * ref))
    (s s' : DataStore) :
  removeCategory_forEach c entries s = (JS.Normal tt, s') ->
  forall k r p', (k, r) ∈ entries -> objects s' !! r = Some p' ->
    ~ references c p'.
Proof.
  revert s. induction entries as [|[k0 r0] rest IH]; intros s H k r p' Hin Hp'.
  { now apply elem_of_nil in Hin. }
  rewrite forEach_cons in H.
  destruct (objects s !! r0) as [product|] eqn:Ho.
  2:{ apply elem_of_cons in Hin as [[= -> ->] | Hin]; [|eapply IH; eauto].
      destruct (forEach_general _ _ _ _ _ H) as (_ & Hobj & _).
      destruct (Hobj r0 p' Hp') as (p & Hp & _). congruence. }
  destruct (Product.categoryIds product) as [ids|] eqn:Hc; [|discriminate].
  apply elem_of_cons in Hin as [[= -> ->] | Hin]; [|eapply IH; eauto].
  destruct (forEach_general _ _ _ _ _ H) as (_ & Hobj & _).
  destruct (Hobj r0 p' Hp') as (p2 & Hp2 & _ & Href).
  unfold forEach_step in Hp2. simpl in Hp2.
  rewrite list_lookup_insert_eq in Hp2 by (eapply lookup_lt_Some; eauto).
  injection Hp2 as <-. intros Hr. apply Href in Hr.
  now apply not_references_without in Hr.
Qed.

(** The loop returns when every visited object has its [categoryIds]. *)
Lemma forEach_returns (c : string) (entries : list (string * ref))
    (s : DataStore) :
  (forall k r p, (k, r) ∈ entries -> objects s !! r = Some p ->
     Product.categoryIds p <> None) ->
  exists s', removeCategory_forEach c entries s = (JS.Normal tt, s').
Proof.
  revert s. induction entries as [|[k0 r0] rest IH]; intros s H.
  { now exists s. }
  rewrite forEach_cons.
  destruct (objects s !! r0) as [product|] eqn:Ho.
  2:{ apply IH. intros k r p Hin. apply (H k r p). now right. }
  destruct (Product.categoryIds product) as [ids|] eqn:Hc.
  2:{ exfalso. apply (H k0 r0 product); [left | exact Ho | exact Hc]. }
  apply IH. intros k r p Hin Hp.
  unfold forEach_step in Hp. simpl in Hp.
  apply list_lookup_insert_Some in Hp as [(<- & <- & _) | (_ & Hp)].
  - discriminate.
  - apply (H k r p); [now right | exact Hp].
Qed.

(** In a well-formed store the [set] of the callback changes nothing: the
    loop leaves the map as it is and mutates the objects in place. *)
Lemma forEach_keeps_products (d : string) (entries : list (string * ref))
    (s s' : DataStore) (comp : JS.Completion unit) :
  store_ok s ->
  (forall e, e ∈ entries -> e ∈ products s) ->
  removeCategory_forEach d entries s = (comp, s') ->
  products s' = products s /\ store_ok s'.
Proof.
  revert s. induction entries as [|[k0 r0] rest IH]; intros s Hok Hsub H.
  { injection H as <- <-. now split. }
  assert (forall e, e ∈ rest -> e ∈ products s) as Hsub'.
  { intros e He. apply Hsub. now right. }
  rewrite forEach_cons in H.
  destruct (objects s !! r0) as [product|] eqn:Ho; [|now apply IH].
  destruct (Product.categoryIds product) as [ids|] eqn:Hc.
  2:{ injection H as <- <-. now split. }
  destruct Hok as [Hnd Hk].
  destruct (Hk k0 r0 (Hsub _ ltac:(left))) as (p0 & Hp0 & Hid0).
  assert (p0 = product) as -> by congruence.
  assert (products (forEach_step d r0 product ids s) = products s) as Hsame.
  { unfold forEach_step. simpl. rewrite Hid0.
    apply Map_set_same; [exact Hnd | apply Hsub; left]. }
  assert (store_ok (forEach_step d r0 product ids s)) as Hok2.
  { split; [now rewrite Hsame|]. intros k r Hin. rewrite Hsame in Hin.
    destruct (Hk k r Hin) as (p & Hp & Hid).
    unfold forEach_step. simpl.
    destruct (decide (r = r0)) as [->|Hne].
    - rewrite list_lookup_insert_eq by (eapply lookup_lt_Some; eauto).
      eexists. split; [reflexivity|]. simpl. congruence.
    - rewrite list_lookup_insert_ne by congruence. eauto. }
  destruct (IH _ Hok2 ltac:(now rewrite Hsame) H) as [Hp' Hok'].
  split; [congruence | exact Hok'].
Qed.

Lemma elem_of_deref_all {A : Type} (h : list A) (refs : list ref) (x : A) :
  x ∈ deref_all h refs <-> exists r, r ∈ refs /\ h !! r = Some x.
Proof. unfold deref_all. apply list_elem_of_omap. Qed.

Lemma getProduct_object_elem (s : DataStore) (id : string) (p : Product.t) :
  getProduct_object id s = Some p ->
  exists r, (id, r) ∈ products s /\ objects s !! r = Some p.
Proof.
  unfold getProduct_object, getProduct.
  destruct (Map_get id (products s)) as [r|] eqn:Hg; [|discriminate].
  intros Ho. exists r. split; [now apply Map_get_elem | exact Ho].
Qed.

Lemma updateProduct_categoryIds (s : DataStore) (id : string)
    (u : ProductUpdate.t) (p p' : Product.t) :
  getProduct_object id s = Some p ->
  getProduct_object id (snd (updateProduct id u s)) = Some p' ->
  Product.categoryIds p' =
    spread (Product.categoryIds p) (ProductUpdate.categoryIds u) /\
  Product.id p' = Product.id p.
Proof.
  intros Hp Hp'.
  destruct (updateProduct_found s id u p Hp) as (q & _ & Hg & _ & ->).
  rewrite Hg in Hp'. injection Hp' as <-.
  destruct (JS.truthy_opt_string (prop (ProductUpdate.name u))),
           (JS.truthy_opt_string (prop (ProductUpdate.slug u))); now split.
Qed.

(** A store that has just gained one object, bound to [k]. *)
Lemma unreferenced_alloc (c k : string) (s : DataStore) (p : Product.t) :
  unreferenced c s -> ~ references c p ->
  unreferenced c
    (set_products (Map_set k (length (objects s)) (products s))
                  (set_objects (objects s ++ [p]) s)).
Proof.
  intros Hs Hp k' r q Hin Hq. simpl in Hin, Hq.
  destruct (decide (r < length (objects s))) as [Hlt|Hge].
  - rewrite lookup_app_l in Hq by exact Hlt.
    apply Map_set_elem in Hin as [Hin | [_ ->]]; [eapply Hs; eauto | lia].
  - rewrite lookup_app_r in Hq by lia.
    destruct (r - length (objects s)) as [|n] eqn:E; simpl in Hq;
      [congruence | discriminate].
Qed.

(** An operation that gives no product the category keeps the store free
    of references to it. *)
Lemma unreferenced_exec (c : string) (op : Op) (s : DataStore) :
  ~ assigns c op -> unreferenced c s -> unreferenced c (exec op s).
Proof.
  intros Ha Hs. destruct op; simpl in *.
  - exact Hs.
  - unfold updateCategory. now destruct (Map_get id (categories s)).
  - unfold removeCategory.
    destruct (removeCategory_forEach id _ _) as [comp s'] eqn:E.
    destruct (forEach_general _ _ _ _ _ E) as (_ & Hobj & Hpr & _).
    simpl in *. intros k r p' Hin Hp'.
    destruct (Hobj r p' Hp') as (p & Hp & _ & Href).
    intros Hr. apply Href in Hr.
    destruct (Hpr k r Hin) as [Hin' | (k0 & p0 & Hin' & _)];
      eapply Hs; eauto.
  - apply unreferenced_alloc; [exact Hs|]. exact Ha.
  - destruct (getProduct_object id s) as [p|] eqn:Hp.
    2:{ unfold updateProduct. now rewrite Hp. }
    destruct (updateProduct_found s id update p Hp) as (p' & Hu & Hg & _ & _).
    destruct (updateProduct_categoryIds s id update p p' Hp Hg) as [Hc _].
    rewrite Hu. simpl. apply unreferenced_alloc; [exact Hs|].
    unfold references. rewrite Hc.
    destruct (ProductUpdate.categoryIds update) as [[ids|]|]; simpl; auto.
    destruct (getProduct_object_elem s id p Hp) as (r & Hin & Ho).
    exact (Hs id r p Hin Ho).
  - intros k r p Hin Hp. unfold removeProduct in *. simpl in *.
    apply Map_delete_elem in Hin as [Hin _]. eapply Hs; eauto.
  - exact Hs.
  - unfold updatePage. now destruct (Map_get id (pages s)).
  - exact Hs.
  - exact Hs.
Qed.

Lemma unreferenced_exec_all (c : string) (ops : list Op) (s : DataStore) :
  Forall (fun op => ~ assigns c op) ops ->
  unreferenced c s -> unreferenced c (exec_all ops s).
Proof.
  intros Hops. revert s. induction Hops as [|op ops Hop _ IH]; intros s Hs.
  - exact Hs.
  - simpl. apply IH. now apply unreferenced_exec.
Qed.

(** Every operation keeps the [products] map well formed. *)
Lemma store_ok_alloc (k : string) (s : DataStore) (p : Product.t) :
  store_ok s -> Product.id p = k ->
  store_ok (set_products (Map_set k (length (objects s)) (products s))
                         (set_objects (objects s ++ [p]) s)).
Proof.
  intros [Hnd Hk] Hid. split; simpl.
  - rewrite Map_set_keys. case_bool_decide as Hin; [exact Hnd|].
    apply NoDup_app. split; [exact Hnd|]. split.
    + intros x Hx Hx'. apply list_elem_of_singleton in Hx' as ->. contradiction.
    + apply NoDup_singleton.
  - intros k' r Hin. simpl in Hin.
    apply Map_set_elem in Hin as [Hin | [-> ->]].
    + destruct (Hk k' r Hin) as (q & Hq & Hidq). exists q.
      split; [|exact Hidq]. simpl.
      rewrite lookup_app_l; [exact Hq | eapply lookup_lt_Some; eauto].
    + exists p. split; [|exact Hid]. simpl.
      rewrite lookup_app_r by lia. now rewrite Nat.sub_diag.
Qed.

Lemma store_ok_exec (op : Op) (s : DataStore) :
  store_ok s -> store_ok (exec op s).
Proof.
  intros Hs. destruct op; simpl.
  - exact Hs.
  - unfold updateCategory. now destruct (Map_get id (categories s)).
  - unfold removeCategory.
    destruct (removeCategory_forEach id _ _) as [comp s'] eqn:E.
    eapply forEach_keeps_products in E as [_ H]; [exact H | exact Hs | auto].
  - now apply store_ok_alloc.
  - destruct (getProduct_object id s) as [p|] eqn:Hp.
    2:{ unfold updateProduct. now rewrite Hp. }
    destruct (updateProduct_found s id update p Hp) as (p' & Hu & Hg & _ & _).
    destruct (updateProduct_categoryIds s id update p p' Hp Hg) as [_ Hid].
    rewrite Hu. simpl. apply store_ok_alloc; [exact Hs|].
    rewrite Hid. destruct Hs as [_ Hk]. now apply (getProduct_object_id s).
  - destruct Hs as [Hnd Hk]. split; simpl.
    + rewrite Map_delete_keys. rewrite NoDup_ListNoDup in *.
      now apply List.NoDup_filter.
    + intros k r Hin. simpl in Hin. apply Map_delete_elem in Hin as [Hin _].
      exact (Hk k r Hin).
  - exact Hs.
  - unfold updatePage. now destruct (Map_get id (pages s)).
  - exact Hs.
  - exact Hs.
Qed.

Lemma store_ok_new (year : string) : store_ok (new_DataStore year).
Proof.
  split; [constructor|]. intros k r Hin. now apply elem_of_nil in Hin.
Qed.

(** Every store a run of operations reaches from a new one is well formed. *)
Lemma store_ok_reachable (year : string) (ops : list Op) :
  store_ok (exec_all ops (new_DataStore year)).
Proof.
  generalize (store_ok_new year). generalize (new_DataStore year).
  induction ops as [|op ops IH]; intros s Hs; [exact Hs|].
  simpl. apply IH. now apply store_ok_exec.
Qed.

(** C2.  The cascade of a category deletion.  [removeCategory] is one
    transition of the store.  When it returns, the category is gone and no
    product the store lists or looks up has it among its [categoryIds]; this
    stays so through every later run of operations that does not itself
    give the category to a product.  It returns whenever every stored
    product has its [categoryIds].  In a well-formed store the products are
    changed in place: the references the store lists are the same before
    and after, so a reference obtained before the call shows the product
    without the category too. *)
Theorem removeCategory_cascades :
  forall (s : DataStore) (c : string),
    (forall s', removeCategory c s = (JS.Normal tt, s') ->
       getCategory c s' = None /\
       (forall p, p ∈ listProducts_objects s' -> ~ references c p) /\
       (forall id p, getProduct_object id s' = Some p -> ~ references c p) /\
       (forall ops, Forall (fun op => ~ assigns c op) ops ->
          forall p, p ∈ listProducts_objects (exec_all ops s') ->
            ~ references c p)) /\
    ((forall p, p ∈ listProducts_objects s -> Product.categoryIds p <> None) ->
     exists s', removeCategory c s = (JS.Normal tt, s')) /\
    (store_ok s ->
     forall comp s', removeCategory c s = (comp, s') ->
       listProducts s' = listProducts s /\ store_ok s').
Proof.
  intros s c.
  assert (forall t p, unreferenced c t -> p ∈ listProducts_objects t ->
                      ~ references c p) as Hlist.
  { intros t p Ht Hp. unfold listProducts_objects, listProducts in Hp.
    apply elem_of_deref_all in Hp as (r & Hr & Ho).
    unfold Map_values in Hr. apply list_elem_of_fmap in Hr as ([k r'] & -> & Hin).
    exact (Ht k r' p Hin Ho). }
  split; [|split].
  - intros s' H. unfold removeCategory in H.
    destruct (forEach_general _ _ _ _ _ H) as (_ & _ & Hpr & Hcat & _).
    assert (unreferenced c s') as Hun.
    { intros k r p Hin Ho.
      destruct (Hpr k r Hin) as [Hin' | (k0 & p0 & Hin' & _)];
        exact (forEach_normal _ _ _ _ H _ r p Hin' Ho). }
    split; [|split; [|split]].
    + unfold getCategory. rewrite Hcat. simpl. apply Map_get_delete.
    + intros p. now apply Hlist.
    + intros id p Hp. destruct (getProduct_object_elem s' id p Hp) as (r & Hin & Ho).
      exact (Hun id r p Hin Ho).
    + intros ops Hops p. apply Hlist. now apply unreferenced_exec_all.
  - intros Hall. unfold removeCategory. apply forEach_returns.
    intros k r p Hin Ho. simpl in Hin, Ho. apply Hall.
    unfold listProducts_objects, listProducts. apply elem_of_deref_all.
    exists r. split; [|exact Ho]. unfold Map_values.
    apply list_elem_of_fmap. now exists (k, r).
  - intros Hok comp s' H. unfold removeCategory in H.
    apply forEach_keeps_products in H as [Hp Hok']; [|exact Hok|auto].
    split; [|exact Hok']. unfold listProducts. now rewrite Hp.
Qed.

Lemma removeCategory_cascades_witness :
  let s' := snd (removeCategory "c1" demo_catalog) in
  (getCategory "c1" s' = None /\
   (forall p, p ∈ listProducts_objects s' -> ~ references "c1" p) /\
   (forall id p, getProduct_object id s' = Some p -> ~ references "c1" p) /\
   (forall ops, Forall (fun op => ~ assigns "c1" op) ops ->
      forall p, p ∈ listProducts_objects (exec_all ops s') ->
        ~ references "c1" p)) /\
  (exists s'', removeCategory "c1" demo_catalog = (JS.Normal tt, s'')) /\
  (listProducts s' = listProducts demo_catalog /\ store_ok s').
Proof.
  intros s'.
  destruct (removeCategory_cascades demo_catalog "c1") as (H1 & H2 & H3).
  split; [|split].
  - apply H1. vm_compute. reflexivity.
  - apply H2. intros p Hp. vm_compute in Hp.
    inversion Hp as [|? ? ? Hp']; subst; [discriminate | inversion Hp'].
  - apply (H3 (store_ok_reachable "2024"
                 [OpCreateCategory "c1" "Apparel" (Some "Clothing") None;
                  OpCreateCategory "c2" "Shirts" None (Some "c1");
                  OpCreateProduct "p1"
                    (ProductInput.mk "Organic Cotton T-Shirt" None
                       "Soft and sustainable t-shirt." 10%float "USD" [] []
                       ["c1"; "c2"] (Some ""))])
             (JS.Normal tt)).
    vm_compute. reflexivity.
Defined.

(** * Further properties of the code *)

(** ** The slug generator *)

Lemma slug_char_not_hyphen (c : ascii) :
  is_slug_char c = true -> Ascii.eqb c "-" = false.
Proof. destruct c as [[] [] [] [] [] [] [] []]; vm_compute; congruence. Qed.

Lemma toLowerCase_slug_char (c : ascii) :
  is_slug_char c = true -> toLowerCase_char c = c.
Proof. destruct c as [[] [] [] [] [] [] [] []]; vm_compute; congruence. Qed.

Lemma drop_first_hyphen_cons (c : ascii) (t : string) :
  drop_first_hyphen (String c t) = if Ascii.eqb c "-" then t else String c t.
Proof. destruct c as [[] [] [] [] [] [] [] []]; reflexivity. Qed.

Lemma drop_last_hyphen_cons (c : ascii) (t : string) :
  Ascii.eqb c "-" = false ->
  drop_last_hyphen (String c t) = String c (drop_last_hyphen t).
Proof. intros H. simpl. destruct t; [now rewrite H | reflexivity]. Qed.

Lemma drop_last_hyphen_hyphen (t : string) :
  drop_last_hyphen (String "-" t) =
    match t with
    | EmptyString => EmptyString
    | String _ _ => String "-" (drop_last_hyphen t)
    end.
Proof. now destruct t. Qed.

(** What [replace_runs] writes, with its last hyphen dropped, continues a
    slug. *)
Lemma replace_runs_slug (u : string) :
  slug_from true (drop_last_hyphen (replace_runs false u)) = true /\
  match replace_runs true u with
  | EmptyString => True
  | String c t => slug_from false (drop_last_hyphen (String c t)) = true
  end.
Proof.
  induction u as [|c u [IH1 IH2]]; [now split|].
  simpl. destruct (is_slug_char c) eqn:Hc.
  - assert (slug_from false (drop_last_hyphen (String c (replace_runs false u)))
            = true) as H.
    { rewrite drop_last_hyphen_cons by now apply slug_char_not_hyphen.
      simpl. now rewrite Hc. }
    split; [|exact H].
    rewrite drop_last_hyphen_cons in * by now apply slug_char_not_hyphen.
    simpl in *. now rewrite Hc in *.
  - split; [|exact IH2].
    rewrite drop_last_hyphen_hyphen.
    destruct (replace_runs true u) as [|c' t]; [reflexivity|].
    change (slug_from true (String "-" (drop_last_hyphen (String c' t))) = true).
    simpl slug_from at 1. exact IH2.
Qed.

Lemma slugify_slug (value : string) : is_slug (slugify value) = true.
Proof.
  unfold slugify, strip_hyphens.
  destruct (toLowerCase value) as [|c u]; [reflexivity|].
  simpl replace_runs. destruct (is_slug_char c) eqn:Hc.
  - rewrite drop_first_hyphen_cons, (slug_char_not_hyphen c Hc).
    rewrite drop_last_hyphen_cons by now apply slug_char_not_hyphen.
    unfold is_slug. simpl. rewrite Hc.
    now rewrite (proj1 (replace_runs_slug u)).
  - rewrite drop_first_hyphen_cons. simpl Ascii.eqb. cbv iota.
    pose proof (proj2 (replace_runs_slug u)) as H.
    destruct (replace_runs true u) as [|c' t]; [reflexivity|].
    unfold is_slug. now rewrite H, orb_true_r.
Qed.

Lemma slug_from_chars (b : bool) (t : string) (c : ascii) :
  slug_from b t = true -> In c (list_ascii_of_string t) ->
  is_slug_char c = true \/ c = "-"%char.
Proof.
  revert b. induction t as [|c0 t IH]; intros b H Hin; [contradiction|].
  simpl in H, Hin. destruct (is_slug_char c0) eqn:Hc.
  - destruct Hin as [<- | Hin]; [now left | eauto].
  - apply andb_true_iff in H as [H Ht]. apply andb_true_iff in H as [He _].
    apply Ascii.eqb_eq in He. destruct Hin as [<- | Hin]; [now right | eauto].
Qed.

(** X1.  Every slug is well formed: [slugify] returns the empty string, or
    lowercase letters and digits joined by single hyphens, with no hyphen at
    the start or at the end.  So every character of a slug is in [[a-z0-9]]
    or is a hyphen, and a slug never starts with a hyphen. *)
Theorem slugify_is_slug :
  forall value : string,
    is_slug (slugify value) = true /\
    (forall c, In c (list_ascii_of_string (slugify value)) ->
       is_slug_char c = true \/ c = "-"%char) /\
    (forall t, slugify value <> String "-" t).
Proof.
  intros value. pose proof (slugify_slug value) as H.
  split; [exact H|]. unfold is_slug in H. apply orb_true_iff in H as [H | H].
  - apply String.eqb_eq in H. rewrite H. split; [contradiction | discriminate].
  - split; [intros c; now apply (slug_from_chars false)|].
    intros t Ht. rewrite Ht in H. discriminate H.
Qed.

Lemma slug_from_fixed (b : bool) (t : string) :
  slug_from b t = true ->
  toLowerCase t = t /\ replace_runs (negb b) t = t /\ drop_last_hyphen t = t.
Proof.
  revert b. induction t as [|c t IH]; intros b H; [now repeat split|].
  simpl in H. destruct (is_slug_char c) eqn:Hc.
  - destruct (IH true H) as (H1 & H2 & H3).
    rewrite drop_last_hyphen_cons by now apply slug_char_not_hyphen.
    simpl. rewrite Hc, (toLowerCase_slug_char c Hc), H1, H3.
    simpl in H2. now rewrite H2.
  - apply andb_true_iff in H as [H Ht]. apply andb_true_iff in H as [He Hb].
    apply Ascii.eqb_eq in He. subst c b.
    destruct (IH false Ht) as (H1 & H2 & H3).
    rewrite drop_last_hyphen_hyphen. simpl. rewrite H1. simpl in H2. rewrite H2.
    destruct t as [|c' t']; [discriminate Ht|]. now rewrite H3.
Qed.

(** X2.  The slugs are exactly the fixed points of [slugify]; in
    particular [slugify] is idempotent, which is why normalising a stored
    slug again never changes it. *)
Theorem slugify_fixed_points :
  forall t : string,
    (slugify t = t <-> is_slug t = true) /\
    slugify (slugify t) = slugify t.
Proof.
  assert (forall t, is_slug t = true -> slugify t = t) as Hfix.
  { intros t H. unfold is_slug in H. apply orb_true_iff in H as [H | H].
    - apply String.eqb_eq in H. now subst t.
    - destruct (slug_from_fixed false t H) as (H1 & H2 & H3).
      unfold slugify, strip_hyphens. rewrite H1.
      destruct t as [|c t']; [reflexivity|].
      simpl in H. destruct (is_slug_char c) eqn:Hc.
      2:{ rewrite andb_false_r in H. discriminate. }
      simpl in H2. rewrite Hc in H2. simpl. rewrite Hc.
      injection H2 as H2. rewrite H2.
      rewrite drop_first_hyphen_cons, (slug_char_not_hyphen c Hc).
      exact H3. }
  intros t. split; [split|].
  - intros H. rewrite <- H. apply slugify_slug.
  - apply Hfix.
  - apply Hfix, slugify_slug.
Qed.

(** ** Creating, reading and removing entities *)

Section MapMore.
Context {V : Type}.
Implicit Types (m : list (string * V)) (k : string) (v : V).

Lemma Map_set_get_same k v m : Map_get k m = Some v -> Map_set k v m = m.
Proof.
  induction m as [|[k0 v0] m IH]; simpl; [discriminate|].
  destruct (String.eqb_spec k0 k) as [->|Hk].
  - now intros [= ->].
  - intros H. now rewrite IH.
Qed.

Lemma Map_set_fresh k v m : Map_get k m = None -> Map_set k v m = m ++ [(k, v)].
Proof.
  induction m as [|[k0 v0] m IH]; simpl; [reflexivity|].
  destruct (String.eqb k0 k); [discriminate|].
  intros H. now rewrite IH.
Qed.

Lemma Map_delete_absent k m : Map_get k m = None -> Map_delete k m = m.
Proof.
  induction m as [|[k0 v0] m IH]; simpl; [reflexivity|].
  destruct (String.eqb k0 k); [discriminate|].
  intros H. now rewrite IH.
Qed.

Lemma Map_get_delete_ne k k' m :
  k <> k' -> Map_get k' (Map_delete k m) = Map_get k' m.
Proof.
  intros Hne. induction m as [|[k0 v0] m IH]; simpl; [reflexivity|].
  destruct (String.eqb_spec k0 k) as [->|Hk]; simpl.
  - destruct (String.eqb_spec k k'); [contradiction | exact IH].
  - now rewrite IH.
Qed.

Lemma Map_delete_idem k m : Map_delete k (Map_delete k m) = Map_delete k m.
Proof. apply Map_delete_absent, Map_get_delete. Qed.

Lemma Map_get_None_keys k m : Map_get k m = None -> k ∉ map fst m.
Proof.
  induction m as [|[k0 v0] m IH]; simpl; [intros _; apply not_elem_of_nil|].
  destruct (String.eqb_spec k0 k) as [->|Hk]; [discriminate|].
  intros H Hin. apply elem_of_cons in Hin as [-> | Hin];
    [now apply Hk | now apply IH].
Qed.

End MapMore.

Lemma getProduct_object_alloc (s : DataStore) (k id : string) (p : Product.t) :
  keys_are_ids s -> k <> id ->
  getProduct_object id
    (set_products (Map_set k (length (objects s)) (products s))
                  (set_objects (objects s ++ [p]) s))
  = getProduct_object id s.
Proof.
  intros Hk Hne. unfold getProduct_object, getProduct. simpl.
  rewrite Map_get_set_ne by exact Hne.
  destruct (Map_get id (products s)) as [r|] eqn:Hg; [|reflexivity].
  destruct (Hk id r (Map_get_elem _ _ _ Hg)) as (q & Hq & _).
  apply lookup_app_l. eapply lookup_lt_Some; eauto.
Qed.

Lemma listProducts_objects_alloc (s : DataStore) (k : string) (p : Product.t) :
  keys_are_ids s -> getProduct k s = None ->
  listProducts_objects
    (set_products (Map_set k (length (objects s)) (products s))
                  (set_objects (objects s ++ [p]) s))
  = listProducts_objects s ++ [p].
Proof.
  intros Hk Hg. unfold listProducts_objects, listProducts, Map_values. simpl.
  rewrite (Map_set_fresh _ _ _ Hg), map_app, deref_all_app. f_equal.
  - apply deref_all_alloc. intros r Hr.
    apply list_elem_of_fmap in Hr as ([k' r'] & -> & Hin).
    destruct (Hk k' r' Hin) as (q & Hq & _). eapply lookup_lt_Some; eauto.
  - simpl map. rewrite deref_all_cons, lookup_app_r by lia.
    now rewrite Nat.sub_diag.
Qed.

(** X3.  Create, then read.  Each [create] stores the entity under the
    identifier drawn for it and returns it: the entity has the fields given,
    that identifier, and the slug of the explicit slug when one is given and
    not empty, of the name or title otherwise.  Reading that identifier
    gives the entity, reading another identifier gives what it gave before,
    and with a new identifier the entity comes last in the listing. *)
Theorem create_then_get :
  (forall (s : DataStore) (uuid name : string) (description parentId : option string),
     let c := Category.mk uuid (Some name) (Some (slugify name))
                          description parentId in
     let s' := snd (createCategory uuid name description parentId s) in
     fst (createCategory uuid name description parentId s) = c /\
     getCategory uuid s' = Some c /\
     (forall id, id <> uuid -> getCategory id s' = getCategory id s) /\
     (getCategory uuid s = None -> listCategories s' = listCategories s ++ [c])) /\
  (forall (s : DataStore) (uuid : string) (input : ProductInput.t),
     let slug :=
       match ProductInput.slug input with
       | Some text => if String.eqb text "" then ProductInput.name input else text
       | None => ProductInput.name input
       end in
     let p := Product.mk uuid (Some (ProductInput.name input))
                (Some (slugify slug))
                (Some (ProductInput.description input))
                (Some (ProductInput.price input))
                (Some (ProductInput.currency input))
                (Some (ProductInput.media input))
                (Some (ProductInput.additionalInfo input))
                (Some (ProductInput.categoryIds input))
                (ProductInput.customTemplate input) in
     let s' := snd (createProduct uuid input s) in
     getProduct uuid s' = Some (fst (createProduct uuid input s)) /\
     getProduct_object uuid s' = Some p /\
     (keys_are_ids s ->
      (forall id, id <> uuid -> getProduct_object id s' = getProduct_object id s) /\
      (getProduct uuid s = None ->
       listProducts_objects s' = listProducts_objects s ++ [p]))) /\
  (forall (s : DataStore) (uuid : string) (input : PageInput.t),
     let slug :=
       match PageInput.slug input with
       | Some text => if String.eqb text "" then PageInput.title input else text
       | None => PageInput.title input
       end in
     let g := CustomPage.mk uuid (Some (PageInput.title input))
                (Some (slugify slug)) (Some (PageInput.content input))
                (Some (PageInput.template input)) in
     let s' := snd (createPage uuid input s) in
     fst (createPage uuid input s) = g /\
     Map_get uuid (pages s') = Some g /\
     (forall id, id <> uuid -> Map_get id (pages s') = Map_get id (pages s)) /\
     (Map_get uuid (pages s) = None -> listPages s' = listPages s ++ [g])).
Proof.
  split; [|split].
  - intros s uuid name description parentId c s'. subst c s'. simpl.
    unfold getCategory, listCategories, Map_values. simpl.
    split; [reflexivity|]. split; [apply Map_get_set_eq|].
    split; [intros id Hne; apply Map_get_set_ne; congruence|].
    intros Hg. now rewrite (Map_set_fresh _ _ _ Hg), map_app.
  - intros s uuid input slug p s'.
    assert (snd (createProduct uuid input s) =
            set_products (Map_set uuid (length (objects s)) (products s))
                         (set_objects (objects s ++ [p]) s)) as Hs'.
    { unfold createProduct. simpl. subst p slug.
      destruct (ProductInput.slug input) as [text|]; simpl; [|reflexivity].
      unfold JS.truthy_string. now destruct (String.eqb text ""). }
    subst s'. rewrite Hs'. split; [|split].
    + unfold getProduct. simpl. apply Map_get_set_eq.
    + unfold getProduct_object, getProduct. simpl.
      rewrite Map_get_set_eq, lookup_app_r by lia. now rewrite Nat.sub_diag.
    + intros Hk. split.
      * intros id Hne. apply getProduct_object_alloc; [exact Hk | congruence].
      * now apply listProducts_objects_alloc.
  - intros s uuid input slug g s'.
    assert (fst (createPage uuid input s) = g) as Hg.
    { unfold createPage. simpl. subst g slug.
      destruct (PageInput.slug input) as [text|]; simpl; [|reflexivity].
      unfold JS.truthy_string. now destruct (String.eqb text ""). }
    assert (pages s' = Map_set uuid g (pages s)) as Hp.
    { subst s'. rewrite <- Hg. reflexivity. }
    unfold listPages, Map_values. rewrite Hp.
    split; [exact Hg|]. split; [apply Map_get_set_eq|].
    split; [intros id Hne; apply Map_get_set_ne; congruence|].
    intros Hn. now rewrite (Map_set_fresh _ _ _ Hn), map_app.
Qed.

Lemma store_ok_demo_store : store_ok demo_store.
Proof.
  exact (store_ok_reachable "2024"
           [OpCreateProduct "p1"
              (ProductInput.mk "Organic Cotton T-Shirt" None
                 "Soft and sustainable t-shirt." 10%float "USD" [] [] []
                 (Some ""))]).
Qed.

Lemma create_then_get_witness :
  let input := ProductInput.mk "Leather Weekender Bag" (Some "") "Handcrafted."
                 249%float "USD" [] [] [] (Some "") in
  let s' := snd (createProduct "p2" input demo_store) in
  (getProduct_object "p1" s' = getProduct_object "p1" demo_store) /\
  (listProducts_objects s' =
   listProducts_objects demo_store ++
   [Product.mk "p2" (Some "Leather Weekender Bag")
      (Some (slugify "Leather Weekender Bag")) (Some "Handcrafted.")
      (Some 249%float) (Some "USD") (Some []) (Some []) (Some []) (Some "")]) /\
  (listCategories
     (snd (createCategory "c3" "Bags" None None demo_categories))
   = listCategories demo_categories ++
     [Category.mk "c3" (Some "Bags") (Some (slugify "Bags")) None None]) /\
  (listPages
     (snd (createPage "g2" (PageInput.mk "Contact" None "" "custom-page.njk")
             demo_pages))
   = listPages demo_pages ++
     [CustomPage.mk "g2" (Some "Contact") (Some (slugify "Contact")) (Some "")
        (Some "custom-page.njk")]).
Proof.
  intros input s'.
  destruct create_then_get as (Hc & Hp & Hg).
  destruct (Hp demo_store "p2" input) as (_ & _ & Hframe).
  destruct (Hframe (proj2 store_ok_demo_store)) as [Hother Hlist].
  split; [|split; [|split]].
  - apply Hother. discriminate.
  - apply Hlist. vm_compute. reflexivity.
  - apply (Hc demo_categories "c3" "Bags" None None). vm_compute. reflexivity.
  - apply (Hg demo_pages "g2" (PageInput.mk "Contact" None "" "custom-page.njk")).
    vm_compute. reflexivity.
Defined.

(** ** Updates *)

Lemma Category_eta (c : Category.t) :
  Category.mk (Category.id c) (Category.name c) (Category.slug c)
              (Category.description c) (Category.parentId c) = c.
Proof. now destruct c. Qed.

Lemma CustomPage_eta (g : CustomPage.t) :
  CustomPage.mk (CustomPage.id g) (CustomPage.title g) (CustomPage.slug g)
                (CustomPage.content g) (CustomPage.template g) = g.
Proof. now destruct g. Qed.

Lemma DataStore_eta (s : DataStore) :
  mkStore (objects s) (products s) (categories s) (pages s) (settings s) = s.
Proof. now destruct s. Qed.

(** X4.  Renaming derives the slug again.  An update that gives a category
    a name that is not empty sets its slug to the slug of that name,
    whatever slug the update carries; an update that gives a product a name,
    or a page a title, that is not empty, and carries no slug or an empty
    one, sets the slug to the slug of the name or title. *)
Theorem rename_rederives_slug :
  forall (s : DataStore) (id name : string),
    name <> "" ->
    (forall (u : CategoryUpdate.t) (c : Category.t),
       getCategory id s = Some c ->
       CategoryUpdate.name u = Some (Some name) ->
       exists c',
         fst (updateCategory id u s) = Some c' /\
         getCategory id (snd (updateCategory id u s)) = Some c' /\
         Category.name c' = Some name /\
         Category.slug c' = Some (slugify name)) /\
    (forall (u : ProductUpdate.t) (p : Product.t),
       getProduct_object id s = Some p ->
       ProductUpdate.name u = Some (Some name) ->
       JS.truthy_opt_string (prop (ProductUpdate.slug u)) = false ->
       exists p',
         getProduct_object id (snd (updateProduct id u s)) = Some p' /\
         Product.name p' = Some name /\
         Product.slug p' = Some (slugify name)) /\
    (forall (u : PageUpdate.t) (g : CustomPage.t),
       Map_get id (pages s) = Some g ->
       PageUpdate.title u = Some (Some name) ->
       JS.truthy_opt_string (prop (PageUpdate.slug u)) = false ->
       exists g',
         fst (updatePage id u s) = Some g' /\
         Map_get id (pages (snd (updatePage id u s))) = Some g' /\
         CustomPage.title g' = Some name /\
         CustomPage.slug g' = Some (slugify name)).
Proof.
  intros s id name Hname.
  assert (JS.truthy_opt_string (Some name) = true) as Ht
    by (now apply (truthy_opt_string_Some _ name)).
  split; [|split].
  - intros u c Hc Hu. unfold updateCategory, getCategory in *.
    rewrite Hc, Hu. simpl prop. rewrite Ht. simpl.
    eexists. split; [reflexivity|]. split; [apply Map_get_set_eq|]. now split.
  - intros u p Hp Hu Hs.
    destruct (updateProduct_found s id u p Hp) as (p' & _ & Hget & _ & Hp').
    exists p'. split; [exact Hget|].
    rewrite Hu, Hs in Hp'. simpl prop in Hp'. rewrite Ht in Hp'. simpl in Hp'.
    subst p'. now split.
  - intros u g Hg Hu Hs. unfold updatePage.
    rewrite Hg, Hu, Hs. simpl prop. rewrite Ht. simpl.
    eexists. split; [reflexivity|]. split; [apply Map_get_set_eq|]. now split.
Qed.

Lemma rename_rederives_slug_witness :
  (exists c',
     getCategory "c1"
       (snd (updateCategory "c1"
               (CategoryUpdate.mk (Some (Some "Summer Wear"))
                  (Some (Some "apparel")) None None)
               demo_catalog)) = Some c' /\
     Category.slug c' = Some "summer-wear") /\
  (exists p',
     getProduct_object "p1"
       (snd (updateProduct "p1"
               (ProductUpdate.mk (Some (Some "Linen Shirt")) None None None None
                  None None None None)
               demo_catalog)) = Some p' /\
     Product.slug p' = Some "linen-shirt") /\
  (exists g',
     Map_get "g1"
       (pages (snd (updatePage "g1"
                      (PageUpdate.mk (Some (Some "Our Story")) (Some (Some ""))
                         None None)
                      demo_pages))) = Some g' /\
     CustomPage.slug g' = Some "our-story").
Proof.
  split; [|split].
  - destruct (rename_rederives_slug demo_catalog "c1" "Summer Wear"
                ltac:(discriminate)) as (H & _ & _).
    destruct (H (CategoryUpdate.mk (Some (Some "Summer Wear"))
                   (Some (Some "apparel")) None None)
                (Category.mk "c1" (Some "Apparel") (Some "apparel")
                   (Some "Clothing") None)
                ltac:(vm_compute; reflexivity) eq_refl)
      as (c' & _ & Hget & _ & Hslug).
    exists c'. split; [exact Hget | exact Hslug].
  - destruct (rename_rederives_slug demo_catalog "p1" "Linen Shirt"
                ltac:(discriminate)) as (_ & H & _).
    destruct (H (ProductUpdate.mk (Some (Some "Linen Shirt")) None None None
                   None None None None None)
                (Product.mk "p1" (Some "Organic Cotton T-Shirt")
                   (Some "organic-cotton-t-shirt")
                   (Some "Soft and sustainable t-shirt.") (Some 10%float)
                   (Some "USD") (Some []) (Some []) (Some ["c1"; "c2"])
                   (Some ""))
                ltac:(vm_compute; reflexivity) eq_refl eq_refl)
      as (p' & Hget & _ & Hslug).
    exists p'. split; [exact Hget | exact Hslug].
  - destruct (rename_rederives_slug demo_pages "g1" "Our Story"
                ltac:(discriminate)) as (_ & _ & H).
    destruct (H (PageUpdate.mk (Some (Some "Our Story")) (Some (Some ""))
                   None None)
                (CustomPage.mk "g1" (Some "About Us") (Some "about-us")
                   (Some "<p>Hello</p>") (Some "custom-page.njk"))
                ltac:(vm_compute; reflexivity) eq_refl eq_refl)
      as (g' & _ & Hget & _ & Hslug).
    exists g'. split; [exact Hget | exact Hslug].
Defined.

(** X5.  An identifier the store does not hold.  Updating it returns
    [undefined] and removing it returns normally, and neither changes the
    store. *)
Theorem unknown_id_changes_nothing :
  forall (s : DataStore) (id : string),
    (getCategory id s = None ->
     forall u, updateCategory id u s = (None, s)) /\
    (getProduct id s = None ->
     (forall u, updateProduct id u s = (None, s)) /\ removeProduct id s = s) /\
    (Map_get id (pages s) = None ->
     (forall u, updatePage id u s = (None, s)) /\ removePage id s = s).
Proof.
  intros s id. split; [|split].
  - intros H u. unfold updateCategory. unfold getCategory in H. now rewrite H.
  - intros H. split.
    + intros u. unfold updateProduct, getProduct_object. now rewrite H.
    + unfold removeProduct, set_products. unfold getProduct in H.
      rewrite (Map_delete_absent _ _ H). apply DataStore_eta.
  - intros H. split.
    + intros u. unfold updatePage. now rewrite H.
    + unfold removePage, set_pages.
      rewrite (Map_delete_absent _ _ H). apply DataStore_eta.
Qed.

Lemma unknown_id_changes_nothing_witness :
  updateCategory "p1" CategoryUpdate.empty demo_store = (None, demo_store) /\
  removeProduct "p2" demo_store = demo_store /\
  removePage "g1" demo_store = demo_store.
Proof.
  split; [|split].
  - apply (unknown_id_changes_nothing demo_store "p1"). reflexivity.
  - apply (unknown_id_changes_nothing demo_store "p2"). reflexivity.
  - apply (unknown_id_changes_nothing demo_store "g1"). reflexivity.
Defined.

(** X6.  Remove, then read.  After [removeProduct] or [removePage] the
    identifier is no longer bound and no longer listed, every other
    identifier reads as before, the listing keeps its order, and removing
    again changes nothing.  The product objects are left as they are: a
    holder of the removed object still reads it. *)
Theorem remove_then_get :
  forall (s : DataStore) (id : string),
    (getProduct id (removeProduct id s) = None /\
     (forall id', id' <> id ->
        getProduct_object id' (removeProduct id s) = getProduct_object id' s) /\
     map fst (products (removeProduct id s))
       = List.filter (fun k => negb (String.eqb k id)) (map fst (products s)) /\
     objects (removeProduct id s) = objects s /\
     removeProduct id (removeProduct id s) = removeProduct id s) /\
    (Map_get id (pages (removePage id s)) = None /\
     (forall id', id' <> id ->
        Map_get id' (pages (removePage id s)) = Map_get id' (pages s)) /\
     (forall g, g ∈ listPages (removePage id s) -> g ∈ listPages s) /\
     map fst (pages (removePage id s))
       = List.filter (fun k => negb (String.eqb k id)) (map fst (pages s)) /\
     removePage id (removePage id s) = removePage id s).
Proof.
  intros s id. split.
  - split; [apply Map_get_delete|]. split.
    { intros id' Hne. unfold getProduct_object, getProduct. simpl.
      now rewrite Map_get_delete_ne by congruence. }
    split; [apply Map_delete_keys|]. split; [reflexivity|].
    unfold removeProduct. simpl. unfold set_products. simpl.
    now rewrite Map_delete_idem.
  - split; [apply Map_get_delete|]. split.
    { intros id' Hne. simpl. now rewrite Map_get_delete_ne by congruence. }
    split.
    { intros g Hg. unfold listPages, Map_values in *. simpl in Hg.
      apply list_elem_of_fmap in Hg as ([k g'] & -> & Hin).
      apply Map_delete_elem in Hin as [Hin _].
      apply list_elem_of_fmap. now exists (k, g'). }
    split; [apply Map_delete_keys|].
    unfold removePage. simpl. unfold set_pages. simpl.
    now rewrite Map_delete_idem.
Qed.

(** X7.  The empty update.  [updateCategory], [updatePage] and
    [updateSettings] given a partial with no key return the record as it is
    and leave the store as it is; [updateProduct] stores a copy that reads
    the same. *)
Theorem empty_update_is_identity :
  forall (s : DataStore) (id : string),
    updateCategory id CategoryUpdate.empty s = (getCategory id s, s) /\
    updatePage id PageUpdate.empty s = (Map_get id (pages s), s) /\
    updateSettings SettingsUpdate.empty s = (getSettings s, s) /\
    getProduct_object id (snd (updateProduct id ProductUpdate.empty s))
      = getProduct_object id s.
Proof.
  intros s id. split; [|split; [|split]].
  - unfold updateCategory, getCategory.
    destruct (Map_get id (categories s)) as [c|] eqn:Hc; [|reflexivity].
    simpl. rewrite Category_eta, (Map_set_get_same _ _ _ Hc).
    unfold set_categories. now rewrite DataStore_eta.
  - unfold updatePage.
    destruct (Map_get id (pages s)) as [g|] eqn:Hg; [|reflexivity].
    simpl. rewrite CustomPage_eta, (Map_set_get_same _ _ _ Hg).
    unfold set_pages. now rewrite DataStore_eta.
  - unfold updateSettings, getSettings, set_settings. simpl.
    destruct s as [h pr ca pg st]. simpl. now destruct st.
  - destruct (getProduct_object id s) as [p|] eqn:Hp.
    + destruct (updateProduct_found s id ProductUpdate.empty p Hp)
        as (p' & _ & Hget & _ & Hp').
      rewrite Hget. f_equal. subst p'. simpl. now destruct p.
    + unfold updateProduct. now rewrite Hp.
Qed.

(** ** Product objects and the loop of [removeCategory] *)

Lemma Map_elem_get {V : Type} (k : string) (v : V) (m : list (string * V)) :
  NoDup (map fst m) -> (k, v) ∈ m -> Map_get k m = Some v.
Proof.
  induction m as [|[k0 v0] m IH]; simpl; intros Hnd Hin.
  { now apply elem_of_nil in Hin. }
  apply NoDup_cons in Hnd as [Hk0 Hnd].
  apply elem_of_cons in Hin as [[= -> ->] | Hin].
  - now rewrite String.eqb_refl.
  - destruct (String.eqb_spec k0 k) as [->|Hne]; [|now apply IH].
    exfalso. apply Hk0. apply list_elem_of_fmap. now exists (k, v).
Qed.

Lemma Map_set_elem_strict {V : Type} (k : string) (v : V)
    (m : list (string * V)) (k' : string) (v' : V) :
  NoDup (map fst m) -> (k', v') ∈ Map_set k v m ->
  (k' = k /\ v' = v) \/ (k' <> k /\ (k', v') ∈ m).
Proof.
  induction m as [|[k0 v0] m IH]; simpl; intros Hnd Hin.
  { apply list_elem_of_singleton in Hin as [= -> ->]. now left. }
  apply NoDup_cons in Hnd as [Hk0 Hnd].
  destruct (String.eqb_spec k0 k) as [->|Hne].
  - apply elem_of_cons in Hin as [[= -> ->] | Hin]; [now left|].
    right. split; [|now right]. intros ->. apply Hk0.
    apply list_elem_of_fmap. now exists (k, v').
  - apply elem_of_cons in Hin as [[= -> ->] | Hin].
    + right. split; [congruence | now left].
    + destruct (IH Hnd Hin) as [?|[? ?]]; [now left|].
      right. split; [assumption | now right].
Qed.

Lemma Map_set_length_present {V : Type} (k : string) (v v0 : V)
    (m : list (string * V)) :
  Map_get k m = Some v0 -> length (Map_set k v m) = length m.
Proof.
  induction m as [|[k1 v1] m IH]; simpl; [discriminate|].
  destruct (String.eqb k1 k); [reflexivity|].
  intros H. simpl. now rewrite IH.
Qed.

(** Two keys of a well-formed store are bound to different objects. *)
Lemma store_ok_refs_inj (s : DataStore) (k1 k2 : string) (r : ref) :
  keys_are_ids s -> (k1, r) ∈ products s -> (k2, r) ∈ products s -> k1 = k2.
Proof.
  intros Hk H1 H2.
  destruct (Hk k1 r H1) as (p1 & Hp1 & <-).
  destruct (Hk k2 r H2) as (p2 & Hp2 & <-). congruence.
Qed.

(** The loop leaves alone every object it does not visit. *)
Lemma forEach_untouched (d : string) (entries : list (string * ref))
    (s s' : DataStore) (comp : JS.Completion unit) (r : ref) :
  r ∉ map snd entries ->
  removeCategory_forEach d entries s = (comp, s') ->
  objects s' !! r = objects s !! r.
Proof.
  revert s. induction entries as [|[k0 r0] rest IH]; intros s Hr H.
  { now injection H as <- <-. }
  simpl in Hr. apply not_elem_of_cons in Hr as [Hne Hr].
  rewrite forEach_cons in H.
  destruct (objects s !! r0) as [product|] eqn:Ho; [|now apply IH].
  destruct (Product.categoryIds product) as [ids|] eqn:Hc.
  2:{ now injection H as <- <-. }
  rewrite (IH _ Hr H). unfold forEach_step. simpl.
  now apply list_lookup_insert_ne.
Qed.

Lemma without_without (d : string) (ids : list string) :
  without d (without d ids) = without d ids.
Proof.
  unfold without. induction ids as [|c ids IH]; simpl; [reflexivity|].
  destruct (negb (String.eqb c d)) eqn:E; simpl; [|exact IH].
  now rewrite E, IH.
Qed.

Lemma without_absent (d : string) (ids : list string) :
  d ∉ ids -> without d ids = ids.
Proof.
  unfold without. induction ids as [|c ids IH]; simpl; [reflexivity|].
  intros H. apply not_elem_of_cons in H as [Hne H].
  destruct (String.eqb_spec c d) as [->|_]; [contradiction|].
  simpl. now rewrite IH.
Qed.

Lemma strip_category_idem (d : string) (p : Product.t) :
  strip_category d (strip_category d p) = strip_category d p.
Proof.
  unfold strip_category. destruct p as [i n sl de pr cu me ai [ids|] ct]; simpl;
    [|reflexivity].
  now rewrite without_without.
Qed.

Lemma strip_category_unreferenced (d : string) (p : Product.t) :
  ~ references d p -> strip_category d p = p.
Proof.
  unfold strip_category, references.
  destruct p as [i n sl de pr cu me ai [ids|] ct]; simpl; [|reflexivity].
  intros H. unfold Product.set_categoryIds. simpl. now rewrite without_absent.
Qed.

(** When every visited object has its [categoryIds], the loop returns and
    has replaced exactly the visited objects, each by itself without the
    category. *)
Lemma forEach_exact (d : string) (entries : list (string * ref))
    (s : DataStore) :
  (forall k r p, (k, r) ∈ entries -> objects s !! r = Some p ->
     Product.categoryIds p <> None) ->
  exists s',
    removeCategory_forEach d entries s = (JS.Normal tt, s') /\
    forall r, objects s' !! r =
              if bool_decide (r ∈ map snd entries)
              then strip_category d <$> (objects s !! r)
              else objects s !! r.
Proof.
  revert s. induction entries as [|[k0 r0] rest IH]; intros s H.
  { exists s. split; [reflexivity|]. intros r.
    rewrite bool_decide_eq_false_2; [reflexivity | apply not_elem_of_nil]. }
  rewrite forEach_cons.
  destruct (objects s !! r0) as [product|] eqn:Ho.
  2:{ destruct (IH s) as (s' & Hrun & Hobj).
      { intros k r p Hin. apply (H k r p). now right. }
      exists s'. split; [exact Hrun|]. intros r. rewrite Hobj. simpl map.
      destruct (decide (r = r0)) as [->|Hne].
      - rewrite Ho. now repeat case_bool_decide.
      - destruct (decide (r ∈ map snd rest)) as [Hin|Hnin].
        + rewrite !bool_decide_eq_true_2; [reflexivity | now right | exact Hin].
        + rewrite !bool_decide_eq_false_2; [reflexivity | | exact Hnin].
          intros Hin. apply elem_of_cons in Hin as [?|?]; contradiction. }
  destruct (Product.categoryIds product) as [ids|] eqn:Hc.
  2:{ exfalso. apply (H k0 r0 product); [left | exact Ho | exact Hc]. }
  assert (r0 < length (objects s)) as Hlt by (eapply lookup_lt_Some; eauto).
  assert (Product.set_categoryIds (Some (without d ids)) product
          = strip_category d product) as Hstrip.
  { unfold strip_category. now rewrite Hc. }
  destruct (IH (forEach_step d r0 product ids s)) as (s' & Hrun & Hobj).
  { intros k r p Hin Hp. unfold forEach_step in Hp. simpl in Hp.
    apply list_lookup_insert_Some in Hp as [(<- & <- & _) | (_ & Hp)].
    - discriminate.
    - apply (H k r p); [now right | exact Hp]. }
  exists s'. split; [exact Hrun|]. intros r. rewrite Hobj.
  unfold forEach_step. simpl objects. simpl map. rewrite Hstrip.
  destruct (decide (r = r0)) as [->|Hne].
  - rewrite list_lookup_insert_eq by exact Hlt. rewrite Ho. simpl.
    rewrite (bool_decide_eq_true_2 (r0 ∈ r0 :: map snd rest)) by left.
    case_bool_decide; [now rewrite strip_category_idem | reflexivity].
  - rewrite list_lookup_insert_ne by congruence.
    destruct (decide (r ∈ map snd rest)) as [Hin|Hnin].
    + rewrite !bool_decide_eq_true_2; [reflexivity | now right | exact Hin].
    + rewrite !bool_decide_eq_false_2; [reflexivity | | exact Hnin].
      intros Hin. apply elem_of_cons in Hin as [?|?]; contradiction.
Qed.

(** The loop stops with a [TypeError] when a visited object has no
    [categoryIds]. *)
Lemma forEach_throws (d : string) (entries : list (string * ref))
    (s : DataStore) (k : string) (r : ref) (p : Product.t) :
  (k, r) ∈ entries -> objects s !! r = Some p ->
  Product.categoryIds p = None ->
  exists s', removeCategory_forEach d entries s = (JS.Throw JS.TypeError, s').
Proof.
  revert s. induction entries as [|[k0 r0] rest IH]; intros s Hin Hp Hnone.
  { now apply elem_of_nil in Hin. }
  rewrite forEach_cons.
  destruct (objects s !! r0) as [product|] eqn:Ho.
  2:{ apply elem_of_cons in Hin as [[= -> ->] | Hin]; [congruence|].
      now apply IH. }
  destruct (Product.categoryIds product) as [ids|] eqn:Hc; [|now exists s].
  apply elem_of_cons in Hin as [[= -> ->] | Hin]; [congruence|].
  apply IH; [exact Hin | | exact Hnone].
  unfold forEach_step. simpl.
  destruct (decide (r = r0)) as [->|Hne]; [congruence|].
  now rewrite list_lookup_insert_ne by congruence.
Qed.

Lemma deref_all_map {A : Type} (f : A -> A) (h h' : list A) (refs : list ref) :
  (forall r, r ∈ refs -> h' !! r = f <$> (h !! r)) ->
  deref_all h' refs = map f (deref_all h refs).
Proof.
  induction refs as [|r refs IH]; intros H; [reflexivity|].
  rewrite !deref_all_cons, (H r) by left.
  rewrite IH by (intros r' Hr'; apply H; now right).
  now destruct (h !! r).
Qed.

Lemma listed_object (s : DataStore) (k : string) (r : ref) (p : Product.t) :
  (k, r) ∈ products s -> objects s !! r = Some p -> p ∈ listProducts_objects s.
Proof.
  intros Hin Hp. apply elem_of_deref_all. exists r. split; [|exact Hp].
  apply list_elem_of_fmap. now exists (k, r).
Qed.

(** What [removeCategory] does to a well-formed store whose listed products
    all have their [categoryIds]. *)
Lemma removeCategory_exact (d : string) (s : DataStore) :
  store_ok s ->
  Forall (fun p => Product.categoryIds p <> None) (listProducts_objects s) ->
  exists s',
    removeCategory d s = (JS.Normal tt, s') /\
    products s' = products s /\
    categories s' = Map_delete d (categories s) /\
    pages s' = pages s /\ settings s' = settings s /\
    store_ok s' /\
    forall r, objects s' !! r =
              if bool_decide (r ∈ listProducts s)
              then strip_category d <$> (objects s !! r)
              else objects s !! r.
Proof.
  intros Hok Hall. unfold removeCategory.
  set (s1 := set_categories (Map_delete d (categories s)) s).
  destruct (forEach_exact d (products s1) s1) as (s' & Hrun & Hobj).
  { intros k r p Hin Hp. rewrite Forall_forall in Hall. apply Hall.
    now apply (listed_object s k r p). }
  exists s'. split; [exact Hrun|].
  destruct (forEach_keeps_products d (products s1) s1 s' _ Hok
              ltac:(auto) Hrun) as [Hpr Hok'].
  destruct (forEach_general _ _ _ _ _ Hrun) as (_ & _ & _ & Hc & Hpg & Hst).
  repeat split; try assumption; apply Hok'.
Qed.

(** X8.  [updateProduct] replaces the object.  The store binds the
    identifier to a new object and leaves the one it held as it was: the
    object a caller obtained before the update is no longer listed, keeps
    its fields, and is not reached by a later [removeCategory].  The other
    identifiers keep their objects, and the listing its length. *)
Theorem updateProduct_replaces_object :
  forall (s : DataStore) (id : string) (u : ProductUpdate.t) (r : ref)
         (p : Product.t),
    store_ok s ->
    getProduct id s = Some r -> objects s !! r = Some p ->
    let s' := snd (updateProduct id u s) in
    exists r',
      fst (updateProduct id u s) = Some r' /\
      getProduct id s' = Some r' /\
      objects s !! r' = None /\
      objects s' !! r = Some p /\
      (r ∉ listProducts s') /\
      (forall id', id' <> id -> getProduct id' s' = getProduct id' s) /\
      length (listProducts s') = length (listProducts s) /\
      (forall d, objects (snd (removeCategory d s')) !! r = Some p).
Proof.
  intros s id u r p [Hnd Hk] Hget Hp s'.
  assert (getProduct_object id s = Some p) as Hobj.
  { unfold getProduct_object. now rewrite Hget. }
  destruct (updateProduct_found s id u p Hobj) as (p' & Hupd & _ & _ & _).
  assert (r < length (objects s)) as Hlt by (eapply lookup_lt_Some; eauto).
  assert (r ∉ listProducts s') as Hstale.
  { subst s'. rewrite Hupd. unfold listProducts, Map_values. simpl.
    intros Hin. apply list_elem_of_fmap in Hin as ([k r0] & Heq & Hin).
    simpl in Heq. subst r0.
    apply (Map_set_elem_strict _ _ _ _ _ Hnd) in Hin as [[_ Heq] | [Hne Hin]];
      [lia|].
    apply Hne. apply (store_ok_refs_inj s k id r Hk Hin).
    now apply Map_get_elem. }
  exists (length (objects s)). subst s'. rewrite Hupd in *. simpl fst. simpl snd.
  split; [reflexivity|]. split; [apply Map_get_set_eq|].
  split; [apply lookup_ge_None; lia|].
  split; [simpl; now apply lookup_app_l_Some|].
  split; [exact Hstale|].
  split; [intros id' Hne; apply Map_get_set_ne; congruence|].
  split.
  { unfold listProducts, Map_values. simpl. rewrite !length_map.
    now apply (Map_set_length_present id (length (objects s)) r). }
  intros d.
  destruct (removeCategory d
              (set_products (Map_set id (length (objects s)) (products s))
                 (set_objects (objects s ++ [p']) s))) as [comp s2] eqn:Hrm.
  simpl snd. unfold removeCategory in Hrm.
  rewrite (forEach_untouched _ _ _ _ _ r Hstale Hrm). simpl.
  now apply lookup_app_l_Some.
Qed.

Lemma store_ok_demo_catalog : store_ok demo_catalog.
Proof.
  exact (store_ok_reachable "2024"
           [OpCreateCategory "c1" "Apparel" (Some "Clothing") None;
            OpCreateCategory "c2" "Shirts" None (Some "c1");
            OpCreateProduct "p1"
              (ProductInput.mk "Organic Cotton T-Shirt" None
                 "Soft and sustainable t-shirt." 10%float "USD" [] []
                 ["c1"; "c2"] (Some ""))]).
Qed.

Lemma updateProduct_replaces_object_witness :
  let u := ProductUpdate.mk None None None (Some (Some 12%float)) None None
             None (Some (Some ["c2"])) None in
  let s' := snd (updateProduct "p1" u demo_catalog) in
  exists r',
    fst (updateProduct "p1" u demo_catalog) = Some r' /\
    getProduct "p1" s' = Some r' /\
    objects demo_catalog !! r' = None /\
    objects s' !! 0 = Some demo_catalog_product /\
    (0 ∉ listProducts s') /\
    (forall id', id' <> "p1" -> getProduct id' s' = getProduct id' demo_catalog) /\
    length (listProducts s') = length (listProducts demo_catalog) /\
    (forall d, objects (snd (removeCategory d s')) !! 0
               = Some demo_catalog_product).
Proof.
  intros u.
  apply (updateProduct_replaces_object demo_catalog "p1" u 0
           demo_catalog_product store_ok_demo_catalog); reflexivity.
Defined.

(** X9.  What [removeCategory] changes.  On a well-formed store whose
    listed products all have their [categoryIds], the call returns; the
    category is deleted and every other category is as before, children of
    the deleted one included; each listed product is the product it was
    without the category, under the same identifier and at the same place of
    the listing; objects that are not listed, the pages and the settings are
    as before. *)
Theorem removeCategory_effect :
  forall (s : DataStore) (d : string),
    store_ok s ->
    Forall (fun p => Product.categoryIds p <> None) (listProducts_objects s) ->
    exists s',
      removeCategory d s = (JS.Normal tt, s') /\
      getCategory d s' = None /\
      (forall id, id <> d -> getCategory id s' = getCategory id s) /\
      listProducts s' = listProducts s /\
      listProducts_objects s'
        = map (strip_category d) (listProducts_objects s) /\
      (forall id p, getProduct_object id s = Some p ->
         getProduct_object id s' = Some (strip_category d p)) /\
      (forall r, r ∉ listProducts s -> objects s' !! r = objects s !! r) /\
      pages s' = pages s /\ settings s' = settings s /\
      (forall p c, references c (strip_category d p) <->
                   references c p /\ c <> d).
Proof.
  intros s d Hok Hall.
  destruct (removeCategory_exact d s Hok Hall)
    as (s' & Hrun & Hpr & Hcat & Hpg & Hst & _ & Hobj).
  exists s'. split; [exact Hrun|].
  split; [unfold getCategory; rewrite Hcat; apply Map_get_delete|].
  split.
  { intros id Hne. unfold getCategory. rewrite Hcat.
    apply Map_get_delete_ne. congruence. }
  split; [unfold listProducts; now rewrite Hpr|].
  split.
  { unfold listProducts_objects. unfold listProducts at 1. rewrite Hpr.
    apply deref_all_map. intros r Hr. rewrite Hobj.
    now rewrite bool_decide_eq_true_2. }
  split.
  { intros id p Hp. unfold getProduct_object, getProduct in *. rewrite Hpr.
    destruct (Map_get id (products s)) as [r|] eqn:Hg; [|discriminate].
    rewrite Hobj, bool_decide_eq_true_2, Hp; [reflexivity|].
    apply list_elem_of_fmap. exists (id, r). split; [reflexivity|].
    now apply Map_get_elem. }
  split.
  { intros r Hr. rewrite Hobj. now rewrite bool_decide_eq_false_2. }
  split; [exact Hpg|]. split; [exact Hst|].
  intros p c. unfold strip_category, references.
  destruct p as [i n sl de pr cu me ai [ids|] ct]; simpl; [|tauto].
  unfold without. rewrite list_elem_of_In, List.filter_In, <- list_elem_of_In.
  destruct (String.eqb_spec c d) as [->|Hne]; simpl; intuition congruence.
Qed.

Lemma removeCategory_effect_witness :
  exists s',
    removeCategory "c1" demo_catalog = (JS.Normal tt, s') /\
    getCategory "c2" s' = getCategory "c2" demo_catalog /\
    listProducts_objects s'
      = map (strip_category "c1") (listProducts_objects demo_catalog).
Proof.
  destruct (removeCategory_effect demo_catalog "c1" store_ok_demo_catalog)
    as (s' & Hrun & _ & Hcat & _ & Hlist & _).
  { repeat constructor. discriminate. }
  exists s'. split; [exact Hrun|]. split; [|exact Hlist].
  apply Hcat. discriminate.
Defined.

Lemma DataStore_ext (s s' : DataStore) :
  objects s' = objects s -> products s' = products s ->
  categories s' = categories s -> pages s' = pages s ->
  settings s' = settings s -> s' = s.
Proof. destruct s, s'. simpl. now intros -> -> -> -> ->. Qed.

(** A step on an object that does not have the category changes nothing. *)
Lemma forEach_step_id (d : string) (k : string) (r : ref) (q : Product.t)
    (ids : list string) (s : DataStore) :
  store_ok s -> (k, r) ∈ products s ->
  objects s !! r = Some q -> Product.categoryIds q = Some ids ->
  strip_category d q = q ->
  forEach_step d r q ids s = s.
Proof.
  intros [Hnd Hk] Hin Hq Hids Hfix.
  assert (Product.set_categoryIds (Some (without d ids)) q = q) as Hq'.
  { unfold strip_category in Hfix. now rewrite Hids in Hfix. }
  destruct (Hk k r Hin) as (q0 & Hq0 & Hid).
  assert (q0 = q) as -> by congruence.
  unfold forEach_step. rewrite Hq'. apply DataStore_ext; simpl; try reflexivity.
  - now apply list_insert_id.
  - rewrite Hid. now apply Map_set_same.
Qed.

(** The loop leaves alone an object that does not have the category. *)
Lemma forEach_fixed (d : string) (entries : list (string * ref))
    (s s' : DataStore) (comp : JS.Completion unit) (r : ref) (q : Product.t) :
  removeCategory_forEach d entries s = (comp, s') ->
  objects s !! r = Some q -> strip_category d q = q ->
  objects s' !! r = Some q.
Proof.
  revert s. induction entries as [|[k0 r0] rest IH]; intros s H Hq Hfix.
  { now injection H as <- <-. }
  rewrite forEach_cons in H.
  destruct (objects s !! r0) as [product|] eqn:Ho; [|now apply (IH s)].
  destruct (Product.categoryIds product) as [ids|] eqn:Hc.
  2:{ now injection H as <- <-. }
  apply (IH _ H); [|exact Hfix]. unfold forEach_step. simpl.
  destruct (decide (r = r0)) as [->|Hne].
  - rewrite list_lookup_insert_eq by (eapply lookup_lt_Some; eauto).
    assert (product = q) as -> by congruence.
    unfold strip_category in Hfix. rewrite Hc in Hfix. now rewrite Hfix.
  - now rewrite list_lookup_insert_ne by congruence.
Qed.

Lemma forEach_first_step (d : string) (k0 : string) (r0 : ref)
    (product : Product.t) (ids : list string) (s : DataStore) :
  store_ok s -> (k0, r0) ∈ products s ->
  objects s !! r0 = Some product -> Product.categoryIds product = Some ids ->
  products (forEach_step d r0 product ids s) = products s /\
  store_ok (forEach_step d r0 product ids s).
Proof.
  intros Hok Hin Ho Hc.
  apply (forEach_keeps_products d [(k0, r0)] s _ (JS.Normal tt) Hok).
  - intros e He. apply list_elem_of_singleton in He as ->. exact Hin.
  - rewrite forEach_cons, Ho, Hc. reflexivity.
Qed.

(** Run again from the store it left, the loop does what it did and changes
    nothing. *)
Lemma forEach_again (d : string) (entries : list (string * ref))
    (s s' : DataStore) (comp : JS.Completion unit) :
  store_ok s -> (forall e, e ∈ entries -> e ∈ products s) ->
  removeCategory_forEach d entries s = (comp, s') ->
  removeCategory_forEach d entries s' = (comp, s').
Proof.
  revert s. induction entries as [|[k0 r0] rest IH]; intros s Hok Hsub H.
  { now injection H as <- <-. }
  assert (forall e, e ∈ rest -> e ∈ products s) as Hsub'.
  { intros e He. apply Hsub. now right. }
  destruct (forEach_keeps_products d _ s s' comp Hok Hsub H) as [Hpr Hok'].
  destruct (forEach_general _ _ _ _ _ H) as (Hlen & _).
  rewrite forEach_cons in H. rewrite forEach_cons.
  destruct (objects s !! r0) as [product|] eqn:Ho.
  2:{ assert (objects s' !! r0 = None) as ->.
      { apply lookup_ge_None. rewrite Hlen. now apply lookup_ge_None. }
      now apply (IH s). }
  destruct (Product.categoryIds product) as [ids|] eqn:Hc.
  2:{ injection H as <- <-. now rewrite Ho, Hc. }
  destruct (forEach_first_step d k0 r0 product ids s Hok
              (Hsub _ ltac:(left)) Ho Hc) as [Hpr2 Hok2].
  set (q := Product.set_categoryIds (Some (without d ids)) product).
  assert (strip_category d q = q) as Hfix.
  { subst q. unfold strip_category. destruct product. simpl in *.
    now rewrite without_without. }
  assert (objects s' !! r0 = Some q) as Hq.
  { apply (forEach_fixed _ _ _ _ _ _ _ H); [|exact Hfix].
    unfold forEach_step. simpl.
    apply list_lookup_insert_eq. eapply lookup_lt_Some; eauto. }
  rewrite Hq.
  assert (Product.categoryIds q = Some (without d ids)) as Hcq by reflexivity.
  rewrite Hcq.
  rewrite (forEach_step_id d k0 r0 q (without d ids) s' Hok'); try assumption.
  - apply (IH _ Hok2); [|exact H]. intros e He. rewrite Hpr2. now apply Hsub'.
  - rewrite Hpr. apply Hsub. left.
Qed.

(** A loop that meets no object with the category changes nothing. *)
Lemma forEach_unreferenced (d : string) (entries : list (string * ref))
    (s s' : DataStore) (comp : JS.Completion unit) :
  store_ok s -> (forall e, e ∈ entries -> e ∈ products s) ->
  (forall k r p, (k, r) ∈ entries -> objects s !! r = Some p ->
     ~ references d p) ->
  removeCategory_forEach d entries s = (comp, s') ->
  s' = s.
Proof.
  induction entries as [|[k0 r0] rest IH]; intros Hok Hsub Hun H.
  { now injection H as _ <-. }
  rewrite forEach_cons in H.
  assert (forall e, e ∈ rest -> e ∈ products s) as Hsub'.
  { intros e He. apply Hsub. now right. }
  assert (forall k r p, (k, r) ∈ rest -> objects s !! r = Some p ->
            ~ references d p) as Hun'.
  { intros k r p Hin. apply (Hun k r p). now right. }
  destruct (objects s !! r0) as [product|] eqn:Ho; [|now apply IH].
  destruct (Product.categoryIds product) as [ids|] eqn:Hc.
  2:{ now injection H as _ <-. }
  rewrite (forEach_step_id d k0 r0 product ids s Hok) in H;
    [now apply IH | apply Hsub; left | exact Ho | exact Hc|].
  apply strip_category_unreferenced. apply (Hun k0 r0 product); [left | exact Ho].
Qed.

(** X10.  Removing a category twice, or one that nothing refers to.  On a
    well-formed store, whether the call returns or throws: when no listed
    product refers to the category, [removeCategory] only deletes the
    category, and changes nothing when the store does not hold the category
    either; and a second call with the same identifier completes as the
    first did and changes nothing.  The call returns when every listed
    product has its [categoryIds]. *)
Theorem removeCategory_idempotent :
  forall (s : DataStore) (d : string),
    store_ok s ->
    (unreferenced d s ->
     snd (removeCategory d s)
       = set_categories (Map_delete d (categories s)) s) /\
    (unreferenced d s -> getCategory d s = None ->
     snd (removeCategory d s) = s) /\
    removeCategory d (snd (removeCategory d s)) = removeCategory d s /\
    (Forall (fun p => Product.categoryIds p <> None) (listProducts_objects s) ->
     fst (removeCategory d s) = JS.Normal tt).
Proof.
  intros s d Hok.
  set (s1 := set_categories (Map_delete d (categories s)) s).
  assert (store_ok s1) as Hok1 by exact Hok.
  assert (unreferenced d s -> snd (removeCategory d s) = s1) as Hclean.
  { intros Hun. unfold removeCategory. fold s1.
    destruct (removeCategory_forEach d (products s1) s1) as [comp s'] eqn:Hrun.
    simpl. apply (forEach_unreferenced d (products s1) s1 s' comp Hok1);
      [auto | | exact Hrun].
    intros k r p Hin Hp. exact (Hun k r p Hin Hp). }
  split; [exact Hclean|]. split; [|split].
  - intros Hun Hnone. rewrite (Hclean Hun). subst s1.
    unfold getCategory in Hnone. rewrite (Map_delete_absent _ _ Hnone).
    unfold set_categories. apply DataStore_eta.
  - unfold removeCategory at 2 3. fold s1.
    destruct (removeCategory_forEach d (products s1) s1) as [comp s'] eqn:Hrun.
    simpl snd.
    destruct (forEach_keeps_products d _ s1 s' comp Hok1 (fun e He => He) Hrun)
      as [Hpr _].
    destruct (forEach_general _ _ _ _ _ Hrun) as (_ & _ & _ & Hcat & _).
    unfold removeCategory.
    assert (set_categories (Map_delete d (categories s')) s' = s') as ->.
    { rewrite Hcat. subst s1. simpl. rewrite Map_delete_idem.
      replace (Map_delete d (categories s)) with (categories s')
        by (now rewrite Hcat).
      unfold set_categories. apply DataStore_eta. }
    rewrite Hpr.
    apply (forEach_again d (products s1) s1 s' comp Hok1); [auto | exact Hrun].
  - intros Hall.
    destruct (removeCategory_exact d s Hok Hall) as (s' & Hrun & _).
    now rewrite Hrun.
Qed.

Lemma removeCategory_idempotent_witness :
  let broken :=
    snd (updateProduct "p1"
           (ProductUpdate.mk None None None None None None None (Some None)
              None)
           demo_catalog) in
  snd (removeCategory "c9" demo_catalog) = demo_catalog /\
  fst (removeCategory "c9" demo_catalog) = JS.Normal tt /\
  removeCategory "c1" (snd (removeCategory "c1" demo_catalog))
    = removeCategory "c1" demo_catalog /\
  snd (removeCategory "c9" broken) = broken /\
  removeCategory "c1" (snd (removeCategory "c1" broken))
    = removeCategory "c1" broken.
Proof.
  intros broken.
  assert (store_ok broken) as Hbroken.
  { exact (store_ok_exec
             (OpUpdateProduct "p1"
                (ProductUpdate.mk None None None None None None None
                   (Some None) None))
             demo_catalog store_ok_demo_catalog). }
  destruct (removeCategory_idempotent demo_catalog "c9" store_ok_demo_catalog)
    as (_ & Hnone & _ & Hret).
  destruct (removeCategory_idempotent demo_catalog "c1" store_ok_demo_catalog)
    as (_ & _ & Hagain & _).
  destruct (removeCategory_idempotent broken "c9" Hbroken)
    as (_ & Hnone' & _ & _).
  destruct (removeCategory_idempotent broken "c1" Hbroken)
    as (_ & _ & Hagain' & _).
  split; [|split; [|split; [|split]]].
  - apply Hnone; [|reflexivity].
    intros k r p Hin Hp Href.
    change (products demo_catalog) with [("p1", 0)] in Hin.
    apply list_elem_of_singleton in Hin as [= -> ->].
    change (objects demo_catalog !! 0) with (Some demo_catalog_product) in Hp.
    injection Hp as <-. unfold references in Href. simpl in Href.
    apply elem_of_cons in Href as [Href | Href]; [discriminate|].
    apply list_elem_of_singleton in Href. discriminate.
  - apply Hret. repeat constructor. discriminate.
  - exact Hagain.
  - apply Hnone'; [|reflexivity].
    intros k r p Hin Hp Href.
    change (products broken) with [("p1", 1)] in Hin.
    apply list_elem_of_singleton in Hin as [= -> ->].
    vm_compute in Hp. injection Hp as <-. exact Href.
  - exact Hagain'.
Defined.

(** X11.  [removeCategory] is not atomic.  When a listed product has no
    [categoryIds] (an update bound the key to [undefined]), the call throws
    a [TypeError]; the category is deleted all the same, and the products
    map, the pages and the settings are as before. *)
Theorem removeCategory_throws_without_categoryIds :
  forall (s : DataStore) (d : string),
    store_ok s ->
    Exists (fun p => Product.categoryIds p = None) (listProducts_objects s) ->
    exists s',
      removeCategory d s = (JS.Throw JS.TypeError, s') /\
      getCategory d s' = None /\
      (forall id, id <> d -> getCategory id s' = getCategory id s) /\
      products s' = products s /\
      pages s' = pages s /\ settings s' = settings s.
Proof.
  intros s d Hok Hex.
  apply Exists_exists in Hex as (p & Hin & Hnone).
  apply elem_of_deref_all in Hin as (r & Hr & Hp).
  apply list_elem_of_fmap in Hr as ([k r0] & -> & Hin). simpl in Hp.
  unfold removeCategory.
  set (s1 := set_categories (Map_delete d (categories s)) s).
  destruct (forEach_throws d (products s1) s1 k r0 p Hin Hp Hnone)
    as (s' & Hrun).
  exists s'. split; [exact Hrun|].
  destruct (forEach_keeps_products d (products s1) s1 s' _ Hok
              ltac:(auto) Hrun) as [Hpr _].
  destruct (forEach_general _ _ _ _ _ Hrun) as (_ & _ & _ & Hc & Hpg & Hst).
  unfold getCategory. rewrite Hc. simpl.
  split; [apply Map_get_delete|].
  split; [intros id Hne; apply Map_get_delete_ne; congruence|].
  now repeat split.
Qed.

Lemma removeCategory_throws_without_categoryIds_witness :
  let s := snd (updateProduct "p1"
                  (ProductUpdate.mk None None None None None None None
                     (Some None) None)
                  demo_catalog) in
  exists s',
    removeCategory "c1" s = (JS.Throw JS.TypeError, s') /\
    getCategory "c1" s = Some (Category.mk "c1" (Some "Apparel") (Some "apparel")
                                 (Some "Clothing") None) /\
    getCategory "c1" s' = None.
Proof.
  intros s.
  destruct (removeCategory_throws_without_categoryIds s "c1")
    as (s' & Hrun & Hgone & _).
  - exact (store_ok_exec
             (OpUpdateProduct "p1"
                (ProductUpdate.mk None None None None None None None
                   (Some None) None))
             demo_catalog store_ok_demo_catalog).
  - apply Exists_cons_hd. reflexivity.
  - exists s'. split; [exact Hrun|]. split; [reflexivity | exact Hgone].
Defined.

(** ** The identifiers of a store built by its operations *)

Lemma entities_ok_set {V : Type} (id_of : V -> string) (k : string) (v : V)
    (m : list (string * V)) :
  entities_ok id_of m -> id_of v = k -> entities_ok id_of (Map_set k v m).
Proof.
  intros [Hnd Hid] Hv. split.
  - rewrite Map_set_keys. case_bool_decide as Hin; [exact Hnd|].
    apply NoDup_app. split; [exact Hnd|]. split.
    + intros x Hx Hx'. apply list_elem_of_singleton in Hx'. now subst.
    + apply NoDup_singleton.
  - intros k' v' Hin. apply Map_set_elem in Hin as [Hin | [-> ->]];
      [now apply Hid | exact Hv].
Qed.

Lemma entities_ok_delete {V : Type} (id_of : V -> string) (k : string)
    (m : list (string * V)) :
  entities_ok id_of m -> entities_ok id_of (Map_delete k m).
Proof.
  intros [Hnd Hid]. split.
  - rewrite Map_delete_keys. rewrite NoDup_ListNoDup in *.
    now apply List.NoDup_filter.
  - intros k' v' Hin. apply Map_delete_elem in Hin as [Hin _]. now apply Hid.
Qed.

Lemma entities_ok_ids {V : Type} (id_of : V -> string) (m : list (string * V)) :
  entities_ok id_of m ->
  map id_of (Map_values m) = map fst m /\
  forall k v, Map_get k m = Some v -> id_of v = k.
Proof.
  intros [_ Hid]. split.
  - unfold Map_values. induction m as [|[k v] m IH]; [reflexivity|].
    simpl. rewrite (Hid k v) by left. f_equal. apply IH.
    intros k' v' Hin. apply Hid. now right.
  - intros k v Hg. apply Hid. now apply Map_get_elem.
Qed.

Lemma ids_ok_exec (op : Op) (s : DataStore) : ids_ok s -> ids_ok (exec op s).
Proof.
  intros (Hs & Hc & Hg).
  split; [now apply store_ok_exec|].
  destruct op; simpl; try (split; assumption).
  - split; [|exact Hg]. now apply entities_ok_set.
  - unfold updateCategory.
    destruct (Map_get id (categories s)) as [c|] eqn:E; [|now split].
    split; [|exact Hg]. simpl. apply entities_ok_set; [exact Hc|].
    destruct (JS.truthy_opt_string _); simpl;
      exact (proj2 (entities_ok_ids _ _ Hc) id c E).
  - unfold removeCategory.
    destruct (removeCategory_forEach id _ _) as [comp s'] eqn:E.
    destruct (forEach_general _ _ _ _ _ E) as (_ & _ & _ & Hc' & Hg' & _).
    simpl. rewrite Hc', Hg'. simpl. split; [|exact Hg].
    now apply entities_ok_delete.
  - unfold updateProduct. destruct (getProduct_object id s); now split.
  - split; [exact Hc|]. now apply entities_ok_set.
  - unfold updatePage.
    destruct (Map_get id (pages s)) as [g|] eqn:E; [|now split].
    split; [exact Hc|]. simpl. apply entities_ok_set; [exact Hg|].
    destruct (_ && _), (JS.truthy_opt_string _); simpl;
      exact (proj2 (entities_ok_ids _ _ Hg) id g E).
  - split; [exact Hc|]. now apply entities_ok_delete.
Qed.

Lemma listProducts_objects_ids (s : DataStore) :
  keys_are_ids s ->
  map Product.id (listProducts_objects s) = map fst (products s).
Proof.
  unfold keys_are_ids, listProducts_objects, listProducts, Map_values.
  generalize (objects s) as h. generalize (products s) as m.
  induction m as [|[k r] m IH]; intros h Hk; [reflexivity|].
  change (map snd ((k, r) :: m)) with (r :: map snd m).
  rewrite deref_all_cons.
  destruct (Hk k r ltac:(left)) as (p & -> & Hid).
  change (map fst ((k, r) :: m)) with (k :: map fst m).
  rewrite map_cons, Hid. f_equal.
  apply IH. intros k' r' Hin. apply Hk. now right.
Qed.

(** X12.  Identifiers in a store built by its operations.  Whatever
    operations ran, with whatever identifiers were drawn: no two listed
    categories, products or pages have the same [id]; what is read under an
    identifier has that [id]; and every entry of the products map has its
    object. *)
Theorem reachable_ids_unique :
  forall (year : string) (ops : list Op),
    let s := exec_all ops (new_DataStore year) in
    NoDup (map Category.id (listCategories s)) /\
    NoDup (map Product.id (listProducts_objects s)) /\
    NoDup (map CustomPage.id (listPages s)) /\
    (forall id c, getCategory id s = Some c -> Category.id c = id) /\
    (forall id p, getProduct_object id s = Some p -> Product.id p = id) /\
    (forall id g, Map_get id (pages s) = Some g -> CustomPage.id g = id) /\
    length (listProducts_objects s) = length (listProducts s).
Proof.
  intros year ops s.
  assert (ids_ok s) as ((Hnd & Hk) & Hc & Hg).
  { subst s. assert (ids_ok (new_DataStore year)) as H0.
    { split; [apply store_ok_new|].
      split; (split; [apply NoDup_nil_2 | intros k v Hin; inversion Hin]). }
    revert H0. generalize (new_DataStore year).
    induction ops as [|op ops IH]; intros t Ht; [exact Ht|].
    simpl. apply IH. now apply ids_ok_exec. }
  destruct (entities_ok_ids _ _ Hc) as [Hcl Hcg].
  destruct (entities_ok_ids _ _ Hg) as [Hgl Hgg].
  split; [unfold listCategories; rewrite Hcl; apply Hc|].
  split; [rewrite (listProducts_objects_ids s Hk); exact Hnd|].
  split; [unfold listPages; rewrite Hgl; apply Hg|].
  split; [exact Hcg|].
  split; [intros id p; now apply getProduct_object_id|].
  split; [exact Hgg|].
  rewrite <- (length_map Product.id), (listProducts_objects_ids s Hk).
  unfold listProducts, Map_values. now rewrite !length_map.
Qed.

(** ** Pages by slug *)

Lemma find_app {A : Type} (f : A -> bool) (l1 l2 : list A) :
  List.find f (l1 ++ l2) =
    match List.find f l1 with
    | Some x => Some x
    | None => List.find f l2
    end.
Proof.
  induction l1 as [|x l1 IH]; simpl; [reflexivity|]. now destruct (f x).
Qed.

Lemma find_ext_in {A : Type} (f g : A -> bool) (l : list A) :
  (forall x, x ∈ l -> f x = g x) -> List.find f l = List.find g l.
Proof.
  induction l as [|x l IH]; intros H; simpl; [reflexivity|].
  rewrite (H x) by left. destruct (g x); [reflexivity|].
  apply IH. intros y Hy. apply H. now right.
Qed.

Lemma find_first {A : Type} (f : A -> bool) (l : list A) (x : A) :
  List.find f l = Some x ->
  f x = true /\
  exists l1 l2, l = l1 ++ x :: l2 /\ forall y, y ∈ l1 -> f y = false.
Proof.
  induction l as [|a l IH]; simpl; [discriminate|].
  destruct (f a) eqn:E.
  - intros [= ->]. split; [exact E|]. exists [], l. split; [reflexivity|].
    intros y Hy. now apply elem_of_nil in Hy.
  - intros H. destruct (IH H) as (Hx & l1 & l2 & -> & Hl1).
    split; [exact Hx|]. exists (a :: l1), l2. split; [reflexivity|].
    intros y Hy. apply elem_of_cons in Hy as [-> | Hy]; auto.
Qed.



(** X14.  Slugs are not kept unique.  An entity created under a new
    identifier never hides an older one: a slug that found a product or a
    page before [createProduct] or [createPage] finds the same one after,
    and the new entity is found by its slug only when that slug found
    nothing before. *)
Theorem create_never_shadows :
  (forall (s : DataStore) (uuid : string) (input : ProductInput.t),
     keys_are_ids s -> getProduct uuid s = None ->
     let r' := fst (createProduct uuid input s) in
     let s' := snd (createProduct uuid input s) in
     exists p',
       objects s' !! r' = Some p' /\
       forall slug,
         find_product_by_slug slug s' =
           match find_product_by_slug slug s with
           | Some r => Some r
           | None =>
               if bool_decide (Product.slug p' = Some slug) then Some r'
               else None
           end) /\
  (forall (s : DataStore) (uuid : string) (input : PageInput.t),
     Map_get uuid (pages s) = None ->
     let g' := fst (createPage uuid input s) in
     let s' := snd (createPage uuid input s) in
     forall slug,
       getPageBySlug slug s' =
         match getPageBySlug slug s with
         | Some g => Some g
         | None =>
             if bool_decide (CustomPage.slug g' = Some slug) then Some g'
             else None
         end).
Proof.
  split.
  - intros s uuid input Hk Hfresh r' s'.
    destruct (createProduct uuid input s) as [r0 s0] eqn:Hc.
    simpl in r', s'. subst r' s'.
    unfold createProduct in Hc. injection Hc as <- <-.
    eexists. split.
    { simpl. rewrite lookup_app_r by lia. now rewrite Nat.sub_diag. }
    intros slug. unfold find_product_by_slug, listProducts, Map_values.
    simpl products. simpl objects.
    unfold getProduct in Hfresh.
    rewrite (Map_set_fresh _ _ _ Hfresh), map_app, find_app.
    set (new := Product.mk _ _ _ _ _ _ _ _ _ _).
    rewrite (find_ext_in _
               (fun r => match objects s !! r with
                         | Some product =>
                             bool_decide (Product.slug product = Some slug)
                         | None => false
                         end)).
    2:{ intros r Hr. apply list_elem_of_fmap in Hr as ([k r1] & -> & Hin).
        destruct (Hk k r1 Hin) as (q & Hq & _). simpl.
        now rewrite (lookup_app_l_Some _ _ _ _ Hq), Hq. }
    destruct (List.find _ (map snd (products s))); [reflexivity|].
    simpl. rewrite lookup_app_r by lia. rewrite Nat.sub_diag. simpl.
    now destruct (bool_decide _).
  - intros s uuid input Hfresh g' s' slug. subst g' s'.
    unfold getPageBySlug, createPage, Map_values. simpl.
    rewrite (Map_set_fresh _ _ _ Hfresh), map_app, find_app.
    destruct (List.find _ (map snd (pages s))); [reflexivity|].
    simpl. now destruct (bool_decide _).
Qed.

Lemma create_never_shadows_witness :
  let same := ProductInput.mk "Organic Cotton T-Shirt" None "A second one."
                12%float "USD" [] [] [] (Some "") in
  let s' := snd (createProduct "p2" same demo_store) in
  getProduct "p2" s' = Some 1 /\
  find_product_by_slug "organic-cotton-t-shirt" s' = Some 0 /\
  get_product_page "organic-cotton-t-shirt" s'
    = ProductView "products/detail.njk" 0 /\
  getPageBySlug "about-us"
    (snd (createPage "g2" (PageInput.mk "About us!" None "" "custom-page.njk")
            demo_pages))
    = getPageBySlug "about-us" demo_pages.
Proof.
  intros same s'.
  destruct create_never_shadows as [Hp Hg].
  destruct (Hp demo_store "p2" same (proj2 store_ok_demo_store) eq_refl)
    as (p' & _ & Hfind).
  assert (find_product_by_slug "organic-cotton-t-shirt" s' = Some 0) as H0.
  { subst s'. rewrite (Hfind "organic-cotton-t-shirt"). reflexivity. }
  split; [reflexivity|]. split; [exact H0|]. split.
  - unfold get_product_page. rewrite H0. reflexivity.
  - rewrite (Hg demo_pages "g2"
               (PageInput.mk "About us!" None "" "custom-page.njk") eq_refl
               "about-us").
    reflexivity.
Defined.

(** ** Reading a cookie *)

Lemma split_on_no_sep (sep : ascii) (t : string) :
  has_char sep t = false -> split_on sep t = [t].
Proof.
  induction t as [|c t IH]; simpl; [reflexivity|].
  destruct (Ascii.eqb c sep); [discriminate|]. simpl.
  intros H. now rewrite IH.
Qed.

Lemma split_on_app (sep : ascii) (t u : string) :
  has_char sep t = false ->
  split_on sep (t +:+ String sep u) = t :: split_on sep u.
Proof.
  induction t as [|c t IH]; simpl.
  - intros _. now rewrite Ascii.eqb_refl.
  - destruct (Ascii.eqb c sep); [discriminate|]. simpl.
    intros H. now rewrite IH.
Qed.

Lemma split_on_header (t : string) (texts : list string) :
  Forall (fun text => has_char ";" text = false) (t :: texts) ->
  split_on ";" (String.concat "; " (t :: texts))
  = t :: map (String " ") texts.
Proof.
  revert t. induction texts as [|t' texts IH]; intros t H.
  - simpl. apply split_on_no_sep. now inversion H.
  - apply Forall_cons in H as [Ht H].
    change (String.concat "; " (t :: t' :: texts))
      with (t +:+ String ";" (String " " (String.concat "; " (t' :: texts)))).
    rewrite (split_on_app _ _ _ Ht).
    replace (String " " (String.concat "; " (t' :: texts)))
      with (String.concat "; " (String " " t' :: texts))
      by (now destruct texts).
    rewrite IH; [reflexivity|].
    apply Forall_cons in H as [Ht' H]. apply Forall_cons. now split.
Qed.

Lemma trim_space (t : string) : trim (String " " t) = trim t.
Proof. reflexivity. Qed.

Lemma has_char_app (c : ascii) (t u : string) :
  has_char c (t +:+ u) = has_char c t || has_char c u.
Proof.
  induction t as [|a t IH]; simpl; [reflexivity|].
  now rewrite IH, orb_assoc.
Qed.

Lemma append_cons (c : ascii) (t u : string) :
  String c t +:+ u = String c (t +:+ u).
Proof. reflexivity. Qed.

Lemma append_nil (u : string) : "" +:+ u = u.
Proof. reflexivity. Qed.

Lemma prefix_cookie_name (name n v : string) :
  has_char "=" name = false -> has_char "=" n = false ->
  String.prefix (name +:+ "=") (n +:+ "=" +:+ v) = String.eqb n name.
Proof.
  revert n. induction name as [|a name IH]; intros n Hname Hn.
  - destruct n as [|c n]; rewrite ?append_cons, ?append_nil;
      cbn [String.prefix String.eqb has_char] in *.
    + destruct (ascii_dec "=" "="); [now destruct v | congruence].
    + destruct (ascii_dec "=" c) as [<-|Hne]; [discriminate | reflexivity].
  - cbn [has_char] in Hname. apply orb_false_elim in Hname as [Ha Hname].
    destruct n as [|c n]; rewrite ?append_cons, ?append_nil;
      cbn [String.prefix String.eqb has_char] in *.
    + destruct (ascii_dec a "=") as [->|Hne]; [discriminate | reflexivity].
    + apply orb_false_elim in Hn as [_ Hn].
      destruct (ascii_dec a c) as [->|Hne].
      * rewrite Ascii.eqb_refl. now apply IH.
      * destruct (Ascii.eqb_spec c a) as [->|_]; [contradiction | reflexivity].
Qed.

Lemma slice_cookie_name (name v : string) :
  slice (String.length name + 1) (name +:+ "=" +:+ v) = v.
Proof. induction name as [|a name IH]; simpl; [reflexivity | exact IH]. Qed.

Lemma find_map {A B : Type} (f : B -> bool) (g : A -> B) (l : list A) :
  List.find f (map g l) = g <$> List.find (fun x => f (g x)) l.
Proof.
  induction l as [|x l IH]; simpl; [reflexivity|]. now destruct (f (g x)).
Qed.

Lemma cookie_header_cookies (pairs : list (string * string)) :
  pairs <> [] ->
  Forall (fun pair => cookie_ok pair = true) pairs ->
  JS.truthy_opt_string (Some (cookie_header pairs)) = true /\
  map trim (split_on ";" (cookie_header pairs)) = map cookie_text pairs.
Proof.
  intros Hne Hok. destruct pairs as [|pair pairs]; [contradiction|]. clear Hne.
  assert (Forall (fun pair => has_char ";" (cookie_text pair) = false
                              /\ trim (cookie_text pair) = cookie_text pair)
                 (pair :: pairs)) as Hall.
  { eapply Forall_impl; [exact Hok|]. intros [n v] H. unfold cookie_ok in H.
    simpl in H. repeat (apply andb_prop in H as [H ?]).
    apply negb_true_iff in H. split; [|now apply String.eqb_eq].
    unfold cookie_text. simpl. rewrite !has_char_app. simpl.
    rewrite H. now destruct (has_char ";" v). }
  split.
  - unfold cookie_header, JS.truthy_opt_string, JS.truthy_string.
    destruct pair as [[|c n] v], pairs; reflexivity.
  - unfold cookie_header.
    change (map cookie_text (pair :: pairs))
      with (cookie_text pair :: map cookie_text pairs).
    rewrite split_on_header.
    2:{ change (Forall (fun text => has_char ";" text = false)
                  (cookie_text <$> pair :: pairs)).
        apply Forall_fmap. eapply Forall_impl; [exact Hall|].
        now intros t [Ht _]. }
    apply Forall_cons in Hall as [[_ Ht] Hall]. rewrite map_cons, Ht. f_equal.
    clear -Hall. induction Hall as [|p l [_ Hp] _ IH]; [reflexivity|].
    rewrite !map_cons, trim_space, Hp. f_equal. exact IH.
Qed.

(** X15.  [getCookieValue] reads the first cookie of that name.  For a
    header [n1=v1; n2=v2; ...] made of cookies without [;], without [=] in
    their names and without white space around them, and a name without
    [=]: the result is the decoded value of the first cookie with exactly
    that name, and [undefined] when there is none or when the value does not
    decode. *)
Theorem getCookieValue_reads_first :
  forall (decodeURIComponent : string -> JS.Completion string)
         (pairs : list (string * string)) (name : string),
    Forall (fun pair => cookie_ok pair = true) pairs ->
    has_char "=" name = false ->
    getCookieValue decodeURIComponent (Some (cookie_header pairs)) name =
      match List.find (fun pair => String.eqb (fst pair) name) pairs with
      | Some found =>
          match decodeURIComponent (snd found) with
          | JS.Normal value => Some value
          | JS.Throw _ => None
          end
      | None => None
      end.
Proof.
  intros decode pairs name Hok Hname.
  destruct pairs as [|pair0 pairs0] eqn:Hpairs; [reflexivity|].
  rewrite <- Hpairs in *.
  destruct (cookie_header_cookies pairs) as [Htruthy Hcookies];
    [now rewrite Hpairs | exact Hok|].
  unfold getCookieValue. rewrite Htruthy. simpl negb. cbv iota.
  change (default "" (Some (cookie_header pairs))) with (cookie_header pairs).
  rewrite Hcookies, find_map.
  rewrite (find_ext_in _ (fun pair => String.eqb (fst pair) name)).
  2:{ intros [n v] Hin. rewrite Forall_forall in Hok.
      specialize (Hok _ Hin). unfold cookie_ok in Hok. simpl in Hok.
      repeat (apply andb_prop in Hok as [Hok ?]).
      unfold cookie_text. simpl. apply prefix_cookie_name; [exact Hname|].
      now apply negb_true_iff. }
  destruct (List.find _ pairs) as [[n v]|] eqn:Hf; [|reflexivity].
  simpl. apply find_first in Hf as [Hn _]. simpl in Hn.
  apply String.eqb_eq in Hn. subst n. unfold cookie_text. simpl.
  now rewrite slice_cookie_name.
Qed.

Lemma getCookieValue_reads_first_witness :
  getCookieValue JS.Normal
    (Some (cookie_header [("theme", "dark"); ("cart", "[]"); ("cart", "x")]))
    "cart" = Some "[]" /\
  getCookieValue (fun _ => JS.Throw JS.TypeError)
    (Some (cookie_header [("xcart", "1"); ("cart", "%")])) "cart" = None.
Proof.
  split.
  - apply (getCookieValue_reads_first JS.Normal
             [("theme", "dark"); ("cart", "[]"); ("cart", "x")] "cart");
      [repeat constructor | reflexivity].
  - apply (getCookieValue_reads_first (fun _ => JS.Throw JS.TypeError)
             [("xcart", "1"); ("cart", "%")] "cart");
      [repeat constructor | reflexivity].
Defined.

(** ** The additional information of a product form *)

Lemma parseAdditionalInfo_callback_string (vl : list BodyValue)
    (info : gmap string BodyValue) (s : string) (idx : nat) :
  parseAdditionalInfo_callback vl info (BString s) idx =
    JS.Normal (if bool_decide (trim s <> "" /\ trim s <> "__proto__")
               then <[trim s := value_at vl idx]> info
               else info).
Proof.
  unfold parseAdditionalInfo_callback, JS.truthy_string.
  destruct (String.eqb_spec (trim s) "") as [E|E]; simpl.
  { rewrite bool_decide_eq_false_2; [reflexivity | tauto]. }
  destruct (String.eqb_spec (trim s) "__proto__") as [E'|E'].
  { rewrite bool_decide_eq_false_2; [reflexivity | tauto]. }
  now rewrite bool_decide_eq_true_2.
Qed.

Lemma parseAdditionalInfo_forEach_spec (vl keyList : list BodyValue) :
  forall (idx : nat) (info0 info : gmap string BodyValue),
    parseAdditionalInfo_forEach vl idx keyList info0 = JS.Normal info ->
    forall k v,
      info !! k = Some v <->
      ((k <> "" /\ k <> "__proto__") /\
       exists i key,
         keyList !! i = Some (BString key) /\ trim key = k /\
         v = value_at vl (idx + i) /\
         forall j key', i < j -> keyList !! j = Some (BString key') ->
                        trim key' <> k)
      \/ (info0 !! k = Some v /\
          forall j key', keyList !! j = Some (BString key') -> trim key' = k ->
                         ~ (k <> "" /\ k <> "__proto__")).
Proof.
  induction keyList as [|key rest IH]; intros idx info0 info H k v.
  - injection H as <-. split.
    + intros Hv. right. split; [exact Hv|]. intros j key' Hj.
      rewrite lookup_nil in Hj. discriminate.
    + intros [[_ (i & key & Hi & _)] | [Hv _]]; [|exact Hv].
      rewrite lookup_nil in Hi. discriminate.
  - cbn [parseAdditionalInfo_forEach] in H.
    destruct key as [|s| |]; try discriminate.
    rewrite parseAdditionalInfo_callback_string in H.
    rewrite (IH (S idx) _ info H k v). clear IH H. split.
    + intros [[Hg (i & key & Hi & Ht & Hv & Hlast)] | [Hv Hno]].
      * left. split; [exact Hg|]. exists (S i), key.
        split; [exact Hi|]. split; [exact Ht|].
        split; [rewrite Hv; f_equal; lia|].
        intros j key' Hj Hk'. destruct j as [|j]; [lia|].
        apply (Hlast j key'); [lia | exact Hk'].
      * case_bool_decide as Hgood.
        -- destruct (decide (k = trim s)) as [->|Hne].
           ++ rewrite lookup_insert_eq in Hv. injection Hv as <-.
              left. split; [exact Hgood|]. exists 0, s.
              split; [reflexivity|]. split; [reflexivity|].
              split; [now rewrite Nat.add_0_r|].
              intros j key' Hj Hk' Heq. destruct j as [|j]; [lia|].
              now apply (Hno j key' Hk' Heq).
           ++ rewrite lookup_insert_ne in Hv by congruence.
              right. split; [exact Hv|]. intros j key' Hj Heq.
              destruct j as [|j]; [|now apply (Hno j key' Hj Heq)].
              injection Hj as <-. congruence.
        -- right. split; [exact Hv|]. intros j key' Hj Heq.
           destruct j as [|j]; [|now apply (Hno j key' Hj Heq)].
           injection Hj as <-. now rewrite <- Heq.
    + intros [[Hg (i & key & Hi & Ht & Hv & Hlast)] | [Hv Hno]].
      * destruct i as [|i].
        -- injection Hi as <-. right.
           rewrite bool_decide_eq_true_2 by (now rewrite Ht).
           rewrite Ht, lookup_insert_eq.
           split; [rewrite Hv; now rewrite Nat.add_0_r|].
           intros j key' Hj Heq _.
           apply (Hlast (S j) key'); [lia | exact Hj | exact Heq].
        -- left. split; [exact Hg|]. exists i, key.
           split; [exact Hi|]. split; [exact Ht|].
           split; [rewrite Hv; f_equal; lia|].
           intros j key' Hj Hk'. apply (Hlast (S j) key'); [lia | exact Hk'].
      * right. split.
        -- case_bool_decide as Hgood; [|exact Hv].
           rewrite lookup_insert_ne; [exact Hv|]. intros Heq.
           apply (Hno 0 s eq_refl Heq). now rewrite <- Heq.
        -- intros j key' Hj Heq. now apply (Hno (S j) key' Hj Heq).
Qed.

Lemma parseAdditionalInfo_forEach_returns (vl keyList : list BodyValue) :
  Forall (fun key => is_string key = true) keyList ->
  forall idx info0,
    exists info,
      parseAdditionalInfo_forEach vl idx keyList info0 = JS.Normal info.
Proof.
  induction 1 as [|key rest Hkey _ IH]; intros idx info0; [now exists info0|].
  destruct key as [|s| |]; try discriminate.
  cbn [parseAdditionalInfo_forEach].
  rewrite parseAdditionalInfo_callback_string. apply IH.
Qed.

Lemma parseAdditionalInfo_forEach_throws (vl keyList : list BodyValue) :
  Exists (fun key => is_string key = false) keyList ->
  forall idx info0,
    parseAdditionalInfo_forEach vl idx keyList info0 = JS.Throw JS.TypeError.
Proof.
  induction keyList as [|key rest IH]; intros Hex idx info0.
  { inversion Hex. }
  cbn [parseAdditionalInfo_forEach].
  destruct key as [|s| |]; try reflexivity.
  rewrite parseAdditionalInfo_callback_string. apply IH.
  inversion Hex as [? ? Hk | ? ? Hk]; [discriminate | exact Hk].
Qed.

(** X16.  The additional information read from a product form.  When
    every key is a string the call returns, and the object has the property
    [k] exactly when [k] is not empty, is not [__proto__], and is some key
    trimmed; its value is the one at the position of the last such key, the
    empty string when there is no value there.  When some key is not a
    string the call throws a [TypeError]. *)
Theorem parseAdditionalInfo_last_key_wins :
  forall keys values : BodyValue,
    (Forall (fun key => is_string key = true) (ensureArray keys) ->
     exists info,
       parseAdditionalInfo keys values = JS.Normal info /\
       forall k v,
         info !! k = Some v <->
         k <> "" /\ k <> "__proto__" /\
         exists i key,
           ensureArray keys !! i = Some (BString key) /\ trim key = k /\
           v = value_at (ensureArray values) i /\
           forall j key', i < j ->
             ensureArray keys !! j = Some (BString key') -> trim key' <> k) /\
    (Exists (fun key => is_string key = false) (ensureArray keys) ->
     parseAdditionalInfo keys values = JS.Throw JS.TypeError).
Proof.
  intros keys values. split.
  - intros Hall. unfold parseAdditionalInfo.
    destruct (parseAdditionalInfo_forEach_returns (ensureArray values)
                (ensureArray keys) Hall 0 ∅) as (info & Hrun).
    exists info. split; [exact Hrun|]. intros k v.
    rewrite (parseAdditionalInfo_forEach_spec _ _ 0 ∅ info Hrun k v).
    split.
    + intros [[[Hk1 Hk2] Hex] | [Hv _]].
      * split; [exact Hk1|]. split; [exact Hk2|]. exact Hex.
      * rewrite lookup_empty in Hv. discriminate.
    + intros (Hk1 & Hk2 & Hex). left. split; [now split | exact Hex].
  - intros Hex. now apply parseAdditionalInfo_forEach_throws.
Qed.

Lemma parseAdditionalInfo_last_key_wins_witness :
  (exists info,
     parseAdditionalInfo
       (BArray [BString " Material"; BString "  "; BString "Material ";
                BString "Fit"])
       (BArray [BString "Wool"; BString "lost"; BString "Cotton"]) = JS.Normal info /\
     info !! "Material" = Some (BString "Cotton") /\
     info !! "Fit" = Some (BString "") /\
     info !! "" = None) /\
  parseAdditionalInfo (BArray [BString "Material"; BArray [BString "Fit"]])
    (BArray [BString "Wool"; BString "Slim"]) = JS.Throw JS.TypeError.
Proof.
  destruct (parseAdditionalInfo_last_key_wins
              (BArray [BString " Material"; BString "  "; BString "Material ";
                       BString "Fit"])
              (BArray [BString "Wool"; BString "lost"; BString "Cotton"]))
    as [Hok _].
  destruct (parseAdditionalInfo_last_key_wins
              (BArray [BString "Material"; BArray [BString "Fit"]])
              (BArray [BString "Wool"; BString "Slim"]))
    as [_ Hthrow].
  split.
  - destruct Hok as (info & Hrun & Hinfo); [repeat constructor|].
    exists info. split; [exact Hrun|]. split; [|split].
    + apply Hinfo. split; [discriminate|]. split; [discriminate|].
      exists 2, "Material ". split; [reflexivity|]. split; [reflexivity|].
      split; [reflexivity|].
      intros j key' Hj Hk'. destruct j as [|[|[|[|j]]]]; try lia.
      * injection Hk' as <-. discriminate.
      * discriminate.
    + apply Hinfo. split; [discriminate|]. split; [discriminate|].
      exists 3, "Fit". split; [reflexivity|]. split; [reflexivity|].
      split; [reflexivity|].
      intros j key' Hj Hk'. destruct j as [|[|[|[|j]]]]; try lia. discriminate.
    + destruct (info !! "") as [v|] eqn:E; [|reflexivity].
      apply Hinfo in E as [E _]. now contradiction E.
  - apply Hthrow. apply Exists_cons_tl, Exists_cons_hd. reflexivity.
Defined.

(** ** The cart across requests *)

Section CartMore.
Context {host : Host}.


End CartMore.



(** X18.  [parseCartItems] decodes once per request.  A second call on the
    same request returns the same array and changes nothing; the first call
    changes neither the store nor the response nor the cookie of the
    request, and leaves every cart item that existed as it was. *)
Theorem parseCartItems_decodes_once :
  forall (host : Host) (w : World),
    let w1 := snd (parseCartItems w) in
    parseCartItems w1 = (fst (parseCartItems w), w1) /\
    store w1 = store w /\ res w1 = res w /\
    cart_cookie (req w1) = cart_cookie (req w) /\
    (forall r item, cart_objects w !! r = Some item ->
                    cart_objects w1 !! r = Some item).
Proof.
  intros host w w1.
  destruct (parseCartItems_returns w) as (refs & extra & [H | (H & Hc & _)]).
  - subst w1. rewrite H. simpl fst. simpl snd.
    split; [now apply parseCartItems_cached|].
    split; [reflexivity|]. split; [reflexivity|]. split; [reflexivity|].
    intros r item Hr. simpl. now apply lookup_app_l_Some.
  - subst w1. rewrite H. simpl fst. simpl snd.
    split; [now apply parseCartItems_cached|]. now repeat split.
Qed.

(** X19.  The handlers that only read.  The middleware that counts the
    cart and [GET /cart] return normally, never set the cart cookie and
    never change the store; the counter is the sum of the quantities of the
    decoded cart, in order from [0], whether or not the products still
    exist. *)
Theorem reading_handlers_write_nothing :
  forall (host : Host) (w : World),
    (exists w' cart,
       cart_count_middleware w = (JS.Normal tt, w') /\
       decoded w = JS.Normal cart /\
       cartItemCount (res w')
         = Some (fold_left PrimFloat.add (map CartItem.quantity cart) 0%float) /\
       set_cookie (res w') = set_cookie (res w) /\
       sent (res w') = sent (res w) /\
       store w' = store w /\
       decoded w' = JS.Normal cart) /\
    (exists w',
       get_cart w = (JS.Normal tt, w') /\
       set_cookie (res w') = set_cookie (res w) /\
       cartItemCount (res w') = cartItemCount (res w) /\
       store w' = store w /\
       decoded w' = decoded w).
Proof.
  intros host w.
  assert (forall (l : list CartItem.t) (a : float),
            fold_left (fun total item => PrimFloat.add total (CartItem.quantity item))
                      l a
            = fold_left PrimFloat.add (map CartItem.quantity l) a) as Hfold.
  { induction l as [|x l IH]; intros a; simpl; [reflexivity | apply IH]. }
  destruct (parseCartItems_returns w) as (refs & extra & [H | (H & Hc & _)]).
  - split.
    + unfold cart_count_middleware, get_cart, decoded, bindM, modify.
      rewrite H. simpl. eexists _, _. split; [reflexivity|].
      split; [reflexivity|]. split; [now rewrite Hfold|].
      repeat (split; [reflexivity|]).
      unfold parseCartItems, bindM, get_world, ret. simpl. reflexivity.
    + unfold get_cart, decoded, bindM, get_world, send, modify.
      rewrite H. simpl. eexists. split; [reflexivity|].
      repeat (split; [reflexivity|]).
      unfold parseCartItems, bindM, get_world, ret. simpl. reflexivity.
  - split.
    + unfold cart_count_middleware, get_cart, decoded, bindM, modify.
      rewrite H. simpl. eexists _, _. split; [reflexivity|].
      split; [reflexivity|]. split; [now rewrite Hfold|].
      repeat (split; [reflexivity|]).
      unfold parseCartItems, bindM, get_world, ret. simpl. now rewrite Hc.
    + unfold get_cart, decoded, bindM, get_world, send, modify.
      rewrite H. simpl. eexists. split; [reflexivity|].
      repeat (split; [reflexivity|]).
      unfold parseCartItems, bindM, get_world, ret. simpl. now rewrite Hc.
Qed.

(** ** The slug as words joined by hyphens *)

Lemma drop_first_replace_runs (s : string) :
  drop_first_hyphen (replace_runs false s) = replace_runs true s.
Proof.
  destruct s as [|c s]; [reflexivity|]. cbn [replace_runs].
  destruct (is_slug_char c) eqn:E.
  - rewrite drop_first_hyphen_cons. now rewrite (slug_char_not_hyphen c E).
  - reflexivity.
Qed.

Lemma replace_runs_true_head (s : string) :
  replace_runs true s = "" \/
  exists c rest, replace_runs true s = String c rest /\ is_slug_char c = true.
Proof.
  induction s as [|c s IH]; [now left|]. cbn [replace_runs].
  destruct (is_slug_char c) eqn:E; [|exact IH].
  right. now eexists _, _.
Qed.

Lemma split_words_nonempty (s : string) :
  Forall (fun w => w <> "") (snd (split_words s)).
Proof.
  induction s as [|c s IH]; [constructor|]. cbn [split_words].
  destruct (split_words s) as [w ws]. simpl in IH.
  destruct (is_slug_char c); simpl; [exact IH|].
  destruct (String.eqb_spec w ""); [exact IH|]. now constructor.
Qed.

Lemma words_nonempty (s : string) : Forall (fun w => w <> "") (words s).
Proof.
  unfold words. pose proof (split_words_nonempty s) as H.
  destruct (split_words s) as [w ws]. simpl in H.
  destruct (String.eqb_spec w ""); [exact H|]. now constructor.
Qed.

Lemma concat_cons (sep w : string) (ws : list string) :
  String.concat sep (w :: ws) =
    w +:+ match ws with
          | [] => ""
          | _ :: _ => sep +:+ String.concat sep ws
          end.
Proof.
  destruct ws; simpl; [|reflexivity].
  induction w as [|c w IH]; [reflexivity|]. rewrite append_cons. now f_equal.
Qed.

Lemma words_cons (c : ascii) (s : string) :
  words (String c s) =
    if is_slug_char c then String c (fst (split_words s)) :: snd (split_words s)
    else words s.
Proof.
  unfold words. cbn [split_words]. destruct (split_words s) as [w ws].
  now destruct (is_slug_char c).
Qed.

(** What [replace_runs] writes, without its last hyphen: read after a
    letter or digit, the run the text starts with and then a hyphen before
    each later word; read inside a run of other characters, the words
    joined by hyphens. *)
Lemma replace_runs_words (s : string) :
  drop_last_hyphen (replace_runs false s)
    = fst (split_words s) +:+
      match snd (split_words s) with
      | [] => ""
      | _ :: _ => "-" +:+ String.concat "-" (snd (split_words s))
      end
  /\ drop_last_hyphen (replace_runs true s) = String.concat "-" (words s).
Proof.
  induction s as [|c s [IHf IHt]]; [now split|].
  rewrite words_cons. cbn [replace_runs split_words].
  destruct (split_words s) as [w ws] eqn:Hs. simpl fst in *. simpl snd in *.
  destruct (is_slug_char c) eqn:E.
  - rewrite (drop_last_hyphen_cons c _ (slug_char_not_hyphen c E)), IHf.
    simpl fst. simpl snd. split; [now rewrite append_cons|].
    now rewrite concat_cons, append_cons.
  - simpl fst. simpl snd. rewrite append_nil. split; [|exact IHt].
    rewrite drop_last_hyphen_hyphen.
    assert (words s = if String.eqb w "" then ws else w :: ws) as Hw.
    { unfold words. now rewrite Hs. }
    rewrite <- Hw.
    destruct (replace_runs_true_head s) as [Hnil | (c' & rest & Hcons & Hc')].
    + rewrite Hnil in *. simpl in IHt.
      pose proof (words_nonempty s) as Hne.
      destruct (words s) as [|w0 ws0]; [reflexivity|].
      apply Forall_cons in Hne as [Hw0 _]. rewrite concat_cons in IHt.
      destruct w0; [contradiction | discriminate].
    + rewrite Hcons in *.
      rewrite (drop_last_hyphen_cons c' _ (slug_char_not_hyphen c' Hc')) in IHt.
      destruct (words s) as [|w0 ws0]; [discriminate|].
      rewrite <- IHt.
      now rewrite (drop_last_hyphen_cons c' _ (slug_char_not_hyphen c' Hc')).
Qed.

Lemma split_words_chars (s : string) :
  Forall (fun w => forall c, In c (list_ascii_of_string w) -> is_slug_char c = true)
         (fst (split_words s) :: snd (split_words s)).
Proof.
  induction s as [|c s IH]; [repeat constructor; intros c []|].
  cbn [split_words]. destruct (split_words s) as [w ws].
  simpl fst in *. simpl snd in *.
  apply Forall_cons in IH as [Hw Hws].
  destruct (is_slug_char c) eqn:E; simpl.
  - constructor; [|exact Hws]. intros c' [<- | Hin]; [exact E | now apply Hw].
  - constructor; [intros c' []|].
    destruct (String.eqb w ""); [exact Hws | now constructor].
Qed.

Lemma words_nil (s : string) :
  words s = [] <->
  forall c, In c (list_ascii_of_string s) -> is_slug_char c = false.
Proof.
  induction s as [|c s IH]; [split; [intros _ c [] | reflexivity]|].
  rewrite words_cons. destruct (is_slug_char c) eqn:E.
  - split; [discriminate|]. intros H. rewrite (H c) in E by now left.
    discriminate.
  - rewrite IH. simpl. split.
    + intros H c' [<- | Hin]; [exact E | now apply H].
    + intros H c' Hin. apply H. now right.
Qed.

Lemma toLowerCase_chars (t : string) (c : ascii) :
  In c (list_ascii_of_string (toLowerCase t)) <->
  exists c0, In c0 (list_ascii_of_string t) /\ c = toLowerCase_char c0.
Proof.
  induction t as [|a t IH]; simpl.
  - split; [intros [] | intros (c0 & [] & _)].
  - rewrite IH. split.
    + intros [<- | (c0 & Hin & ->)]; [exists a | exists c0]; auto.
    + intros (c0 & [<- | Hin] & ->); [now left|]. right. now exists c0.
Qed.

(** X20.  The slug is the words joined by hyphens.  [slugify] returns the
    maximal runs of letters [a-z] and digits of the lowercased text, in
    order, with one hyphen between two runs; every such run is kept.  So
    the slug is empty exactly when the lowercased text has no letter [a-z]
    and no digit. *)
Theorem slugify_joins_words :
  forall value : string,
    slugify value = String.concat "-" (words (toLowerCase value)) /\
    Forall (fun w =>
              w <> "" /\
              forall c, In c (list_ascii_of_string w) -> is_slug_char c = true)
           (words (toLowerCase value)) /\
    (slugify value = "" <->
     forall c, In c (list_ascii_of_string value) ->
               is_slug_char (toLowerCase_char c) = false).
Proof.
  intros value.
  assert (slugify value = String.concat "-" (words (toLowerCase value))) as Heq.
  { unfold slugify, strip_hyphens. rewrite drop_first_replace_runs.
    apply replace_runs_words. }
  pose proof (words_nonempty (toLowerCase value)) as Hne.
  split; [exact Heq|]. split.
  - apply Forall_forall. intros w Hw. split.
    + rewrite Forall_forall in Hne. now apply Hne.
    + pose proof (split_words_chars (toLowerCase value)) as Hch.
      rewrite Forall_forall in Hch. apply Hch.
      unfold words in Hw. destruct (split_words (toLowerCase value)) as [w0 ws].
      simpl. destruct (String.eqb w0 ""); [now right | exact Hw].
  - rewrite Heq. split.
    + intros Hnil c Hin.
      assert (words (toLowerCase value) = []) as Hw.
      { destruct (words (toLowerCase value)) as [|w ws]; [reflexivity|].
        apply Forall_cons in Hne as [Hw _]. rewrite concat_cons in Hnil.
        destruct w; [contradiction | discriminate]. }
      rewrite words_nil in Hw. apply Hw. apply toLowerCase_chars. now exists c.
    + intros H. replace (words (toLowerCase value)) with (@nil string);
        [reflexivity|].
      symmetry. apply words_nil. intros c Hin.
      apply toLowerCase_chars in Hin as (c0 & Hin & ->). now apply H.
Qed.

(** ** The cart page when the catalogue changes *)

Lemma parseCartItems_store {host : Host} (w : World) (s : DataStore) :
  parseCartItems (mkWorld s (cart_objects w) (req w) (res w)) =
    (fst (parseCartItems w),
     mkWorld s (cart_objects (snd (parseCartItems w)))
             (req (snd (parseCartItems w))) (res (snd (parseCartItems w)))).
Proof.
  unfold parseCartItems, bindM, get_world, try_catch, lift, alloc,
    cache_and_return, modify, ret. simpl.
  destruct (__cartItems (req w)); [reflexivity|].
  destruct (negb (JS.truthy_opt_string (cart_cookie (req w)))); [reflexivity|].
  destruct (JSON_parse (default "" (cart_cookie (req w)))) as [[| | | |elements|]|];
    try reflexivity.
  simpl. destruct (mapC sanitize elements); reflexivity.
Qed.

Lemma price_line_removeProduct (s : DataStore) (id : string)
    (item : CartItem.t) :
  price_line (removeProduct id s) item =
    if String.eqb (CartItem.productId item) id then None else price_line s item.
Proof.
  unfold price_line, getProduct, removeProduct. simpl.
  destruct (String.eqb_spec (CartItem.productId item) id) as [->|Hne].
  - now rewrite Map_get_delete.
  - now rewrite Map_get_delete_ne by congruence.
Qed.

Lemma omap_cons {A B : Type} (f : A -> option B) (x : A) (l : list A) :
  omap f (x :: l) =
    match f x with
    | Some y => y :: omap f l
    | None => omap f l
    end.
Proof. reflexivity. Qed.

Lemma price_lines_removeProduct (s : DataStore) (id : string)
    (cart : list CartItem.t) :
  omap (price_line (removeProduct id s)) cart =
    omap (price_line s)
      (List.filter (fun item => negb (String.eqb (CartItem.productId item) id))
                   cart).
Proof.
  induction cart as [|item cart IH]; [reflexivity|].
  rewrite omap_cons, price_line_removeProduct, IH. cbn [List.filter].
  destruct (String.eqb (CartItem.productId item) id); cbn [negb];
    [reflexivity | now rewrite omap_cons].
Qed.

(** X21.  Deleting a product and the cart page.  The cart cookie is not
    touched by [removeProduct] and decodes as before; [GET /cart] then shows
    the lines it showed before for the other products, in the same order,
    and none for the deleted product, and the total is the sum of those
    lines. *)
Theorem removed_product_leaves_cart_page :
  forall (host : Host) (w : World) (id : string) (cart : list CartItem.t),
    decoded w = JS.Normal cart ->
    let w2 := mkWorld (removeProduct id (store w)) (cart_objects w) (req w)
                      (res w) in
    let before := omap (price_line (store w)) cart in
    let after :=
      omap (price_line (store w))
        (List.filter (fun item => negb (String.eqb (CartItem.productId item) id))
                     cart) in
    decoded w2 = JS.Normal cart /\
    sent (res (snd (get_cart w))) = Some (Render before (sum_lineTotals before)) /\
    sent (res (snd (get_cart w2))) = Some (Render after (sum_lineTotals after)).
Proof.
  intros host w id cart Hcart w2 before after.
  pose proof (parseCartItems_store w (removeProduct id (store w))) as Hp2.
  fold w2 in Hp2.
  destruct (parseCartItems_returns w) as (refs & extra & Hret).
  assert (exists w1, parseCartItems w = (JS.Normal refs, w1) /\
                     store w1 = store w) as (w1 & Hp & Hst).
  { destruct Hret as [H | [H _]]; rewrite H; eexists; split; reflexivity. }
  rewrite Hp in Hp2. simpl in Hp2.
  unfold decoded in Hcart. rewrite Hp in Hcart. injection Hcart as Hcart.
  split; [|split].
  - unfold decoded. rewrite Hp2. simpl. now rewrite Hcart.
  - unfold get_cart, bindM, get_world, send, modify. rewrite Hp. simpl.
    unfold cart_view in Hcart. rewrite Hcart, Hst.
    unfold sum_lineTotals. now rewrite fold_left_lineTotals.
  - unfold get_cart, bindM, get_world, send, modify. rewrite Hp2. simpl.
    unfold cart_view in Hcart. rewrite Hcart, price_lines_removeProduct.
    unfold sum_lineTotals. now rewrite fold_left_lineTotals.
Qed.

Lemma removed_product_leaves_cart_page_witness :
  let w := demo_world (Some (Ecma.js "[{'productId':'p1','quantity':2}]"))
             BUndefined BUndefined in
  let w2 := mkWorld (removeProduct "p1" (store w)) (cart_objects w) (req w)
                    (res w) in
  decoded (host := Ecma.host) w2 = JS.Normal [CartItem.mk "p1" 2%float] /\
  sent (res (snd (get_cart (host := Ecma.host) w)))
    = Some (Render [Line.mk 0 2%float 20%float] 20%float) /\
  sent (res (snd (get_cart (host := Ecma.host) w2))) = Some (Render [] 0%float).
Proof.
  intros w w2.
  apply (removed_product_leaves_cart_page Ecma.host w "p1"
           [CartItem.mk "p1" 2%float]).
  vm_compute. reflexivity.
Defined.

(** ** Updates touch one entry *)

Lemma Map_set_keys_present {V : Type} (k : string) (v v0 : V)
    (m : list (string * V)) :
  Map_get k m = Some v0 -> map fst (Map_set k v m) = map fst m.
Proof.
  induction m as [|[k1 v1] m IH]; simpl; [discriminate|].
  destruct (String.eqb_spec k1 k) as [->|Hne]; [reflexivity|].
  intros H. simpl. now rewrite IH.
Qed.

(** X22.  An update touches one entry.  [updateCategory], [updateProduct]
    and [updatePage] on an identifier the store holds keep the identifiers
    of the map and their order, leave every other identifier bound to what
    it was bound to, and leave the other maps and the settings as they
    were; what they return is what the store then holds under the
    identifier. *)
Theorem update_touches_one_entry :
  forall (s : DataStore) (id : string),
    (forall (u : CategoryUpdate.t) (c : Category.t),
       getCategory id s = Some c ->
       let s' := snd (updateCategory id u s) in
       getCategory id s' = fst (updateCategory id u s) /\
       map fst (categories s') = map fst (categories s) /\
       (forall id', id' <> id -> getCategory id' s' = getCategory id' s) /\
       objects s' = objects s /\ products s' = products s /\
       pages s' = pages s /\ settings s' = settings s) /\
    (forall (u : ProductUpdate.t) (p : Product.t),
       getProduct_object id s = Some p ->
       let s' := snd (updateProduct id u s) in
       getProduct id s' = fst (updateProduct id u s) /\
       map fst (products s') = map fst (products s) /\
       (forall id', id' <> id -> getProduct id' s' = getProduct id' s) /\
       (forall r q, objects s !! r = Some q -> objects s' !! r = Some q) /\
       categories s' = categories s /\
       pages s' = pages s /\ settings s' = settings s) /\
    (forall (u : PageUpdate.t) (g : CustomPage.t),
       Map_get id (pages s) = Some g ->
       let s' := snd (updatePage id u s) in
       Map_get id (pages s') = fst (updatePage id u s) /\
       map fst (pages s') = map fst (pages s) /\
       (forall id', id' <> id -> Map_get id' (pages s') = Map_get id' (pages s)) /\
       objects s' = objects s /\ products s' = products s /\
       categories s' = categories s /\ settings s' = settings s).
Proof.
  intros s id. split; [|split].
  - intros u c Hc s'. subst s'. unfold updateCategory.
    unfold getCategory in Hc. rewrite Hc. simpl. unfold getCategory. simpl.
    split; [apply Map_get_set_eq|].
    split; [now apply (Map_set_keys_present id _ c)|].
    split; [intros id' Hne; apply Map_get_set_ne; congruence|].
    now repeat split.
  - intros u p Hp s'. subst s'.
    destruct (updateProduct_found s id u p Hp) as (p' & Hupd & _).
    rewrite Hupd. simpl.
    assert (exists r, Map_get id (products s) = Some r) as [r Hr].
    { unfold getProduct_object, getProduct in Hp.
      destruct (Map_get id (products s)) as [r|]; [now exists r | discriminate]. }
    split; [apply Map_get_set_eq|].
    split; [now apply (Map_set_keys_present id _ r)|].
    split; [intros id' Hne; apply Map_get_set_ne; congruence|].
    split; [intros r0 q Hq; now apply lookup_app_l_Some|].
    now repeat split.
  - intros u g Hg s'. subst s'. unfold updatePage. rewrite Hg. simpl.
    split; [apply Map_get_set_eq|].
    split; [now apply (Map_set_keys_present id _ g)|].
    split; [intros id' Hne; apply Map_get_set_ne; congruence|].
    now repeat split.
Qed.

Lemma update_touches_one_entry_witness :
  let u := CategoryUpdate.mk None None (Some (Some "Everything to wear")) None in
  let s' := snd (updateCategory "c1" u demo_catalog) in
  map fst (categories s') = ["c1"; "c2"] /\
  getCategory "c2" s' = getCategory "c2" demo_catalog /\
  products s' = products demo_catalog.
Proof.
  intros u s'.
  destruct (update_touches_one_entry demo_catalog "c1") as (Hc & _ & _).
  destruct (Hc u (Category.mk "c1" (Some "Apparel") (Some "apparel")
                    (Some "Clothing") None) eq_refl)
    as (_ & Hkeys & Hother & _ & Hprod & _).
  split; [exact Hkeys|]. split; [|exact Hprod].
  apply Hother. discriminate.
Defined.
